(** * ghistogram: a shallow embedding of the bin-array histogram engine

    The development follows the Go sources: [HistogramBin], the two bin
    generators, [Histogram] with [findBin], [Add], [Total], [AddAll] and
    [EmitGraph], the duplicate [CbHistogram] engine, and the name-keyed
    [Histograms] map.

    Conventions.
    - A [uint64] is a [Z]; every arithmetic operation of the source that can
      overflow is followed by an explicit [wrap] (reduction modulo 2^64).
    - An [int] is a [Z] too (64-bit, two's complement on conversion).
    - A [float64] is a [spec_float] with the binary64 parameters.
    - A run-time panic (index out of range, [make] with a length that is
      negative or above the allocation limit) is [None].
    - The mutex [m] only serialises callers; the model is sequential and
      leaves it out. *)

From Stdlib Require Import ZArith List Lia String Ascii Bool.
From Stdlib Require Import Floats.SpecFloat.
From Stdlib Require DecimalString.
From stdpp Require Import base option list strings gmap.

Local Open Scope Z_scope.

(** ** Machine integers *)

Module U64.

Definition modulus : Z := 2 ^ 64.

(** [math.MaxUint64] *)
Definition MaxUint64 : Z := 18446744073709551615.

Definition wrap (z : Z) : Z := z mod modulus.

Definition in_range (z : Z) : Prop := 0 <= z < modulus.

(** [int(x)] for a [uint64] [x]: the same 64 bits read as signed. *)
Definition to_int (x : Z) : Z :=
  let w := wrap x in if w <? 2 ^ 63 then w else w - modulus.

(** [uint64(i)] for an [int] [i]. *)
Definition of_int (i : Z) : Z := wrap i.

End U64.

Import U64.

(** ** Bins *)

(** [type HistogramBin struct { _count, _start, _end uint64 }] *)
Record HistogramBin : Type := mkBin {
  _count : Z;
  _start : Z;
  _end : Z
}.

#[global] Instance HistogramBin_eq_dec : EqDecision HistogramBin.
Proof. solve_decision. Defined.

(** [hb.incr(amount)]: [atomic.AddUint64(&hb._count, amount)] *)
Definition incr (amount : Z) (hb : HistogramBin) : HistogramBin :=
  mkBin (wrap (_count hb + amount)) (_start hb) (_end hb).

(** [hb.set(val)] *)
Definition set (val : Z) (hb : HistogramBin) : HistogramBin :=
  mkBin val (_start hb) (_end hb).

(** [hb.accepts(value)]:
    [value >= hb._start && (value < hb._end || value == math.MaxUint64)] *)
Definition accepts (hb : HistogramBin) (value : Z) : bool :=
  (_start hb <=? value) && ((value <? _end hb) || (value =? MaxUint64)).

(** ** Histogram *)

Record Histogram : Type := mkHistogram {
  _name : string;
  _bins : list HistogramBin
}.

Definition with_bins (gh : Histogram) (bins : list HistogramBin) : Histogram :=
  mkHistogram (_name gh) bins.

(** The scan of [findBin]:
    [for i := 0; i < len(gh._bins); i++ { if amount < gh._bins[i]._end
    { index = i; break } }], started at position [i]; [None] when the loop
    ends without a [break]. *)
Fixpoint scan_end (bins : list HistogramBin) (amount : Z) (i : nat)
  : option nat :=
  match bins with
  | [] => None
  | b :: rest =>
      if amount <? _end b then Some i else scan_end rest amount (S i)
  end.

(** [gh.findBin(amount)], as the index of the bin the returned pointer
    refers to.  With no bins, [len(gh._bins)-1] is [-1] and every path
    indexes out of range. *)
Definition findBin (gh : Histogram) (amount : Z) : option nat :=
  let bins := _bins gh in
  let last := (length bins - 1)%nat in
  match bins with
  | [] => None
  | _ :: _ =>
      if amount =? MaxUint64 then Some last
      else
        let index := default last (scan_end bins amount 0) in
        match bins !! index with
        | None => None
        | Some hb => if negb (accepts hb amount) then Some last else Some index
        end
  end.

(** [gh.Add(amount, count)]: [gh.findBin(amount).incr(count)]. *)
Definition Add (gh : Histogram) (amount count : Z) : option Histogram :=
  match findBin gh amount with
  | None => None
  | Some i => Some (with_bins gh (alter (incr count) i (_bins gh)))
  end.

(** [gh.Reset()] *)
Definition Reset (gh : Histogram) : Histogram :=
  with_bins gh (map (set 0) (_bins gh)).

(** [gh.Total()]: [count += gh._bins[i]._count] over all bins, in [uint64]. *)
Definition Total (gh : Histogram) : Z :=
  fold_left (fun count hb => wrap (count + _count hb)) (_bins gh) 0.

(** The built-in [copy(dst, src)] on slices: the first
    [min(len(dst), len(src))] elements of [dst] are overwritten. *)
Definition go_copy {A} (dst src : list A) : list A :=
  let n := Nat.min (length dst) (length src) in
  take n src ++ drop n dst.

(** One iteration of the merging loop of [AddAll]. *)
Definition merge_bin (g s : HistogramBin) : HistogramBin :=
  if (_start g =? _start s) && (_end g =? _end s)
  then mkBin (wrap (_count g + _count s)) (_start g) (_end g)
  else g.

(** [gh.AddAll(src)].  The method has no result; the value of [fmt.Errorf]
    is discarded.  The model returns the two histograms after the call,
    [gh] first.  [gh] and [src] are distinct objects (the method locks
    both mutexes). *)
Definition AddAll (gh src : Histogram) : Histogram * Histogram :=
  if negb (length (_bins gh) =? length (_bins src))%nat then (gh, src)
  else
    let merged := zip_with merge_bin (_bins gh) (_bins src) in
    (with_bins gh merged, with_bins src (go_copy (_bins src) merged)).

(** A sequence of [Add] calls, each given as [(amount, count)]. *)
Fixpoint AddMany (gh : Histogram) (calls : list (Z * Z)) : option Histogram :=
  match calls with
  | [] => Some gh
  | (amount, count) :: rest =>
      match Add gh amount count with
      | None => None
      | Some gh' => AddMany gh' rest
      end
  end.

(** ** float64

    IEEE 754 binary64 through the Standard Library's [spec_float]:
    conversion from integers and the arithmetic round to nearest, ties to
    even, as Go's do. *)

Module F64.

Definition prec : Z := 53.
Definition emax : Z := 1024.

Definition zero : spec_float := S754_zero false.

(** [float64(x)] for an integer [x]. *)
Definition of_Z (x : Z) : spec_float := binary_normalize prec emax x 0 false.

Definition mul : spec_float -> spec_float -> spec_float := SFmul prec emax.
Definition div : spec_float -> spec_float -> spec_float := SFdiv prec emax.

(** [x == y], [x <= y] on floats (false when either side is NaN). *)
Definition eqb : spec_float -> spec_float -> bool := SFeqb.
Definition leb : spec_float -> spec_float -> bool := SFleb.

(** The integer part of a finite float (rounding toward zero). *)
Definition trunc (f : spec_float) : option Z :=
  match f with
  | S754_zero _ => Some 0
  | S754_finite s m e =>
      let a := if 0 <=? e then Z.pos m * 2 ^ e else Z.pos m / 2 ^ (- e) in
      Some (if s then - a else a)
  | S754_infinity _ | S754_nan => None
  end.

(** The largest integer not above a finite float. *)
Definition floorZ (f : spec_float) : option Z :=
  match f with
  | S754_zero _ => Some 0
  | S754_finite s m e =>
      Some (if 0 <=? e then (if s then - Z.pos m else Z.pos m) * 2 ^ e
            else (if s then - Z.pos m else Z.pos m) / 2 ^ (- e))
  | S754_infinity _ | S754_nan => None
  end.

(** [math.Floor(f)]: infinities, NaN and zeros are returned as they are. *)
Definition Floor (f : spec_float) : spec_float :=
  match f with
  | S754_finite _ _ _ =>
      match floorZ f with
      | Some z => binary_normalize prec emax z 0 (SFltb f zero)
      | None => f
      end
  | _ => f
  end.

Definition two : spec_float := of_Z 2.
Definition one : spec_float := of_Z 1.
Definition hundred : spec_float := of_Z 100.

End F64.

(** What the Go specification leaves to the implementation or to the
    standard library: the result of converting a float to an integer type
    that cannot represent its value, [math.Pow], and the largest length
    [make] accepts for a slice of bins (the allocation limit of the
    runtime divided by the size of a bin; [makeslice] panics with "len
    out of range" above it).  A length of zero is always accepted. *)
Class Platform : Type := {
  uint64_unrepresentable : spec_float -> Z;
  int_unrepresentable : spec_float -> Z;
  math_Pow : spec_float -> spec_float -> spec_float;
  makeslice_len : N
}.

(** The largest [numBins] for which [make([]HistogramBin, numBins)]
    returns. *)
Definition makeslice_max `{Platform} : Z := Z.of_N makeslice_len.

(** [uint64(f)] for a [float64] [f]. *)
Definition float_to_uint64 `{Platform} (f : spec_float) : Z :=
  match F64.trunc f with
  | Some z =>
      if (0 <=? z) && (z <? modulus) then z
      else wrap (uint64_unrepresentable f)
  | None => wrap (uint64_unrepresentable f)
  end.

(** [int(f)] for a [float64] [f]. *)
Definition float_to_int `{Platform} (f : spec_float) : Z :=
  match F64.trunc f with
  | Some z =>
      if (- 2 ^ 63 <=? z) && (z <? 2 ^ 63) then z
      else to_int (int_unrepresentable f)
  | None => to_int (int_unrepresentable f)
  end.

(** ** Bin generators *)

(** [bins[i].assign(g.getBin())] for every slot of [bins], in order; the
    generator state is threaded through the calls. *)
Fixpoint fill_slots {G B : Type} (getBin : G -> B * G)
    (slots : list B) (g : G) : list B :=
  match slots with
  | [] => []
  | _ :: rest => let '(hb, g') := getBin g in hb :: fill_slots getBin rest g'
  end.

Module MultipleGenerator.

Record t : Type := mk {
  _start : Z;
  _factor : spec_float;
  _initial : Z
}.

(** [uint64(float64(x) * mg._factor)] *)
Definition scale `{Platform} (factor : spec_float) (x : Z) : Z :=
  float_to_uint64 (F64.mul (F64.of_Z x) factor).

Definition getBin `{Platform} (mg : t) : HistogramBin * t :=
  if F64.eqb (_factor mg) F64.zero then
    let start := _start mg in
    let start' := wrap (_start mg + of_int (_initial mg)) in
    (mkBin 0 start start', mk start' (_factor mg) (_initial mg))
  else if negb (_initial mg =? -1) then
    let start := of_int (_initial mg) in
    let end_ := scale (_factor mg) (_start mg) in
    (mkBin 0 start end_, mk (_start mg) (_factor mg) (-1))
  else
    let start := scale (_factor mg) (_start mg) in
    let end_ := scale (_factor mg) start in
    (mkBin 0 start end_, mk start (_factor mg) (_initial mg)).

(** The [start] of the bin the next call of [getBin] returns. *)
Definition next_start `{Platform} (mg : t) : Z :=
  if F64.eqb (_factor mg) F64.zero then _start mg
  else if negb (_initial mg =? -1) then of_int (_initial mg)
  else scale (_factor mg) (_start mg).

End MultipleGenerator.

Module ExponentialGenerator.

Record t : Type := mk {
  _start : Z;
  _power : spec_float
}.

(** [uint64(math.Pow(eg._power, float64(i)))] *)
Definition boundary `{Platform} (power : spec_float) (i : Z) : Z :=
  float_to_uint64 (math_Pow power (F64.of_Z i)).

Definition getBin `{Platform} (eg : t) : HistogramBin * t :=
  let start := boundary (_power eg) (_start eg) in
  let start' := wrap (_start eg + 1) in
  let end_ := boundary (_power eg) start' in
  (mkBin 0 start end_, mk start' (_power eg)).

(** The [start] of the bin the next call of [getBin] returns. *)
Definition next_start `{Platform} (eg : t) : Z :=
  boundary (_power eg) (_start eg).

End ExponentialGenerator.

(** ** Construction *)

(** [gh.completeBinArray()], on the bin array.  [gh._bins[0]] panics on an
    empty array.  The result of the final [gh.verify()] is discarded. *)
Definition completeBinArray (bins : list HistogramBin)
  : option (list HistogramBin) :=
  match bins with
  | [] => None
  | first :: _ =>
      let start_of_first_bin := _start first in
      let bins1 :=
        if 0 <? start_of_first_bin
        then mkBin 0 0 start_of_first_bin :: bins
        else bins in
      match last bins1 with
      | None => None
      | Some l =>
          let end_of_last_bin := _end l in
          Some (if end_of_last_bin <? MaxUint64
                then bins1 ++ [mkBin 0 end_of_last_bin MaxUint64]
                else bins1)
      end
  end.

(** The loop of [gh.verify()], with [prev] as it stands on entry. *)
Fixpoint verify_from (prev : Z) (bins : list HistogramBin) : bool :=
  match bins with
  | [] => prev =? MaxUint64
  | hb :: rest =>
      if negb (_start hb =? prev) then false else verify_from (_end hb) rest
  end.

(** [gh.verify()] *)
Definition verify (gh : Histogram) : bool := verify_from 0 (_bins gh).

(** [gh.fillMultiples(mg)] *)
Definition fillMultiples `{Platform} (gh : Histogram)
    (mg : MultipleGenerator.t) : option Histogram :=
  match completeBinArray
          (fill_slots MultipleGenerator.getBin (_bins gh) mg) with
  | None => None
  | Some bins => Some (with_bins gh bins)
  end.

(** [gh.fillExponential(eg)] *)
Definition fillExponential `{Platform} (gh : Histogram)
    (eg : ExponentialGenerator.t) : option Histogram :=
  match completeBinArray
          (fill_slots ExponentialGenerator.getBin (_bins gh) eg) with
  | None => None
  | Some bins => Some (with_bins gh bins)
  end.

(** [make([]HistogramBin, numBins)]: zeroed bins; panics when [numBins] is
    negative or above the allocation limit. *)
Definition make_bins `{Platform} (numBins : Z) : option (list HistogramBin) :=
  if (numBins <? 0) || (makeslice_max <? numBins) then None
  else Some (replicate (Z.to_nat numBins) (mkBin 0 0 0)).

(** [NewHistogram(numBins, binFirst, binGrowthFactor)] *)
Definition NewHistogram `{Platform} (numBins : Z) (binFirst : Z)
    (binGrowthFactor : spec_float) : option Histogram :=
  let mg := MultipleGenerator.mk binFirst binGrowthFactor (to_int binFirst) in
  match make_bins numBins with
  | None => None
  | Some bins => fillMultiples (mkHistogram "Histogram" bins) mg
  end.

(** [NewExpHistogram(name, numBins, growthFactor)] *)
Definition NewExpHistogram `{Platform} (name : string) (numBins : Z)
    (growthFactor : spec_float) : option Histogram :=
  let growthFactor :=
    if F64.leb growthFactor F64.one then F64.two else growthFactor in
  let eg := ExponentialGenerator.mk 0 growthFactor in
  match make_bins numBins with
  | None => None
  | Some bins => fillExponential (mkHistogram name bins) eg
  end.

(** ** Text output *)

Module Fmt.

(** ["\n"] *)
Definition nl : string := String "010"%char EmptyString.

(** [len(s)] *)
Definition len (s : string) : Z := Z.of_nat (String.length s).

Fixpoint spaces (n : nat) : string :=
  match n with
  | O => EmptyString
  | S n' => String " "%char (spaces n')
  end.

(** The verb [%v] on an unsigned integer. *)
Definition dec (z : Z) : string :=
  DecimalString.NilZero.string_of_int (Z.to_int z).

(** A minimum width: [%10v], [%7.2f] pad on the left with spaces. *)
Definition pad_left (width : Z) (s : string) : string :=
  spaces (Z.to_nat (width - len s)) +:+ s.

(** The hundredths nearest to [m * 2^e], ties to the even one. *)
Definition hundredths (m : positive) (e : Z) : Z :=
  let n := Z.pos m * 100 in
  if 0 <=? e then n * 2 ^ e
  else
    let d := 2 ^ (- e) in
    let q := n / d in
    let r := n mod d in
    match 2 * r ?= d with
    | Lt => q
    | Gt => q + 1
    | Eq => if Z.even q then q else q + 1
    end.

Definition two_digits (z : Z) : string :=
  if z <? 10 then "0" +:+ dec z else dec z.

(** The verb [%.2f]. *)
Definition fixed2 (f : spec_float) : string :=
  match f with
  | S754_nan => "NaN"
  | S754_infinity s => if s then "-Inf" else "+Inf"
  | S754_zero s => if s then "-0.00" else "0.00"
  | S754_finite s m e =>
      let h := hundredths m e in
      (if s then "-" else "") +:+ dec (h / 100) +:+ "." +:+
      two_digits (h mod 100)
  end.

End Fmt.

(** [var bar = []byte("##############################")] *)
Definition bar : string := "##############################".

(** What the first loop of [EmitGraph] accumulates. *)
Record GraphStats : Type := mkStats {
  totalCount : Z;
  maxCount : Z;
  ranges : list string;
  longestRange : Z
}.

(** The label of a bin: ["%v - %v"], or ["%v - inf"] when the bin ends at
    [math.MaxUint64]. *)
Definition range_label (hb : HistogramBin) : string :=
  if negb (_end hb =? MaxUint64)
  then Fmt.dec (_start hb) +:+ " - " +:+ Fmt.dec (_end hb)
  else Fmt.dec (_start hb) +:+ " - inf".

(** One iteration of the first loop of [EmitGraph]. *)
Definition stats_step (label : HistogramBin -> string)
    (st : GraphStats) (hb : HistogramBin) : GraphStats :=
  let temp := label hb in
  mkStats
    (wrap (totalCount st + _count hb))
    (if maxCount st <? _count hb then _count hb else maxCount st)
    (ranges st ++ [temp])
    (if (0 <? _count hb) && (longestRange st <? Fmt.len temp)
     then Fmt.len temp else longestRange st).

Definition graph_stats (label : HistogramBin -> string)
    (bins : list HistogramBin) : GraphStats :=
  fold_left (stats_step label) bins (mkStats 0 0 [] 0).

(** A bin the second loop of [EmitGraph] does not skip, with everything
    its line is computed from. *)
Record GraphLine : Type := mkLine {
  gl_range : string;
  gl_padding : string;
  gl_binCount : Z;
  gl_totalCount : Z;
  gl_maxCount : Z
}.

(** The second loop of [EmitGraph]: bins with a zero count are skipped. *)
Definition graph_lines (st : GraphStats) (bins : list HistogramBin)
  : list GraphLine :=
  omap (fun '(hb, range) =>
          let binCount := _count hb in
          if binCount =? 0 then None
          else Some (mkLine range
                       (Fmt.spaces
                          (Z.to_nat (longestRange st - Fmt.len range)))
                       binCount (totalCount st) (maxCount st)))
       (zip bins (ranges st)).

(** The float divisions a line executes, each as [(dividend, divisor)]:
    [float64(binCount)/float64(totalCount)] and
    [float64(binCount)/float64(maxCount)]. *)
Definition line_divisions (gl : GraphLine) : list (Z * Z) :=
  [(gl_binCount gl, gl_totalCount gl); (gl_binCount gl, gl_maxCount gl)].

(** [int(math.Floor(barLen * (float64(binCount) / float64(maxCount))))] *)
Definition barWant `{Platform} (barSrc : string) (gl : GraphLine) : Z :=
  float_to_int
    (F64.Floor
       (F64.mul (F64.of_Z (Fmt.len barSrc))
          (F64.div (F64.of_Z (gl_binCount gl)) (F64.of_Z (gl_maxCount gl))))).

(** [b[0:n]] on a byte slice whose capacity is its length: panics unless
    [0 <= n <= len(b)]. *)
Definition slice_to (b : string) (n : Z) : option string :=
  if (0 <=? n) && (n <=? Fmt.len b)
  then Some (String.substring 0 (Z.to_nat n) b)
  else None.

(** What one pass of the second loop writes to [out]:
    the prefix, then
    [fmt.Fprintf(out, "[%s] %s%10v %7.2f%%", ranges[i], padding, binCount,
                 100.0*(float64(binCount)/float64(totalCount)))],
    a space, [barFrom[0:barWant]] and a newline. *)
Definition emit_line `{Platform} (barLenOf barFrom : string)
    (prefix : option string) (gl : GraphLine) : option string :=
  let pct :=
    F64.mul F64.hundred
      (F64.div (F64.of_Z (gl_binCount gl)) (F64.of_Z (gl_totalCount gl))) in
  match slice_to barFrom (barWant barLenOf gl) with
  | None => None
  | Some bars =>
      Some (default "" prefix +:+
            "[" +:+ gl_range gl +:+ "] " +:+ gl_padding gl +:+
            Fmt.pad_left 10 (Fmt.dec (gl_binCount gl)) +:+ " " +:+
            Fmt.pad_left 7 (Fmt.fixed2 pct) +:+ "%" +:+
            " " +:+ bars +:+ Fmt.nl)
  end.

(** The lines of a graph written one after the other; a panic in one of
    them aborts the call. *)
Fixpoint emit_lines `{Platform} (barLenOf barFrom : string)
    (prefix : option string) (gls : list GraphLine) : option string :=
  match gls with
  | [] => Some ""
  | gl :: rest =>
      match emit_line barLenOf barFrom prefix gl with
      | None => None
      | Some line =>
          match emit_lines barLenOf barFrom prefix rest with
          | None => None
          | Some more => Some (line +:+ more)
          end
      end
  end.

(** [fmt.Fprintf(out, "%s (%v Total)\n", name, totalCount)] *)
Definition header (name : string) (total : Z) : string :=
  name +:+ " (" +:+ Fmt.dec total +:+ " Total)" +:+ Fmt.nl.

(** The bins [gh.EmitGraph] writes a line for. *)
Definition EmitGraph_lines (gh : Histogram) : list GraphLine :=
  graph_lines (graph_stats range_label (_bins gh)) (_bins gh).

(** The float divisions [gh.EmitGraph] executes, in order. *)
Definition EmitGraph_divisions (gh : Histogram) : list (Z * Z) :=
  flat_map line_divisions (EmitGraph_lines gh).

(** [gh.EmitGraph(prefix, out)]: the contents of the returned buffer.
    [out = None] is the nil buffer, for which a fresh one is allocated;
    [prefix = None] is the nil prefix. *)
Definition EmitGraph `{Platform} (gh : Histogram) (prefix : option string)
    (out : option string) : option string :=
  let st := graph_stats range_label (_bins gh) in
  match emit_lines bar bar prefix (EmitGraph_lines gh) with
  | None => None
  | Some lines =>
      Some (default "" out +:+ header (_name gh) (totalCount st) +:+ lines)
  end.

(** ** The CbHistogram engine

    [CbHistogramBin] has the fields of [HistogramBin] and the same
    methods; the model uses one record for both.  The functions are
    embedded from [cbghistogram.go] on their own. *)

Module Cb.

Definition CbHistogramBin : Type := HistogramBin.

(** [hb.accepts(value)] *)
Definition accepts (hb : CbHistogramBin) (value : Z) : bool :=
  (_start hb <=? value) && ((value <? _end hb) || (value =? MaxUint64)).

Record CbHistogram : Type := mkCbHistogram {
  _name : string;
  _bins : list CbHistogramBin
}.

(** [var BAR = []byte("##############################")] *)
Definition BAR : string := "##############################".

(** [h.verify()] *)
Definition verify (h : CbHistogram) : bool := verify_from 0 (_bins h).

(** [h.fill(eg)]; the result of the final [h.verify()] is discarded. *)
Definition fill `{Platform} (h : CbHistogram) (eg : ExponentialGenerator.t)
  : option CbHistogram :=
  let bins := fill_slots ExponentialGenerator.getBin (_bins h) eg in
  match bins with
  | [] => None
  | first :: _ =>
      let start_of_first_bin := _start first in
      let bins1 :=
        if 0 <? start_of_first_bin
        then mkBin 0 0 start_of_first_bin :: bins
        else bins in
      match last bins1 with
      | None => None
      | Some l =>
          let end_of_last_bin := _end l in
          Some (mkCbHistogram (_name h)
                  (if end_of_last_bin <? MaxUint64
                   then bins1 ++ [mkBin 0 end_of_last_bin MaxUint64]
                   else bins1))
      end
  end.

(** [NewCbHistogram(name, n)] *)
Definition NewCbHistogram `{Platform} (name : string) (n : Z)
  : option CbHistogram :=
  let eg := ExponentialGenerator.mk 0 F64.two in
  match make_bins n with
  | None => None
  | Some bins => fill (mkCbHistogram name bins) eg
  end.

(** [h.findBin(amount)], as an index. *)
Definition findBin (h : CbHistogram) (amount : Z) : option nat :=
  let bins := _bins h in
  let last := (length bins - 1)%nat in
  match bins with
  | [] => None
  | _ :: _ =>
      if amount =? MaxUint64 then Some last
      else
        let index := default last (scan_end bins amount 0) in
        match bins !! index with
        | None => None
        | Some hb =>
            if negb (accepts hb amount) then Some last else Some index
        end
  end.

(** [h.Add(amount, count)] *)
Definition Add (h : CbHistogram) (amount count : Z) : option CbHistogram :=
  match findBin h amount with
  | None => None
  | Some i =>
      Some (mkCbHistogram (_name h) (alter (incr count) i (_bins h)))
  end.

(** [h.Total()] *)
Definition Total (h : CbHistogram) : Z :=
  fold_left (fun count hb => wrap (count + _count hb)) (_bins h) 0.

(** ["%v - %v"] for every bin. *)
Definition range_label (hb : CbHistogramBin) : string :=
  Fmt.dec (_start hb) +:+ " - " +:+ Fmt.dec (_end hb).

(** [h.EmitGraph()]: the bar length is taken from [bar], the glyphs
    from [BAR]. *)
Definition EmitGraph `{Platform} (h : CbHistogram) : option string :=
  let st := graph_stats range_label (_bins h) in
  match emit_lines bar BAR None (graph_lines st (_bins h)) with
  | None => None
  | Some lines => Some (header (_name h) (totalCount st) +:+ lines)
  end.

End Cb.

(** ** Histograms: a map from names to histograms

    [Histograms.AddAll] is written against a [Histogram] that exposes
    [Ranges], [Counts], [CloneEmpty] and [AddAll]; that declaration is not
    among the sources, so the map operations take it as an interface. *)

Class RangedHistogram (H : Type) : Type := {
  Ranges : H -> list Z;
  Counts : H -> list Z;
  CloneEmpty : H -> H;
  (** [dst.AddAll(src)]: the two histograms after the call, [dst] first. *)
  MergeInto : H -> H -> H * H
}.

Module Histograms.

Section WithHistogram.

Context {H : Type} `{RangedHistogram H}.

(** [for i := 0; i < len(v.Ranges); i++ { if hmap[k].Ranges[i] !=
    v.Ranges[i] { return error } }], on slices of one length. *)
Fixpoint ranges_differ (dst src : list Z) : bool :=
  match dst, src with
  | d :: dst', s :: src' =>
      if negb (d =? s) then true else ranges_differ dst' src'
  | _, _ => false
  end.

(** The first loop of [AddAll] over the entries of [srcmap] in the
    order the [range] statement visits them: the destination map
    when the loop stops, and the error it returns if any. *)
Fixpoint check_all (hmap : gmap string H) (visit : list (string * H))
  : gmap string H * option string :=
  match visit with
  | [] => (hmap, None)
  | (k, v) :: rest =>
      match hmap !! k with
      | None => check_all (<[k := CloneEmpty v]> hmap) rest
      | Some h =>
          if negb (length (Counts h) =? length (Counts v))%nat
             || negb (length (Ranges h) =? length (Ranges v))%nat
          then (hmap, Some "Mismatch in histogram creation parameters")
          else if ranges_differ (Ranges h) (Ranges v)
          then (hmap, Some "Mismatch in histogram creation parmeters")
          else check_all hmap rest
      end
  end.

(** The second loop, [hmap[k].AddAll(v)] for every entry: the
    destination map and the source histograms afterwards.  [None] is
    the nil dereference of a missing [hmap[k]]. *)
Fixpoint merge_all (hmap : gmap string H) (visit : list (string * H))
  : option (gmap string H * list (string * H)) :=
  match visit with
  | [] => Some (hmap, [])
  | (k, v) :: rest =>
      match hmap !! k with
      | None => None
      | Some h =>
          let '(h', v') := MergeInto h v in
          match merge_all (<[k := h']> hmap) rest with
          | None => None
          | Some (hmap', srcs) => Some (hmap', (k, v') :: srcs)
          end
      end
  end.

Record Outcome : Type := mkOutcome {
  dst_after : gmap string H;
  src_after : list (string * H);
  err : option string
}.

(** [hmap.AddAll(srcmap)].  [visit1] and [visit2] are the entries of
    [srcmap] in the orders the two [range] statements visit them (Go
    leaves the order of a map iteration open).  The histograms of the
    two maps are distinct objects. *)
Definition AddAll (hmap : gmap string H) (visit1 visit2 : list (string * H))
  : option Outcome :=
  match check_all hmap visit1 with
  | (hmap1, Some e) => Some (mkOutcome hmap1 visit1 (Some e))
  | (hmap1, None) =>
      match merge_all hmap1 visit2 with
      | None => None
      | Some (hmap2, srcs) => Some (mkOutcome hmap2 srcs None)
      end
  end.

End WithHistogram.

End Histograms.

(** ** Concrete instances *)

(** [x^n] by repeated squaring in binary64; every product is exact when
    [x] is a power of two and the result is finite. *)
Fixpoint pow_by_squaring (x : spec_float) (n : positive) : spec_float :=
  match n with
  | xH => x
  | xO n' => let y := pow_by_squaring x n' in F64.mul y y
  | xI n' => let y := pow_by_squaring x n' in F64.mul x (F64.mul y y)
  end.

(** One admissible platform: a conversion the target type cannot represent
    gives the pattern [0x8000000000000000], [math.Pow] is computed on
    non-negative integral exponents (NaN elsewhere), and [make] accepts
    the bins that fit in a heap of 2^48 bytes, 24 bytes each. *)
Definition sample_platform : Platform := {|
  uint64_unrepresentable := fun _ => 2 ^ 63;
  int_unrepresentable := fun _ => 2 ^ 63;
  math_Pow := fun x y =>
    match F64.trunc y with
    | Some 0 => F64.one
    | Some (Z.pos n) =>
        if F64.eqb (F64.of_Z (Z.pos n)) y then pow_by_squaring x n
        else S754_nan
    | _ => S754_nan
    end;
  makeslice_len := 2 ^ 48 / 24
|}.

(** Modelled from the spec: the [Histogram] with public [Ranges] and
    [Counts] that [Histograms.AddAll] reads is not among the sources; it
    is taken as the bucket boundaries and the bucket counts. *)
Record RHistogram : Type := mkRHistogram {
  rh_Ranges : list Z;
  rh_Counts : list Z
}.

(** Modelled from the spec: [CloneEmpty] keeps the ranges and zeroes the
    counts; the merge adds the counts bin by bin in [uint64] and does not
    touch the source. *)
#[global] Instance RHistogram_ranged : RangedHistogram RHistogram := {|
  Ranges := rh_Ranges;
  Counts := rh_Counts;
  CloneEmpty := fun h =>
    mkRHistogram (rh_Ranges h) (replicate (length (rh_Counts h)) 0);
  MergeInto := fun dst src =>
    (mkRHistogram (rh_Ranges dst)
       (zip_with (fun a b => wrap (a + b)) (rh_Counts dst) (rh_Counts src)),
     src)
|}.

(** ** Properties of bin arrays used in the statements *)

(** The [(start, end)] pairs of a histogram, in order. *)
Definition boundaries (gh : Histogram) : list (Z * Z) :=
  map (fun hb => (_start hb, _end hb)) (_bins gh).

(** The bin counts of a histogram, in order. *)
Definition counts (gh : Histogram) : list Z := map _count (_bins gh).

(** The sum of a list of integers, without wrap-around. *)
Definition sumZ (l : list Z) : Z := fold_right Z.add 0 l.

(** Each bin starts where the one before it ends, the first at [prev]. *)
Fixpoint linked (prev : Z) (bins : list HistogramBin) : Prop :=
  match bins with
  | [] => True
  | hb :: rest => _start hb = prev /\ linked (_end hb) rest
  end.

(** Contiguous and total: the first bin starts at 0, each bin's end is the
    next bin's start, and the last bin ends at [MaxUint64]. *)
Definition contiguous_total (bins : list HistogramBin) : Prop :=
  (exists first, head bins = Some first /\ _start first = 0) /\
  (forall i a b, bins !! i = Some a -> bins !! S i = Some b ->
                 _end a = _start b) /\
  (exists l, last bins = Some l /\ _end l = MaxUint64).

(** Sorted ascending by start. *)
Definition sorted_by_start (bins : list HistogramBin) : Prop :=
  forall i j a b, (i <= j)%nat -> bins !! i = Some a -> bins !! j = Some b ->
                  _start a <= _start b.

(** No bin ends below its start. *)
Definition ordered_ranges (bins : list HistogramBin) : Prop :=
  Forall (fun hb => _start hb <= _end hb) bins.

(** Every bin but the last has [start < end]. *)
Definition nonempty_ranges (bins : list HistogramBin) : Prop :=
  forall i hb, bins !! i = Some hb -> (S i < length bins)%nat ->
               _start hb < _end hb.

(** The end of the last bin, [prev] when there is none: the value of
    [prev] when the loop of [verify] is left. *)
Fixpoint final_end (prev : Z) (bins : list HistogramBin) : Z :=
  match bins with
  | [] => prev
  | hb :: rest => final_end (_end hb) rest
  end.

(** A freshly generated bin: no samples, boundaries that are [uint64]s. *)
Definition fresh_bin (hb : HistogramBin) : Prop :=
  _count hb = 0 /\ in_range (_start hb) /\ in_range (_end hb).

(** A histogram a constructor of [ghistogram.go] returned. *)
Definition constructed `{Platform} (gh : Histogram) : Prop :=
  (exists numBins binFirst binGrowthFactor,
     NewHistogram numBins binFirst binGrowthFactor = Some gh) \/
  (exists name numBins growthFactor,
     NewExpHistogram name numBins growthFactor = Some gh).

(** The condition the specification gives for [accepts]: the sentinel is
    recognised by the bin's end. *)
Definition accepts_by_end (hb : HistogramBin) (value : Z) : Prop :=
  _start hb <= value /\ (value < _end hb \/ _end hb = MaxUint64).

(** [NewHistogram(1, 1<<63, 0.0)] *)
Definition wrapped_histogram : Histogram :=
  mkHistogram "Histogram"
    [mkBin 0 0 (2 ^ 63); mkBin 0 (2 ^ 63) 0; mkBin 0 0 MaxUint64].

(** [NewHistogram(1, 0, 0.0)] *)
Definition zero_width_histogram : Histogram :=
  mkHistogram "Histogram" [mkBin 0 0 0; mkBin 0 0 MaxUint64].

(** What the specification asks of [AddAll] on mismatched histograms: no
    bin count of either histogram changes. *)
Definition AddAll_leaves_counts (gh src : Histogram) : Prop :=
  counts (AddAll gh src).1 = counts gh /\
  counts (AddAll gh src).2 = counts src.

(** [NewHistogram(2, 1, 0.0)] after [Add(0, 1)] *)
Definition constant_2_1 : Histogram :=
  mkHistogram "Histogram"
    [mkBin 1 0 1; mkBin 0 1 2; mkBin 0 2 3; mkBin 0 3 MaxUint64].

(** [NewHistogram(2, 1, 2.0)] after [Add(0, 5)] *)
Definition doubling_2_1 : Histogram :=
  mkHistogram "Histogram"
    [mkBin 5 0 1; mkBin 0 1 2; mkBin 0 2 4; mkBin 0 4 MaxUint64].

(** [gh] of [TestAddAll]: [NewHistogram(5, 10, 2.0)] after [Add(15, 2)],
    [Add(25, 3)] and [Add(1000, 1)]. *)
Definition TestAddAll_gh : Histogram :=
  mkHistogram "Histogram"
    [mkBin 0 0 10; mkBin 2 10 20; mkBin 3 20 40; mkBin 0 40 80;
     mkBin 0 80 160; mkBin 0 160 320; mkBin 1 320 MaxUint64].

(** [gh2] of [TestAddAll] after the first [gh2.AddAll(gh)]. *)
Definition TestAddAll_gh2 : Histogram :=
  mkHistogram "Histogram"
    [mkBin 0 0 10; mkBin 2 10 20; mkBin 3 20 40; mkBin 0 40 80;
     mkBin 0 80 160; mkBin 0 160 320; mkBin 1 320 MaxUint64].

(** The histogram of [TestGraph]: [NewHistogram(7, 10, 2.0)], named
    [TestGraph], after the seven [Add] calls of the test. *)
Definition TestGraph_gh : Histogram :=
  mkHistogram "TestGraph"
    [mkBin 2 0 10; mkBin 20 10 20; mkBin 10 20 40; mkBin 3 40 80;
     mkBin 0 80 160; mkBin 2 160 320; mkBin 1 320 640; mkBin 0 640 1280;
     mkBin 10 1280 MaxUint64].

(** The text [TestGraph] expects from [gh.EmitGraph([]byte("- "), nil)]. *)
Definition TestGraph_exp : string :=
"TestGraph (48 Total)
- [0 - 10]        4.17%    4.17% ### (2)
- [10 - 20]      41.67%   45.83% ############################## (20)
- [20 - 40]      20.83%   66.67% ############### (10)
- [40 - 80]       6.25%   72.92% #### (3)
- [160 - 320]     4.17%   77.08% ### (2)
- [320 - 640]     2.08%   79.17% # (1)
- [1280 - inf]   20.83%  100.00% ############### (10)
".

(** The text [EmitGraph] writes for it. *)
Definition TestGraph_got : string :=
"TestGraph (48 Total)
- [0 - 10]              2    4.17% ###
- [10 - 20]            20   41.67% ##############################
- [20 - 40]            10   20.83% ###############
- [40 - 80]             3    6.25% ####
- [160 - 320]           2    4.17% ###
- [320 - 640]           1    2.08% #
- [1280 - inf]         10   20.83% ###############
".

(** The histogram of [TestCbHistogramGraph]: [NewCbHistogram("TestGraph",
    5)] after [Add(i % 5, 1)] for [i] from 0 to 9999. *)
Definition TestCbHistogramGraph_hist : Cb.CbHistogram :=
  Cb.mkCbHistogram "TestGraph"
    [mkBin 2000 0 1; mkBin 2000 1 2; mkBin 4000 2 4; mkBin 2000 4 8;
     mkBin 0 8 16; mkBin 0 16 32; mkBin 0 32 MaxUint64].

(** The text [TestCbHistogramGraph] expects. *)
Definition TestCbHistogramGraph_exp : string :=
"TestGraph (10000 Total)
[0 - 1]       2000   20.00% ###############
[1 - 2]       2000   20.00% ###############
[2 - 4]       4000   40.00% ##############################
[4 - 8]       2000   20.00% ###############
".

(** A destination map and the entries of a source map, in visiting
    order: [a] is new to the destination, [b] is there with other
    ranges. *)
Definition mismatch_dst : gmap string RHistogram :=
  {[ "b" := mkRHistogram [0; 10] [7; 0] ]}.

Definition mismatch_src : list (string * RHistogram) :=
  [("a", mkRHistogram [0; 10] [1; 2]); ("b", mkRHistogram [0; 20] [3; 4])].

(** What [mismatch_dst.AddAll] returns on these entries. *)
Definition mismatch_out : Histograms.Outcome :=
  Histograms.mkOutcome
    (<["a" := mkRHistogram [0; 10] [0; 0]]> mismatch_dst)
    mismatch_src
    (Some "Mismatch in histogram creation parmeters").

(** [NewHistogram(3, 1, 1.5)] *)
Definition truncated_histogram : Histogram :=
  mkHistogram "Histogram"
    [mkBin 0 0 1; mkBin 0 1 1; mkBin 0 1 1; mkBin 0 1 1;
     mkBin 0 1 MaxUint64].

(** ** Further definitions used in the statements *)

(** [value] lies in the half-open range of [hb]. *)
Definition covers (hb : HistogramBin) (value : Z) : Prop :=
  _start hb <= value < _end hb.

(** [h.Reset()] of the CbHistogram engine. *)
Definition Cb_Reset (h : Cb.CbHistogram) : Cb.CbHistogram :=
  Cb.mkCbHistogram (Cb._name h) (map (set 0) (Cb._bins h)).

(** A [CbHistogram] read as a [Histogram]: the same name and bins. *)
Definition Cb_as_Histogram (h : Cb.CbHistogram) : Histogram :=
  mkHistogram (Cb._name h) (Cb._bins h).

(** The [n] bins [k*w - (k+1)*w] for [k] from [from] on. *)
Definition constant_bins (w : Z) (from n : nat) : list HistogramBin :=
  map (fun k => mkBin 0 (Z.of_nat k * w) ((Z.of_nat k + 1) * w)) (seq from n).

(** The [n] bins [b*2^k - b*2^(k+1)] for [k] from [from] on. *)
Definition doubling_bins (b : Z) (from n : nat) : list HistogramBin :=
  map (fun k => mkBin 0 (b * 2 ^ Z.of_nat k) (b * 2 ^ (Z.of_nat k + 1)))
      (seq from n).

(** ** Rounding to float64 *)

(** A mantissa of 53 digits, or [2^53], at exponent [e], as a float. *)
Definition F64_norm (sx : bool) (m e : Z) : spec_float :=
  if m <? 2 ^ 53 then S754_finite sx (Z.to_pos m) e
  else S754_finite sx (Z.to_pos (2 ^ 52)) (e + 1).

(** [x] without its last [n] bits, rounded to the nearest, ties to even. *)
Definition rne (x n : Z) : Z :=
  let Q := x / 2 ^ n in
  let rm := x mod 2 ^ n in
  let half := 2 ^ (n - 1) in
  if rm <? half then Q
  else if half <? rm then Q + 1
  else if Z.even Q then Q else Q + 1.

(** The mantissa and the exponent of [float64(x)]. *)
Definition f64_pair (x : Z) : Z * Z :=
  let d := Zdigits2 x in
  if d <=? 53 then (x * 2 ^ (53 - d), d - 53)
  else
    let Q := rne x (d - 53) in
    if Q <? 2 ^ 53 then (Q, d - 53) else (2 ^ 52, d - 52).

(** ** Growth factors, in exact arithmetic *)

(** A [float64] value: a mantissa and an exponent in canonical form. *)
Definition F64_valid (f : spec_float) : bool :=
  valid_binary F64.prec F64.emax f.

(** [g > 1.0] for a finite [float64] value [g]. *)
Definition above_one (g : spec_float) : bool :=
  match g with
  | S754_finite false _ _ => F64_valid g && SFltb F64.one g
  | _ => false
  end.

(** [x + 1 <= x * g] in exact arithmetic: the truncation of [x * g] to an
    integer is above [x]. *)
Definition advances (g : spec_float) (x : Z) : bool :=
  match g with
  | S754_finite false m e =>
      if 0 <=? e then x + 1 <=? x * Z.pos m * 2 ^ e
      else (x + 1) * 2 ^ (- e) <=? x * Z.pos m
  | _ => false
  end.

(** [g <= G] in exact arithmetic, for an integer [G]. *)
Definition at_most (g : spec_float) (G : Z) : bool :=
  match g with
  | S754_finite false m e =>
      if 0 <=? e then Z.pos m * 2 ^ e <=? G
      else Z.pos m <=? G * 2 ^ (- e)
  | _ => false
  end.

(** The value of [f] is one [uint64(f)] is defined for. *)
Definition fits_uint64 (f : spec_float) : bool :=
  match F64.trunc f with
  | Some z => (0 <=? z) && (z <? 2 ^ 64)
  | None => false
  end.

(** None of the [n] products [float64(x) * g] computed from the start [x]
    on leaves the range of [uint64]. *)
Fixpoint no_overflow `{Platform} (g : spec_float) (x : Z) (n : nat) : bool :=
  match n with
  | O => true
  | S n' =>
      fits_uint64 (F64.mul (F64.of_Z x) g)
      && no_overflow g (MultipleGenerator.scale g x) n'
  end.

(** A mantissa of 53 digits, or [2^53], at exponent [e], as a float:
    [+Inf] or [-Inf] when the exponent is above the largest one. *)
Definition F64_norm_inf (sx : bool) (m e : Z) : spec_float :=
  if m <? 2 ^ 53 then
    if e <=? 971 then S754_finite sx (Z.to_pos m) e else S754_infinity sx
  else
    if e + 1 <=? 971 then S754_finite sx (Z.to_pos (2 ^ 52)) (e + 1)
    else S754_infinity sx.

(** Whether the generator moves forward from the start [x] on. *)
Definition moves_on (g : spec_float) (x : Z) : Prop :=
  advances g x = true \/ 2 ^ 52 <= x.

(** A positive finite [float64] value. *)
Definition positive_finite (f : spec_float) : bool :=
  match f with
  | S754_finite false _ _ => F64_valid f
  | _ => false
  end.

(** [math.Pow(g, k)] and [math.Pow(g, k+1)], for [k] below [n], are
    positive [float64] values in the range of [uint64], the second not
    below the first. *)
Definition pow_grows `{Platform} (g : spec_float) (n : nat) : bool :=
  forallb (fun k =>
             let a := math_Pow g (F64.of_Z (Z.of_nat k)) in
             let b := math_Pow g (F64.of_Z (Z.of_nat k + 1)) in
             positive_finite a && positive_finite b
             && fits_uint64 a && fits_uint64 b && SFleb a b)
          (seq 0 n).

(** [R] holds from each boundary to the next, over the [n] boundaries
    the multiple generator computes from [x] on. *)
Fixpoint each_step `{Platform} (R : Z -> Z -> bool) (g : spec_float)
    (x : Z) (n : nat) : bool :=
  match n with
  | O => true
  | S n' =>
      R x (MultipleGenerator.scale g x)
      && each_step R g (MultipleGenerator.scale g x) n'
  end.

(** [R] holds from [uint64(math.Pow(g, k))] to [uint64(math.Pow(g, k+1))]
    for every [k] below [n]. *)
Definition each_power `{Platform} (R : Z -> Z -> bool) (g : spec_float)
    (n : nat) : bool :=
  forallb (fun k => R (ExponentialGenerator.boundary g (Z.of_nat k))
                      (ExponentialGenerator.boundary g (Z.of_nat k + 1)))
          (seq 0 n).

(** The growth factors [1.5] and [10.0] of [TestNewHistogram]. *)
Definition one_and_a_half : spec_float := F64.div (F64.of_Z 3) (F64.of_Z 2).

Definition ten : spec_float := F64.of_Z 10.

(** * Proofs *)

(** ** Wrap-around arithmetic *)

Lemma modulus_pos : 0 < modulus.
Proof. reflexivity. Qed.

Lemma MaxUint64_eq : MaxUint64 = modulus - 1.
Proof. reflexivity. Qed.

Lemma wrap_range z : in_range (wrap z).
Proof. apply Z.mod_pos_bound, modulus_pos. Qed.

Lemma wrap_small z : in_range z -> wrap z = z.
Proof. intros Hz. apply Z.mod_small, Hz. Qed.

Lemma wrap_add_l a b : wrap (wrap a + b) = wrap (a + b).
Proof. unfold wrap. apply Z.add_mod_idemp_l. discriminate. Qed.

Lemma wrap_add_r a b : wrap (a + wrap b) = wrap (a + b).
Proof. unfold wrap. apply Z.add_mod_idemp_r. discriminate. Qed.

Lemma wrap_wrap a : wrap (wrap a) = wrap a.
Proof. unfold wrap. apply Z.mod_mod. discriminate. Qed.

Lemma of_int_to_int x : in_range x -> of_int (to_int x) = x.
Proof.
  intros Hx. unfold of_int, to_int. cbv zeta. rewrite (wrap_small x Hx).
  destruct (x <? 2 ^ 63).
  - apply wrap_small, Hx.
  - unfold wrap. replace (x - modulus) with (x + (-1) * modulus) by ring.
    rewrite Z.mod_add by discriminate. apply Z.mod_small, Hx.
Qed.

(** ** Total and Add *)

Lemma count_loop_spec bins acc :
  wrap (fold_left (fun count hb => wrap (count + _count hb)) bins acc)
  = wrap (acc + sumZ (map _count bins)).
Proof.
  revert acc. induction bins as [|hb bins IH]; intros acc; simpl.
  - f_equal. lia.
  - rewrite IH, wrap_add_l. f_equal. lia.
Qed.

Lemma count_loop_range bins acc :
  in_range acc ->
  in_range (fold_left (fun count hb => wrap (count + _count hb)) bins acc).
Proof.
  revert acc. induction bins as [|hb bins IH]; intros acc Hacc; simpl.
  - exact Hacc.
  - apply IH, wrap_range.
Qed.

Lemma Total_range gh : in_range (Total gh).
Proof. apply count_loop_range. unfold in_range, modulus. lia. Qed.

Lemma Total_sum gh : Total gh = wrap (sumZ (counts gh)).
Proof.
  rewrite <- (wrap_small (Total gh)) by apply Total_range.
  unfold Total. rewrite count_loop_spec. reflexivity.
Qed.

Lemma sum_after_incr bins i c :
  (i < length bins)%nat ->
  wrap (sumZ (map _count (alter (incr c) i bins)))
  = wrap (sumZ (map _count bins) + c).
Proof.
  revert i. induction bins as [|hb bins IH]; intros i Hi; simpl in Hi.
  - lia.
  - destruct i as [|i]; simpl.
    + rewrite wrap_add_l. f_equal. lia.
    + change (list_alter (incr c) i bins) with (alter (incr c) i bins).
      rewrite <- (wrap_add_r (_count hb) (sumZ (map _count (alter _ i bins)))).
      rewrite IH by lia. rewrite wrap_add_r. f_equal. lia.
Qed.

Lemma scan_end_bounds bins amount k i :
  scan_end bins amount k = Some i -> (k <= i < k + length bins)%nat.
Proof.
  revert k. induction bins as [|hb bins IH]; intros k; simpl.
  - discriminate.
  - destruct (amount <? _end hb).
    + intros [= <-]. lia.
    + intros Hs. apply IH in Hs. lia.
Qed.

Lemma findBin_lt gh amount i :
  findBin gh amount = Some i -> (i < length (_bins gh))%nat.
Proof.
  unfold findBin. destruct (_bins gh) as [|hb bins] eqn:Hb; [discriminate|].
  cbv zeta. destruct (amount =? MaxUint64).
  - intros [= <-]. simpl. lia.
  - destruct (_ !! _) as [hb'|] eqn:Hl; [|discriminate].
    apply lookup_lt_Some in Hl.
    destruct (negb _); intros [= <-]; [simpl; lia | exact Hl].
Qed.

Lemma findBin_total gh amount :
  _bins gh <> [] -> exists i, findBin gh amount = Some i.
Proof.
  intros Hne. unfold findBin.
  destruct (_bins gh) as [|hb bins] eqn:Hb; [congruence|].
  cbv zeta. destruct (amount =? MaxUint64); [eauto|].
  set (index := default _ _).
  assert (Hi : (index < length (hb :: bins))%nat).
  { subst index. destruct (scan_end _ _ _) as [i|] eqn:Hs; simpl.
    - apply scan_end_bounds in Hs. simpl in Hs. lia.
    - lia. }
  apply lookup_lt_is_Some_2 in Hi. destruct Hi as [hb' ->].
  destruct (negb _); eauto.
Qed.

Lemma Add_total gh amount count :
  _bins gh <> [] -> exists gh', Add gh amount count = Some gh'.
Proof.
  intros Hne. unfold Add.
  destruct (findBin_total gh amount Hne) as [i ->]. eauto.
Qed.

Lemma Add_length gh amount count gh' :
  Add gh amount count = Some gh' -> length (_bins gh') = length (_bins gh).
Proof.
  unfold Add. destruct (findBin gh amount); [|discriminate].
  intros [= <-]. simpl. apply length_alter.
Qed.

Lemma Add_Total gh amount count gh' :
  Add gh amount count = Some gh' -> Total gh' = wrap (Total gh + count).
Proof.
  unfold Add. destruct (findBin gh amount) as [i|] eqn:Hf; [|discriminate].
  intros [= <-]. rewrite !Total_sum. unfold counts. simpl.
  rewrite sum_after_incr by (eapply findBin_lt; eauto).
  rewrite wrap_add_l. reflexivity.
Qed.

Lemma AddMany_Total calls : forall gh,
  _bins gh <> [] ->
  exists gh', AddMany gh calls = Some gh' /\
              length (_bins gh') = length (_bins gh) /\
              Total gh' = wrap (Total gh + sumZ (map snd calls)).
Proof.
  induction calls as [|[amount count] calls IH]; intros gh Hne; simpl.
  - exists gh. repeat split. rewrite Z.add_0_r, wrap_small; auto using Total_range.
  - destruct (Add_total gh amount count Hne) as [gh1 H1]. rewrite H1.
    pose proof (Add_length _ _ _ _ H1) as Hlen.
    destruct (IH gh1) as (gh' & Hm & Hl & Ht).
    { intros Hnil. rewrite Hnil in Hlen. destruct (_bins gh); simpl in *; congruence. }
    exists gh'. split; [exact Hm|]. split; [congruence|].
    rewrite Ht, (Add_Total _ _ _ _ H1), wrap_add_l. f_equal. lia.
Qed.

(** ** Linked bin arrays and [verify] *)

Lemma final_end_snoc prev bins hb :
  final_end prev (bins ++ [hb]) = _end hb.
Proof.
  revert prev. induction bins as [|b bins IH]; intros prev; simpl; auto.
Qed.

Lemma last_final_end prev bins l :
  last bins = Some l -> final_end prev bins = _end l.
Proof.
  intros Hl. apply last_Some in Hl as [bins' ->]. apply final_end_snoc.
Qed.

Lemma linked_snoc prev bins hb :
  linked prev bins -> _start hb = final_end prev bins ->
  linked prev (bins ++ [hb]).
Proof.
  revert prev. induction bins as [|b bins IH]; intros prev; simpl.
  - intros _ ->. auto.
  - intros [Hs Hl] He. split; [exact Hs|]. apply IH; assumption.
Qed.

Lemma linked_adjacent prev bins i a b :
  linked prev bins -> bins !! i = Some a -> bins !! S i = Some b ->
  _end a = _start b.
Proof.
  revert prev i. induction bins as [|hb bins IH]; intros prev i Hl Ha Hb.
  - discriminate.
  - destruct Hl as [_ Hl]. destruct i as [|i]; simpl in *.
    + injection Ha as ->. destruct bins as [|c bins]; [discriminate|].
      simpl in Hb. injection Hb as ->. destruct Hl as [Hs _]. auto.
    + eapply IH; eauto.
Qed.

Lemma verify_from_spec prev bins :
  verify_from prev bins = true <->
  linked prev bins /\ final_end prev bins = MaxUint64.
Proof.
  revert prev. induction bins as [|hb bins IH]; intros prev; simpl.
  - rewrite Z.eqb_eq. tauto.
  - destruct (_start hb =? prev) eqn:Hs; simpl.
    + apply Z.eqb_eq in Hs. rewrite IH. tauto.
    + apply Z.eqb_neq in Hs. split; [discriminate | tauto].
Qed.

Lemma linked_contiguous_total bins :
  bins <> [] -> linked 0 bins -> final_end 0 bins = MaxUint64 ->
  contiguous_total bins.
Proof.
  intros Hne Hl He. repeat split.
  - destruct bins as [|hb bins]; [congruence|].
    exists hb. split; [reflexivity | apply Hl].
  - intros i a b. apply linked_adjacent with (prev := 0), Hl.
  - apply last_is_Some in Hne as [l Hlast]. exists l. split; [exact Hlast|].
    rewrite <- He. symmetry. apply last_final_end, Hlast.
Qed.

Lemma verify_contiguous_total gh :
  verify gh = true -> contiguous_total (_bins gh).
Proof.
  unfold verify. intros Hv. pose proof Hv as Hv'.
  apply verify_from_spec in Hv as [Hl He].
  apply linked_contiguous_total; auto.
  intros Hnil. rewrite Hnil in Hv'. discriminate.
Qed.

(** ** Filling and completing the bin array *)

Section FillSlots.

Context {G : Type}.
Variable getBin : G -> HistogramBin * G.
(** The start of the bin the generator returns next. *)
Variable next : G -> Z.
Variable Inv : G -> Prop.

Hypothesis getBin_spec : forall g, Inv g ->
  Inv (getBin g).2 /\ fresh_bin (getBin g).1 /\
  _start (getBin g).1 = next g /\ _end (getBin g).1 = next (getBin g).2.

Lemma fill_slots_length (slots : list HistogramBin) : forall g,
  length (fill_slots getBin slots g) = length slots.
Proof.
  induction slots as [|s slots IH]; intros g; simpl; [reflexivity|].
  destruct (getBin g) as [hb g']. simpl. f_equal. apply IH.
Qed.

Lemma fill_slots_spec (slots : list HistogramBin) : forall g, Inv g ->
  linked (next g) (fill_slots getBin slots g) /\
  Forall fresh_bin (fill_slots getBin slots g).
Proof.
  induction slots as [|s slots IH]; intros g Hg; simpl; [auto|].
  destruct (getBin_spec g Hg) as (Hg' & Hf & Hs & He).
  destruct (getBin g) as [hb g']. simpl in *.
  destruct (IH g' Hg') as [Hl Hall].
  rewrite He. auto.
Qed.

End FillSlots.

Lemma completeBinArray_spec bins prev :
  bins <> [] -> linked prev bins -> Forall fresh_bin bins ->
  exists bins', completeBinArray bins = Some bins' /\
                bins' <> [] /\
                linked 0 bins' /\ final_end 0 bins' = MaxUint64 /\
                Forall fresh_bin bins'.
Proof.
  intros Hne Hl Hall. destruct bins as [|first rest]; [congruence|].
  unfold completeBinArray. cbv zeta.
  set (bins1 := if 0 <? _start first then _ else _).
  assert (H1 : bins1 <> [] /\ linked 0 bins1 /\ Forall fresh_bin bins1).
  { subst bins1. destruct (0 <? _start first) eqn:H0.
    - split; [discriminate|]. split.
      + simpl. destruct Hl as [_ Hl]. auto.
      + constructor; [|exact Hall].
        apply Forall_cons in Hall as [(_ & Hs & _) _].
        repeat split; simpl; unfold in_range in *; lia.
    - split; [discriminate|]. split; [|exact Hall].
      apply Z.ltb_ge in H0.
      apply Forall_cons in Hall as [(_ & Hs & _) _].
      destruct Hl as [_ Hl]. simpl. split; [|exact Hl].
      unfold in_range in Hs. lia. }
  destruct H1 as (Hne1 & Hl1 & Hall1).
  destruct (last bins1) as [l|] eqn:Hlast.
  2:{ apply last_None in Hlast. congruence. }
  pose proof (last_final_end 0 _ _ Hlast) as Hfe.
  assert (Hl_in : fresh_bin l).
  { apply last_Some in Hlast as [bins' ->].
    apply Forall_app in Hall1 as [_ Hl']. rewrite Forall_singleton in Hl'. auto. }
  eexists. split; [reflexivity|].
  destruct (_end l <? MaxUint64) eqn:Hlt.
  - split; [intros Happ; apply app_eq_nil in Happ as [_ ?]; discriminate|].
    split; [apply linked_snoc; simpl; auto|].
    split; [apply final_end_snoc|].
    apply Forall_app. split; [exact Hall1|]. apply Forall_singleton.
    destruct Hl_in as (_ & _ & He).
    repeat split; simpl; unfold in_range, modulus, MaxUint64 in *; lia.
  - split; [exact Hne1|]. split; [exact Hl1|]. split; [|exact Hall1].
    apply Z.ltb_ge in Hlt. destruct Hl_in as (_ & _ & He).
    rewrite Hfe. unfold in_range in He. rewrite MaxUint64_eq in *. lia.
Qed.

Lemma completeBinArray_Forall (P : HistogramBin -> Prop) bins bins' :
  (forall s, 0 < s -> P (mkBin 0 0 s)) ->
  (forall e, e < MaxUint64 -> P (mkBin 0 e MaxUint64)) ->
  completeBinArray bins = Some bins' -> Forall P bins -> Forall P bins'.
Proof.
  intros Hfirst Hlast. unfold completeBinArray.
  destruct bins as [|first rest]; [discriminate|]. cbv zeta.
  set (bins1 := if 0 <? _start first then _ else _).
  intros Hc Hall.
  assert (Hall1 : Forall P bins1).
  { subst bins1. destruct (0 <? _start first) eqn:H0; [|exact Hall].
    constructor; [|exact Hall]. apply Hfirst. apply Z.ltb_lt, H0. }
  destruct (last bins1) as [l|]; [|discriminate].
  injection Hc as <-.
  destruct (_end l <? MaxUint64) eqn:Hlt; [|exact Hall1].
  apply Forall_app. split; [exact Hall1|]. apply Forall_singleton.
  apply Hlast. apply Z.ltb_lt, Hlt.
Qed.

Lemma linked_lower_bound prev bins j b :
  linked prev bins -> Forall (fun hb => _start hb <= _end hb) bins ->
  bins !! j = Some b -> prev <= _start b.
Proof.
  revert prev j. induction bins as [|hb bins IH]; intros prev j Hl Hall Hj.
  - discriminate.
  - destruct Hl as [Hs Hl]. apply Forall_cons in Hall as [Hle Hall].
    destruct j as [|j]; simpl in Hj.
    + injection Hj as <-. lia.
    + specialize (IH _ _ Hl Hall Hj). lia.
Qed.

Lemma linked_sorted prev bins :
  linked prev bins -> Forall (fun hb => _start hb <= _end hb) bins ->
  sorted_by_start bins.
Proof.
  revert prev. induction bins as [|hb bins IH]; intros prev Hl Hall i j a b Hij Ha Hb.
  - discriminate.
  - destruct Hl as [Hs Hl]. apply Forall_cons in Hall as [Hle Hall].
    destruct i as [|i]; simpl in Ha.
    + injection Ha as <-. destruct j as [|j]; simpl in Hb.
      * injection Hb as <-. lia.
      * pose proof (linked_lower_bound _ _ _ _ Hl Hall Hb). lia.
    + destruct j as [|j]; [lia|]. simpl in Hb.
      eapply (IH _ Hl Hall i j); eauto. lia.
Qed.

Lemma sorted_ordered prev bins :
  linked prev bins -> final_end prev bins = MaxUint64 ->
  Forall fresh_bin bins -> sorted_by_start bins -> ordered_ranges bins.
Proof.
  intros Hl He Hall Hs. apply Forall_lookup. intros i a Ha.
  destruct (bins !! S i) as [b|] eqn:Hb.
  - rewrite (linked_adjacent _ _ _ _ _ Hl Ha Hb).
    apply (Hs i (S i) a b); auto.
  - apply lookup_ge_None in Hb. pose proof (lookup_lt_Some _ _ _ Ha) as Hlt.
    assert (Hlast : last bins = Some a).
    { rewrite last_lookup. replace (pred (length bins)) with i by lia. exact Ha. }
    rewrite <- (last_final_end prev _ _ Hlast), He.
    rewrite Forall_lookup in Hall. destruct (Hall i a Ha) as (_ & [_ Hr] & _).
    rewrite MaxUint64_eq. lia.
Qed.

Lemma verified_sorted_iff bins :
  verify_from 0 bins = true -> Forall fresh_bin bins ->
  contiguous_total bins /\ (sorted_by_start bins <-> ordered_ranges bins).
Proof.
  intros Hv Hall.
  split; [apply (verify_contiguous_total (mkHistogram "" bins)), Hv|].
  apply verify_from_spec in Hv as [Hl He]. split.
  - apply (sorted_ordered 0); assumption.
  - apply (linked_sorted 0), Hl.
Qed.

(** ** The generators *)

Section Generators.

Context `{Platform}.

Lemma float_to_uint64_range f : in_range (float_to_uint64 f).
Proof.
  unfold float_to_uint64. destruct (F64.trunc f) as [z|]; [|apply wrap_range].
  destruct ((0 <=? z) && (z <? modulus)) eqn:Hz; [|apply wrap_range].
  apply andb_true_iff in Hz as [H0 H1].
  apply Z.leb_le in H0. apply Z.ltb_lt in H1. split; assumption.
Qed.

Lemma MultipleGenerator_getBin_spec mg :
  in_range (MultipleGenerator._start mg) ->
  in_range (MultipleGenerator._start (MultipleGenerator.getBin mg).2) /\
  fresh_bin (MultipleGenerator.getBin mg).1 /\
  _start (MultipleGenerator.getBin mg).1 = MultipleGenerator.next_start mg /\
  _end (MultipleGenerator.getBin mg).1
  = MultipleGenerator.next_start (MultipleGenerator.getBin mg).2.
Proof.
  intros Hs. unfold MultipleGenerator.getBin, MultipleGenerator.next_start.
  destruct (F64.eqb (MultipleGenerator._factor mg) F64.zero) eqn:Hz.
  - cbn. rewrite Hz.
    split; [apply wrap_range|]. split; [|split; reflexivity].
    split; [reflexivity|]. split; [exact Hs | apply wrap_range].
  - destruct (negb (MultipleGenerator._initial mg =? -1)) eqn:Hi.
    + cbn. rewrite Hz. cbn.
      split; [exact Hs|]. split; [|split; reflexivity].
      split; [reflexivity|].
      split; [apply wrap_range | apply float_to_uint64_range].
    + cbn. rewrite Hz, Hi.
      split; [apply float_to_uint64_range|]. split; [|split; reflexivity].
      split; [reflexivity|]. split; apply float_to_uint64_range.
Qed.

Lemma ExponentialGenerator_getBin_spec eg :
  True ->
  True /\
  fresh_bin (ExponentialGenerator.getBin eg).1 /\
  _start (ExponentialGenerator.getBin eg).1
  = ExponentialGenerator.next_start eg /\
  _end (ExponentialGenerator.getBin eg).1
  = ExponentialGenerator.next_start (ExponentialGenerator.getBin eg).2.
Proof.
  intros _. unfold ExponentialGenerator.getBin, ExponentialGenerator.next_start.
  cbn. split; [exact I|]. split; [|split; reflexivity].
  split; [reflexivity|]. split; apply float_to_uint64_range.
Qed.

Lemma make_bins_Some numBins :
  0 <= numBins <= makeslice_max ->
  make_bins numBins = Some (replicate (Z.to_nat numBins) (mkBin 0 0 0)).
Proof.
  intros Hn. unfold make_bins.
  destruct (numBins <? 0) eqn:Hneg; [apply Z.ltb_lt in Hneg; lia|].
  destruct (makeslice_max <? numBins) eqn:Hmax;
    [apply Z.ltb_lt in Hmax; lia | reflexivity].
Qed.

Lemma make_bins_spec numBins :
  1 <= numBins <= makeslice_max ->
  exists slots, make_bins numBins = Some slots /\
                length slots = Z.to_nat numBins /\ slots <> [].
Proof.
  intros Hn. rewrite make_bins_Some by lia.
  eexists. split; [reflexivity|]. split; [apply length_replicate|].
  intros Hnil. apply (f_equal length) in Hnil.
  rewrite length_replicate in Hnil. simpl in Hnil. lia.
Qed.

Lemma make_bins_inv numBins slots :
  make_bins numBins = Some slots ->
  0 <= numBins <= makeslice_max /\
  slots = replicate (Z.to_nat numBins) (mkBin 0 0 0).
Proof.
  unfold make_bins.
  destruct (numBins <? 0) eqn:Hneg; [discriminate|].
  destruct (makeslice_max <? numBins) eqn:Hmax; [discriminate|].
  apply Z.ltb_ge in Hneg, Hmax. intros [= <-]. split; [lia | reflexivity].
Qed.

Lemma makeslice_max_nonneg : 0 <= makeslice_max.
Proof. unfold makeslice_max. apply N2Z.is_nonneg. Qed.

(** [make] with a length of zero returns the empty slice. *)
Lemma make_bins_zero : make_bins 0 = Some [].
Proof.
  rewrite make_bins_Some; [reflexivity|].
  pose proof makeslice_max_nonneg. lia.
Qed.

Lemma nonempty_by_length {A} (l l' : list A) :
  length l = length l' -> l' <> [] -> l <> [].
Proof. intros Hlen Hne ->. destruct l'; simpl in *; congruence. Qed.

(** [NewHistogram] returns for every [numBins >= 1] that [make] accepts,
    and what it returns passes [verify]. *)
Lemma NewHistogram_spec numBins binFirst factor :
  1 <= numBins <= makeslice_max -> in_range binFirst ->
  exists gh, NewHistogram numBins binFirst factor = Some gh /\
             _bins gh <> [] /\ verify gh = true /\
             Forall fresh_bin (_bins gh).
Proof.
  intros Hn Hb. unfold NewHistogram, fillMultiples.
  destruct (make_bins_spec numBins Hn) as (slots & -> & Hlen & Hne).
  cbn [_bins].
  set (mg := MultipleGenerator.mk _ _ _).
  destruct (fill_slots_spec MultipleGenerator.getBin
              MultipleGenerator.next_start
              (fun g => in_range (MultipleGenerator._start g))
              MultipleGenerator_getBin_spec slots mg Hb) as [Hl Hall].
  destruct (completeBinArray_spec _ _
              (nonempty_by_length _ _
                 (fill_slots_length MultipleGenerator.getBin slots mg) Hne)
              Hl Hall) as (bins' & -> & Hne' & Hl' & He' & Hall').
  eexists. split; [reflexivity|]. cbn.
  split; [exact Hne'|]. split; [|exact Hall'].
  apply verify_from_spec. auto.
Qed.

Lemma NewExpHistogram_spec name numBins growthFactor :
  1 <= numBins <= makeslice_max ->
  exists gh, NewExpHistogram name numBins growthFactor = Some gh /\
             _bins gh <> [] /\ verify gh = true /\
             Forall fresh_bin (_bins gh).
Proof.
  intros Hn. unfold NewExpHistogram, fillExponential.
  destruct (make_bins_spec numBins Hn) as (slots & -> & Hlen & Hne).
  cbn [_bins].
  set (eg := ExponentialGenerator.mk _ _).
  destruct (fill_slots_spec ExponentialGenerator.getBin
              ExponentialGenerator.next_start (fun _ => True)
              ExponentialGenerator_getBin_spec slots eg I) as [Hl Hall].
  destruct (completeBinArray_spec _ _
              (nonempty_by_length _ _
                 (fill_slots_length ExponentialGenerator.getBin slots eg) Hne)
              Hl Hall) as (bins' & -> & Hne' & Hl' & He' & Hall').
  eexists. split; [reflexivity|]. cbn.
  split; [exact Hne'|]. split; [|exact Hall'].
  apply verify_from_spec. auto.
Qed.

Lemma Cb_fill_completeBinArray h eg :
  Cb.fill h eg
  = option_map (Cb.mkCbHistogram (Cb._name h))
      (completeBinArray
         (fill_slots ExponentialGenerator.getBin (Cb._bins h) eg)).
Proof.
  unfold Cb.fill, completeBinArray. cbv zeta.
  destruct (fill_slots _ _ _) as [|first rest]; [reflexivity|].
  destruct (last _); reflexivity.
Qed.

Lemma NewCbHistogram_spec name n :
  1 <= n <= makeslice_max ->
  exists h, Cb.NewCbHistogram name n = Some h /\
            Cb._bins h <> [] /\ Cb.verify h = true /\
            Forall fresh_bin (Cb._bins h).
Proof.
  intros Hn. unfold Cb.NewCbHistogram.
  destruct (make_bins_spec n Hn) as (slots & -> & Hlen & Hne).
  rewrite Cb_fill_completeBinArray. cbn [Cb._bins Cb._name].
  set (eg := ExponentialGenerator.mk _ _).
  destruct (fill_slots_spec ExponentialGenerator.getBin
              ExponentialGenerator.next_start (fun _ => True)
              ExponentialGenerator_getBin_spec slots eg I) as [Hl Hall].
  destruct (completeBinArray_spec _ _
              (nonempty_by_length _ _
                 (fill_slots_length ExponentialGenerator.getBin slots eg) Hne)
              Hl Hall) as (bins' & -> & Hne' & Hl' & He' & Hall').
  eexists. split; [reflexivity|]. cbn.
  split; [exact Hne'|]. split; [|exact Hall'].
  apply verify_from_spec. auto.
Qed.

End Generators.

(** ** Exact float64 arithmetic on small integers *)

Lemma digits2_pos_size p : digits2_pos p = Pos.size p.
Proof. induction p; simpl; congruence. Qed.

Lemma iter_pos_iter {A} (f : A -> A) n : forall x,
  SpecFloat.iter_pos f n x = Pos.iter f x n.
Proof.
  induction n as [n IH|n IH|]; intros x; simpl.
  - rewrite !IH, <- Pos.iter_swap. f_equal.
    rewrite <- Pos.iter_swap. reflexivity.
  - rewrite !IH. reflexivity.
  - reflexivity.
Qed.

(** Shifting a mantissa left by [k] bits adds [k] digits and multiplies
    by [2^k]; shifting right again loses nothing. *)
Lemma digits2_pos_shift m k :
  digits2_pos (Pos.iter xO m k) = (digits2_pos m + k)%positive.
Proof.
  induction k as [|k IH] using Pos.peano_ind.
  - simpl. lia.
  - rewrite Pos.iter_succ. simpl. rewrite IH. lia.
Qed.

Lemma Zpos_shift m k : Z.pos (Pos.iter xO m k) = Z.pos m * 2 ^ Z.pos k.
Proof.
  induction k as [|k IH] using Pos.peano_ind.
  - simpl. lia.
  - rewrite Pos.iter_succ, Pos2Z.inj_xO, IH, Pos2Z.inj_succ.
    rewrite Z.pow_succ_r by lia. ring.
Qed.

Lemma shr_exact_shift m k :
  SpecFloat.iter_pos shr_1 k
    (Build_shr_record (Z.pos (Pos.iter xO m k)) false false)
  = Build_shr_record (Z.pos m) false false.
Proof.
  rewrite iter_pos_iter. revert m.
  induction k as [|k IH] using Pos.peano_ind; intros m.
  - reflexivity.
  - rewrite Pos.iter_succ_r. rewrite Pos.iter_succ. simpl. apply IH.
Qed.

(** A 53-digit mantissa with an exponent in the normal range is left as
    it is by rounding. *)
Lemma fexp_64 e : -1021 <= e -> fexp F64.prec F64.emax e = e - 53.
Proof. intros He. unfold fexp, emin, F64.prec, F64.emax. lia. Qed.

Lemma shr_fexp_normal (m : positive) e l :
  digits2_pos m = 53%positive -> -1074 <= e ->
  shr_fexp F64.prec F64.emax (Z.pos m) e l = (shr_record_of_loc (Z.pos m) l, e).
Proof.
  intros Hd He. unfold shr_fexp. simpl Zdigits2. rewrite Hd.
  rewrite fexp_64 by lia.
  replace (53 + e - 53 - e) with 0 by lia. reflexivity.
Qed.

Lemma binary_round_aux_normal sx (m : positive) e :
  digits2_pos m = 53%positive -> -1074 <= e <= 971 ->
  binary_round_aux F64.prec F64.emax sx (Z.pos m) e loc_Exact
  = S754_finite sx m e.
Proof.
  intros Hd He. unfold binary_round_aux.
  rewrite shr_fexp_normal by (auto; lia). simpl.
  rewrite shr_fexp_normal by (auto; lia). simpl.
  destruct (e <=? F64.emax - F64.prec) eqn:Hle; [reflexivity|].
  apply Z.leb_gt in Hle. unfold F64.emax, F64.prec in Hle. lia.
Qed.

(** [float64(x)] is exact below 2^52: the mantissa is [x] shifted to 53
    digits. *)
Lemma of_Z_small (x : positive) :
  (digits2_pos x < 53)%positive ->
  F64.of_Z (Z.pos x)
  = S754_finite false (Pos.iter xO x (53 - digits2_pos x))
      (Z.pos (digits2_pos x) - 53).
Proof.
  intros Hd. unfold F64.of_Z, binary_normalize, binary_round, shl_align.
  rewrite fexp_64 by lia.
  replace (Z.pos (digits2_pos x) + 0 - 53 - 0)
    with (Z.neg (53 - digits2_pos x)) by lia.
  apply binary_round_aux_normal.
  - rewrite digits2_pos_shift. lia.
  - lia.
Qed.

Lemma two_repr :
  F64.two = S754_finite false (Pos.iter xO 1%positive 52) (-51).
Proof. reflexivity. Qed.

Lemma mul_pow2 m k :
  (m * Pos.iter xO 1%positive k)%positive = Pos.iter xO m k.
Proof.
  apply Pos2Z.inj. rewrite Pos2Z.inj_mul, !Zpos_shift. ring.
Qed.

(** Multiplying a normal float by 2.0 adds one to its exponent. *)
Lemma mul_two_normal (m : positive) e :
  digits2_pos m = 53%positive -> -1000 <= e <= 900 ->
  F64.mul (S754_finite false m e) F64.two = S754_finite false m (e + 1).
Proof.
  intros Hd He. rewrite two_repr. unfold F64.mul, SFmul. rewrite mul_pow2.
  unfold binary_round_aux at 1.
  unfold shr_fexp at 1.
  change (Zdigits2 (Z.pos (Pos.iter xO m 52)))
    with (Z.pos (digits2_pos (Pos.iter xO m 52))).
  rewrite digits2_pos_shift, Hd.
  rewrite fexp_64 by lia.
  replace (Z.pos (53 + 52) + (e + -51) - 53 - (e + -51)) with (Z.pos 52) by lia.
  unfold shr.
  change (shr_record_of_loc (Z.pos (Pos.iter xO m 52)) loc_Exact)
    with (Build_shr_record (Z.pos (Pos.iter xO m 52)) false false).
  rewrite shr_exact_shift. cbv beta iota.
  change (round_nearest_even _ _) with (Z.pos m).
  rewrite shr_fexp_normal by (auto; lia). cbv beta iota.
  change (shr_m (shr_record_of_loc (Z.pos m) loc_Exact)) with (Z.pos m).
  cbv beta iota. change (xorb false false) with false.
  replace (e + -51 + 52) with (e + 1) by lia.
  destruct (e + 1 <=? F64.emax - F64.prec) eqn:Hle; [reflexivity|].
  apply Z.leb_gt in Hle. unfold F64.emax, F64.prec in Hle. lia.
Qed.

Lemma digits2_pos_bound (x : positive) n :
  Z.pos x < 2 ^ n -> 0 <= n -> Z.pos (digits2_pos x) <= n.
Proof.
  intros Hx Hn. rewrite digits2_pos_size.
  destruct (Z_le_gt_dec (Z.pos (Pos.size x)) n) as [Hle|Hgt]; [exact Hle|].
  exfalso. pose proof (Pos.size_le x) as Hs.
  assert (H2 : 2 ^ Z.pos (Pos.size x) <= 2 * Z.pos x).
  { rewrite <- Pos2Z.inj_pow. change (2 * Z.pos x) with (Z.pos x~0).
    apply Pos2Z.pos_le_pos. exact Hs. }
  assert (H3 : 2 ^ (n + 1) <= 2 ^ Z.pos (Pos.size x))
    by (apply Z.pow_le_mono_r; lia).
  rewrite Z.pow_add_r in H3 by lia. lia.
Qed.

(** [uint64(float64(x) * 2.0)] is [2 * x] for [0 < x < 2^52]. *)
Lemma scale_two_exact `{Platform} x :
  0 < x < 2 ^ 52 -> MultipleGenerator.scale F64.two x = 2 * x.
Proof.
  intros [H0 Hx]. destruct x as [|x|x]; try lia.
  pose proof (digits2_pos_bound x 52 Hx ltac:(lia)) as Hd.
  unfold MultipleGenerator.scale.
  rewrite of_Z_small by lia.
  rewrite mul_two_normal by (try (rewrite digits2_pos_shift); lia).
  unfold float_to_uint64, F64.trunc.
  set (d := digits2_pos x) in *.
  assert (Hv : (if 0 <=? Z.pos d - 53 + 1
                then Z.pos (Pos.iter xO x (53 - d)) * 2 ^ (Z.pos d - 53 + 1)
                else Z.pos (Pos.iter xO x (53 - d)) / 2 ^ (- (Z.pos d - 53 + 1)))
               = 2 * Z.pos x).
  { rewrite Zpos_shift. destruct (0 <=? Z.pos d - 53 + 1) eqn:Hs.
    - apply Z.leb_le in Hs. assert (Hd52 : Z.pos d = 52) by lia.
      replace (Z.pos (53 - d)) with 1 by lia.
      replace (Z.pos d - 53 + 1) with 0 by lia. lia.
    - apply Z.leb_gt in Hs.
      replace (Z.pos (53 - d)) with (1 + (52 - Z.pos d)) by lia.
      replace (- (Z.pos d - 53 + 1)) with (52 - Z.pos d) by lia.
      rewrite Z.pow_add_r by lia.
      replace (Z.pos x * (2 ^ 1 * 2 ^ (52 - Z.pos d)))
        with (2 * Z.pos x * 2 ^ (52 - Z.pos d)) by ring.
      apply Z.div_mul. apply Z.pow_nonzero; lia. }
  rewrite Hv.
  destruct ((0 <=? 2 * Z.pos x) && (2 * Z.pos x <? modulus)) eqn:Hr;
    [reflexivity|].
  apply andb_false_iff in Hr as [Hr|Hr].
  - apply Z.leb_gt in Hr. lia.
  - apply Z.ltb_ge in Hr. unfold modulus in Hr. lia.
Qed.

(** ** What a constructor returns *)

Section Constructed.

Context `{Platform}.

Lemma fill_slots_counts {G} (getBin : G -> HistogramBin * G) slots :
  (forall g, _count (getBin g).1 = 0) ->
  forall g, Forall (fun hb => _count hb = 0) (fill_slots getBin slots g).
Proof.
  intros Hc. induction slots as [|s slots IH]; intros g; simpl.
  - constructor.
  - specialize (Hc g). destruct (getBin g) as [hb g']. simpl in *.
    constructor; auto.
Qed.

Lemma completeBinArray_nonempty bins bins' :
  completeBinArray bins = Some bins' -> bins' <> [].
Proof.
  unfold completeBinArray. destruct bins as [|first rest]; [discriminate|].
  cbv zeta. set (bins1 := if 0 <? _start first then _ else _).
  assert (Hne : bins1 <> []) by (subst bins1; destruct (0 <? _); discriminate).
  destruct (last bins1); [|discriminate]. intros [= <-].
  destruct (_ <? MaxUint64); [|exact Hne].
  intros Happ. apply app_eq_nil in Happ as [_ ?]. discriminate.
Qed.

Lemma constructed_fresh gh :
  constructed gh ->
  _bins gh <> [] /\ Forall (fun hb => _count hb = 0) (_bins gh).
Proof.
  intros [(numBins & binFirst & factor & Hc) | (name & numBins & factor & Hc)].
  - unfold NewHistogram, fillMultiples in Hc.
    destruct (make_bins numBins) as [slots|]; [|discriminate].
    destruct (completeBinArray _) as [bins'|] eqn:Hcb; [|discriminate].
    injection Hc as <-. cbn [_bins with_bins]. split.
    + eapply completeBinArray_nonempty, Hcb.
    + apply (completeBinArray_Forall _ _ _) with (3 := Hcb); [reflexivity..|].
      apply fill_slots_counts. intros g. unfold MultipleGenerator.getBin.
      destruct (F64.eqb _ _); [reflexivity|]. destruct (negb _); reflexivity.
  - unfold NewExpHistogram, fillExponential in Hc.
    destruct (make_bins numBins) as [slots|]; [|discriminate].
    destruct (completeBinArray _) as [bins'|] eqn:Hcb; [|discriminate].
    injection Hc as <-. cbn [_bins with_bins]. split.
    + eapply completeBinArray_nonempty, Hcb.
    + apply (completeBinArray_Forall _ _ _) with (3 := Hcb); [reflexivity..|].
      apply fill_slots_counts. intros g. reflexivity.
Qed.

Lemma sumZ_zero (l : list Z) : Forall (fun c => c = 0) l -> sumZ l = 0.
Proof. induction 1 as [|c l -> _ IH]; simpl; [reflexivity | exact IH]. Qed.

Lemma Total_zero gh :
  Forall (fun hb => _count hb = 0) (_bins gh) -> Total gh = 0.
Proof.
  intros Hz. rewrite Total_sum. unfold counts.
  rewrite sumZ_zero; [reflexivity|]. apply Forall_map. exact Hz.
Qed.

End Constructed.

(** * The claims *)

(** ** accepts *)

(** C5, as stated, fails: the first bin of [NewHistogram(5, 10, 2.0)],
    [0 - 10], accepts [MaxUint64] although its end is not the sentinel. *)
Lemma accepts_MaxUint64_in_bounded_bin :
  accepts (mkBin 0 0 10) MaxUint64 = true /\
  Cb.accepts (mkBin 0 0 10) MaxUint64 = true /\
  ~ accepts_by_end (mkBin 0 0 10) MaxUint64.
Proof.
  split; [reflexivity|]. split; [reflexivity|].
  unfold accepts_by_end, MaxUint64. simpl. lia.
Qed.

(** C5, amended: for every bin and every value, [accepts(value)] is true
    exactly when [value >= start] and either [value < end] or the value
    (not the bin's end) is [MaxUint64]; in both engines. *)
Theorem accepts_iff (hb : HistogramBin) (value : Z) :
  (accepts hb value = true <->
   _start hb <= value /\ (value < _end hb \/ value = MaxUint64)) /\
  (Cb.accepts hb value = true <->
   _start hb <= value /\ (value < _end hb \/ value = MaxUint64)).
Proof.
  unfold accepts, Cb.accepts.
  rewrite andb_true_iff, orb_true_iff, Z.leb_le, Z.ltb_lt, Z.eqb_eq.
  tauto.
Qed.

(** ** Add and Total *)

(** C3, as stated, fails: on a fresh [NewHistogram(5, 10, 2.0)],
    [Add(0, MaxUint64)] then [Add(0, 1)] leave [Total()] at 0, while the
    count arguments sum to 2^64. *)
Lemma Total_plain_sum_overflow :
  exists gh gh',
    @NewHistogram sample_platform 5 10 F64.two = Some gh /\
    AddMany gh [(0, MaxUint64); (0, 1)] = Some gh' /\
    Total gh' = 0 /\
    Total gh' <> sumZ (map snd [(0, MaxUint64); (0, 1)]).
Proof.
  eexists. eexists. split; [vm_compute; reflexivity|].
  split; [vm_compute; reflexivity|]. split; [reflexivity|]. discriminate.
Qed.

(** C3, amended: for every histogram a constructor returned and every
    finite sequence of [Add] calls, no call panics and [Total()]
    afterwards is the sum of the count arguments modulo 2^64; and every
    [Add(value, count)] that does not panic takes [Total()] to
    [(Total() + count) mod 2^64]. *)
Theorem Total_after_Adds_mod `{Platform} (gh : Histogram)
    (calls : list (Z * Z)) :
  constructed gh ->
  (exists gh', AddMany gh calls = Some gh' /\
               Total gh' = sumZ (map snd calls) mod 2 ^ 64) /\
  (forall h amount count h',
     Add h amount count = Some h' ->
     Total h' = (Total h + count) mod 2 ^ 64).
Proof.
  intros Hc. apply constructed_fresh in Hc as [Hne Hz]. split.
  - destruct (AddMany_Total calls gh Hne) as (gh' & Hm & _ & Ht).
    exists gh'. split; [exact Hm|].
    rewrite Ht, (Total_zero gh Hz). reflexivity.
  - intros h amount count h'. apply Add_Total.
Qed.

Lemma Total_after_Adds_mod_witness :
  (exists gh', AddMany
                 (mkHistogram "Histogram"
                    [mkBin 0 0 10; mkBin 0 10 20; mkBin 0 20 MaxUint64])
                 [(5, 2); (15, 3); (MaxUint64, 1)] = Some gh' /\
               Total gh' = sumZ (map snd [(5, 2); (15, 3); (MaxUint64, 1)])
                           mod 2 ^ 64) /\
  (forall h amount count h',
     Add h amount count = Some h' ->
     Total h' = (Total h + count) mod 2 ^ 64).
Proof.
  apply (Total_after_Adds_mod (H := sample_platform)).
  left. exists 1, 10, F64.zero. vm_compute. reflexivity.
Defined.

(** C9: bin counters are [uint64] values that wrap modulo 2^64.  On every
    histogram with at least one bin, a sequence of [Add] calls whose count
    arguments sum to 2^64 or more runs without a panic and takes
    [Total()] to [(Total() + sum) mod 2^64]; on a histogram whose counts
    were all zero, [Total()] afterwards is the sum modulo 2^64 (so below
    the sum: nothing saturates). *)
Theorem counters_wrap (gh : Histogram) (calls : list (Z * Z)) :
  _bins gh <> [] ->
  2 ^ 64 <= sumZ (map snd calls) ->
  exists gh', AddMany gh calls = Some gh' /\
              Total gh' = (Total gh + sumZ (map snd calls)) mod 2 ^ 64 /\
              (Forall (fun hb => _count hb = 0) (_bins gh) ->
               Total gh' = sumZ (map snd calls) mod 2 ^ 64 /\
               Total gh' < sumZ (map snd calls)).
Proof.
  intros Hne Hsum.
  destruct (AddMany_Total calls gh Hne) as (gh' & Hm & _ & Ht).
  exists gh'. split; [exact Hm|]. split; [exact Ht|].
  intros Hz. rewrite (Total_zero gh Hz) in Ht. simpl in Ht.
  split; [exact Ht|].
  pose proof (Total_range gh') as [_ Hlt]. unfold modulus in Hlt. lia.
Qed.

Lemma counters_wrap_witness :
  exists gh', AddMany
                (mkHistogram "Histogram"
                   [mkBin 0 0 10; mkBin 0 10 20; mkBin 0 20 MaxUint64])
                [(5, MaxUint64); (15, 3)] = Some gh' /\
              Total gh'
              = (Total (mkHistogram "Histogram"
                          [mkBin 0 0 10; mkBin 0 10 20; mkBin 0 20 MaxUint64])
                 + sumZ (map snd [(5, MaxUint64); (15, 3)])) mod 2 ^ 64 /\
              (Forall (fun hb => _count hb = 0)
                      (_bins (mkHistogram "Histogram"
                                [mkBin 0 0 10; mkBin 0 10 20;
                                 mkBin 0 20 MaxUint64])) ->
               Total gh' = sumZ (map snd [(5, MaxUint64); (15, 3)]) mod 2 ^ 64 /\
               Total gh' < sumZ (map snd [(5, MaxUint64); (15, 3)])).
Proof.
  apply counters_wrap.
  - discriminate.
  - vm_compute. discriminate.
Defined.

(** ** Construction *)

(** C4, as stated, fails: [NewHistogram(1, 1<<63, 0.0)] returns the bins
    [0 - 2^63], [2^63 - 0], [0 - inf], whose starts are not ascending. *)
Lemma wrapped_bins_not_sorted :
  @NewHistogram sample_platform 1 (2 ^ 63) F64.zero = Some wrapped_histogram /\
  ~ sorted_by_start (_bins wrapped_histogram).
Proof.
  split; [vm_compute; reflexivity|].
  intros Hs.
  specialize (Hs 1%nat 2%nat (mkBin 0 (2 ^ 63) 0) (mkBin 0 0 MaxUint64)).
  simpl in Hs. specialize (Hs ltac:(lia) eq_refl eq_refl). lia.
Qed.

(** C7, as stated, fails: [NewHistogram(1, 0, 0.0)] returns the bins
    [0 - 0], [0 - inf]; the first one is not the last and is empty.  So are
    the bins [1 - 1] of [NewHistogram(3, 1, 1.5)], where the conversion to
    [uint64] truncates 1.5 to 1, and the bin [2^63 - 0] of
    [NewHistogram(1, 1<<63, 0.0)], where the end wraps around. *)
Lemma zero_width_bin :
  (@NewHistogram sample_platform 1 0 F64.zero = Some zero_width_histogram /\
   ~ nonempty_ranges (_bins zero_width_histogram)) /\
  (@NewHistogram sample_platform 3 1 (F64.div (F64.of_Z 3) (F64.of_Z 2))
   = Some truncated_histogram /\
   F64.leb (F64.div (F64.of_Z 3) (F64.of_Z 2)) F64.one = false /\
   ~ nonempty_ranges (_bins truncated_histogram)) /\
  (@NewHistogram sample_platform 1 (2 ^ 63) F64.zero = Some wrapped_histogram /\
   ~ nonempty_ranges (_bins wrapped_histogram)).
Proof.
  split; [|split].
  - split; [vm_compute; reflexivity|].
    intros Hn. specialize (Hn 0%nat (mkBin 0 0 0) eq_refl).
    simpl in Hn. lia.
  - split; [vm_compute; reflexivity|]. split; [reflexivity|].
    intros Hn. specialize (Hn 1%nat (mkBin 0 1 1) eq_refl).
    simpl in Hn. lia.
  - split; [vm_compute; reflexivity|].
    intros Hn. specialize (Hn 1%nat (mkBin 0 (2 ^ 63) 0) eq_refl).
    simpl in Hn. lia.
Qed.

(** ** AddAll *)

Lemma AddAll_length_mismatch gh src :
  length (_bins gh) <> length (_bins src) -> AddAll gh src = (gh, src).
Proof.
  intros Hne. unfold AddAll.
  destruct (length (_bins gh) =? length (_bins src))%nat eqn:He;
    [|reflexivity].
  apply Nat.eqb_eq in He. contradiction.
Qed.

Lemma AddAll_bins_dst gh src :
  length (_bins gh) = length (_bins src) ->
  _bins (AddAll gh src).1 = zip_with merge_bin (_bins gh) (_bins src).
Proof.
  intros He. unfold AddAll. apply Nat.eqb_eq in He. rewrite He. reflexivity.
Qed.

Lemma go_copy_same_length {A} (dst src : list A) :
  length dst = length src -> go_copy dst src = src.
Proof.
  intros He. unfold go_copy. rewrite He, Nat.min_id.
  rewrite firstn_all, <- He, drop_all. apply app_nil_r.
Qed.

Lemma AddAll_bins_src gh src :
  length (_bins gh) = length (_bins src) ->
  _bins (AddAll gh src).2 = _bins (AddAll gh src).1.
Proof.
  intros He. unfold AddAll. pose proof He as Hb.
  apply Nat.eqb_eq in Hb. rewrite Hb. cbn.
  apply go_copy_same_length. rewrite length_zip_with. lia.
Qed.

Lemma merge_bin_boundaries g s :
  (_start (merge_bin g s), _end (merge_bin g s)) = (_start g, _end g).
Proof. unfold merge_bin. destruct (_ && _); reflexivity. Qed.

Lemma zip_merge_boundaries l : forall k,
  (length l <= length k)%nat ->
  map (fun hb => (_start hb, _end hb)) (zip_with merge_bin l k)
  = map (fun hb => (_start hb, _end hb)) l.
Proof.
  induction l as [|g l IH]; intros [|s k] Hlen; simpl in *;
    try reflexivity; try lia.
  rewrite merge_bin_boundaries. f_equal. apply IH. lia.
Qed.

Lemma AddAll_boundaries_dst gh src :
  boundaries (AddAll gh src).1 = boundaries gh.
Proof.
  destruct (decide (length (_bins gh) = length (_bins src))) as [He|Hne].
  - unfold boundaries. rewrite AddAll_bins_dst by exact He.
    apply zip_merge_boundaries. lia.
  - rewrite AddAll_length_mismatch by exact Hne. reflexivity.
Qed.

Lemma AddAll_lookup_dst gh src i g s :
  length (_bins gh) = length (_bins src) ->
  _bins gh !! i = Some g -> _bins src !! i = Some s ->
  _bins (AddAll gh src).1 !! i = Some (merge_bin g s).
Proof.
  intros He Hg Hs. rewrite AddAll_bins_dst by exact He.
  rewrite lookup_zip_with, Hg. simpl. rewrite Hs. reflexivity.
Qed.

(** On histograms with the same boundaries, [AddAll] adds the counts bin
    by bin, and leaves the same bins in the source as in the destination. *)
Lemma AddAll_same_boundaries gh src :
  boundaries gh = boundaries src ->
  counts (AddAll gh src).1
  = zip_with (fun a b => wrap (a + b)) (counts gh) (counts src) /\
  _bins (AddAll gh src).2 = _bins (AddAll gh src).1.
Proof.
  intros Hb.
  assert (He : length (_bins gh) = length (_bins src)).
  { apply (f_equal length) in Hb. unfold boundaries in Hb.
    rewrite !length_map in Hb. exact Hb. }
  split; [|apply AddAll_bins_src, He].
  unfold counts. rewrite AddAll_bins_dst by exact He.
  unfold boundaries in Hb. clear He.
  revert Hb. generalize (_bins src). induction (_bins gh) as [|g l IH];
    intros [|s k] Hb; simpl in *; try reflexivity; try discriminate.
  injection Hb as Hs He Hrest. unfold merge_bin at 1.
  rewrite Hs, He, !Z.eqb_refl. simpl. f_equal. apply IH, Hrest.
Qed.

(** C1 does not hold of the code: the last statement of [AddAll],
    [copy(src._bins, gh._bins)], overwrites the bins of [src] with the
    merged ones.  In [TestAddAll], the second [gh2.AddAll(gh)] leaves
    [gh], its source, with the counts [0 4 6 0 0 0 2] in place of
    [0 2 3 0 0 0 1]. *)
Theorem AddAll_overwrites_src :
  boundaries TestAddAll_gh2 = boundaries TestAddAll_gh /\
  counts TestAddAll_gh = [0; 2; 3; 0; 0; 0; 1] /\
  counts (AddAll TestAddAll_gh2 TestAddAll_gh).2 = [0; 4; 6; 0; 0; 0; 2] /\
  counts (AddAll TestAddAll_gh2 TestAddAll_gh).1 = [0; 4; 6; 0; 0; 0; 2].
Proof. repeat split; reflexivity. Qed.

(** C2, as stated, fails: [constant_2_1] and [doubling_2_1] have as many
    bins but differ in the last two; [AddAll] still adds the counts of
    the first two, whose boundaries agree. *)
Lemma AddAll_mismatch_partial :
  boundaries constant_2_1 <> boundaries doubling_2_1 /\
  counts constant_2_1 = [1; 0; 0; 0] /\
  counts (AddAll constant_2_1 doubling_2_1).1 = [6; 0; 0; 0] /\
  ~ AddAll_leaves_counts constant_2_1 doubling_2_1.
Proof.
  split; [discriminate|]. split; [reflexivity|]. split; [reflexivity|].
  intros [Hd _]. discriminate Hd.
Qed.

(** C2, amended: when [dst.AddAll(src)] is called on histograms whose
    boundaries differ, a different number of bins makes the call a no-op
    on both; with the same number of bins, the boundaries of [dst] stay
    as they are, every bin of [dst] whose start/end pair differs from
    that of [src]'s bin at the same index is left unchanged, and every
    bin whose pair agrees has [src]'s count added modulo 2^64. *)
Theorem AddAll_on_mismatch (gh src : Histogram) :
  boundaries gh <> boundaries src ->
  (length (_bins gh) <> length (_bins src) -> AddAll gh src = (gh, src)) /\
  boundaries (AddAll gh src).1 = boundaries gh /\
  (forall i g s,
     length (_bins gh) = length (_bins src) ->
     _bins gh !! i = Some g -> _bins src !! i = Some s ->
     ((_start g, _end g) <> (_start s, _end s) ->
      _bins (AddAll gh src).1 !! i = Some g) /\
     ((_start g, _end g) = (_start s, _end s) ->
      _bins (AddAll gh src).1 !! i
      = Some (mkBin ((_count g + _count s) mod 2 ^ 64) (_start g) (_end g)))).
Proof.
  intros _. split; [apply AddAll_length_mismatch|].
  split; [apply AddAll_boundaries_dst|].
  intros i g s He Hg Hs.
  rewrite (AddAll_lookup_dst gh src i g s He Hg Hs). unfold merge_bin.
  split; intros Hp.
  - destruct (_start g =? _start s) eqn:H1; [|reflexivity].
    destruct (_end g =? _end s) eqn:H2; [|reflexivity].
    apply Z.eqb_eq in H1, H2. exfalso. apply Hp. congruence.
  - injection Hp as H1 H2. apply Z.eqb_eq in H1, H2.
    rewrite H1, H2. reflexivity.
Qed.

Lemma AddAll_on_mismatch_witness :
  (length (_bins constant_2_1) <> length (_bins doubling_2_1) ->
   AddAll constant_2_1 doubling_2_1 = (constant_2_1, doubling_2_1)) /\
  boundaries (AddAll constant_2_1 doubling_2_1).1 = boundaries constant_2_1 /\
  (forall i g s,
     length (_bins constant_2_1) = length (_bins doubling_2_1) ->
     _bins constant_2_1 !! i = Some g -> _bins doubling_2_1 !! i = Some s ->
     ((_start g, _end g) <> (_start s, _end s) ->
      _bins (AddAll constant_2_1 doubling_2_1).1 !! i = Some g) /\
     ((_start g, _end g) = (_start s, _end s) ->
      _bins (AddAll constant_2_1 doubling_2_1).1 !! i
      = Some (mkBin ((_count g + _count s) mod 2 ^ 64) (_start g) (_end g)))).
Proof.
  apply AddAll_on_mismatch. discriminate.
Defined.

(** ** EmitGraph *)

Lemma append_empty_r (s : string) : s +:+ "" = s.
Proof.
  induction s as [|c s IH]; [reflexivity|].
  change (String c s +:+ "") with (String c (s +:+ "")). now rewrite IH.
Qed.

Lemma stats_ranges_length label bins : forall st,
  length (ranges (fold_left (stats_step label) bins st))
  = (length (ranges st) + length bins)%nat.
Proof.
  induction bins as [|hb bins IH]; intros st; simpl; [lia|].
  rewrite IH. simpl. rewrite length_app. simpl. lia.
Qed.

Lemma stats_total_zero label bins : forall st,
  totalCount st = 0 -> Forall (fun hb => _count hb = 0) bins ->
  totalCount (fold_left (stats_step label) bins st) = 0.
Proof.
  induction bins as [|hb bins IH]; intros st Ht Hz; simpl; [exact Ht|].
  apply Forall_cons in Hz as [Hc Hz]. apply IH; [|exact Hz].
  simpl. rewrite Ht, Hc. reflexivity.
Qed.

Lemma graph_lines_origin st bins gl :
  gl ∈ graph_lines st bins ->
  gl_binCount gl <> 0 /\ gl_totalCount gl = totalCount st /\
  gl_maxCount gl = maxCount st /\
  exists hb, hb ∈ bins /\ _count hb = gl_binCount gl.
Proof.
  unfold graph_lines. intros Hin.
  apply list_elem_of_omap in Hin as ([hb range] & Hz & Hgl).
  destruct (_count hb =? 0) eqn:Hc; [discriminate|].
  injection Hgl as <-. simpl. apply Z.eqb_neq in Hc.
  split; [exact Hc|]. split; [reflexivity|]. split; [reflexivity|].
  exists hb. split; [|reflexivity].
  apply elem_of_zip_l in Hz. exact Hz.
Qed.

Lemma graph_lines_all_zero st bins :
  Forall (fun hb => _count hb = 0) bins -> graph_lines st bins = [].
Proof.
  intros Hz. destruct (graph_lines st bins) as [|gl gls] eqn:Hg; [reflexivity|].
  assert (Hin : gl ∈ graph_lines st bins) by (rewrite Hg; left).
  apply graph_lines_origin in Hin as (Hne & _ & _ & hb & Hhb & Hc).
  rewrite Forall_forall in Hz. specialize (Hz hb Hhb). congruence.
Qed.

(** C10: for every histogram whose bin counts are all zero,
    [EmitGraph(prefix, nil)] returns a buffer that holds the header line
    ["<name> (0 Total)"] and nothing else; no line is written and no
    division is executed.  In general a division is executed only for a
    bin whose count is not zero. *)
Theorem EmitGraph_all_zero `{Platform} (gh : Histogram)
    (prefix : option string) :
  Forall (fun hb => _count hb = 0) (_bins gh) ->
  EmitGraph gh prefix None = Some (_name gh +:+ " (0 Total)" +:+ Fmt.nl) /\
  EmitGraph_lines gh = [] /\
  EmitGraph_divisions gh = [] /\
  (forall h n d, (n, d) ∈ EmitGraph_divisions h ->
                 n <> 0 /\ exists hb, hb ∈ _bins h /\ _count hb = n).
Proof.
  intros Hz.
  assert (Hl : EmitGraph_lines gh = [])
    by (apply graph_lines_all_zero, Hz).
  split; [|split; [exact Hl|split]].
  - unfold EmitGraph. rewrite Hl. simpl.
    unfold graph_stats. rewrite stats_total_zero; auto.
    rewrite append_empty_r. reflexivity.
  - unfold EmitGraph_divisions. rewrite Hl. reflexivity.
  - intros h n d Hin. unfold EmitGraph_divisions in Hin.
    apply list_elem_of_In, in_flat_map in Hin as (gl & Hgl & Hd).
    apply list_elem_of_In, graph_lines_origin in Hgl as (Hne & _ & _ & Hhb).
    simpl in Hd. destruct Hd as [[= <- _]|[[= <- _]|[]]]; auto.
Qed.

Lemma EmitGraph_all_zero_witness :
  @EmitGraph sample_platform
     (mkHistogram "idle" [mkBin 0 0 10; mkBin 0 10 MaxUint64])
     (Some "- ") None
  = Some ("idle" +:+ " (0 Total)" +:+ Fmt.nl) /\
  EmitGraph_lines (mkHistogram "idle" [mkBin 0 0 10; mkBin 0 10 MaxUint64])
  = [] /\
  EmitGraph_divisions (mkHistogram "idle" [mkBin 0 0 10; mkBin 0 10 MaxUint64])
  = [] /\
  (forall h n d, (n, d) ∈ EmitGraph_divisions h ->
                 n <> 0 /\ exists hb, hb ∈ _bins h /\ _count hb = n).
Proof.
  apply (EmitGraph_all_zero (H := sample_platform)
           (mkHistogram "idle" [mkBin 0 0 10; mkBin 0 10 MaxUint64])).
  repeat constructor.
Defined.

(** C6 does not hold of the code: on the histogram of [TestGraph],
    whatever the platform, [EmitGraph] writes each line as
    ["[range] count percentage% bar"]: the count right-aligned in ten
    columns before the percentage, no cumulative percentage and no count
    in parentheses.  The test expects the layout of the claim. *)
Theorem EmitGraph_TestGraph `{Platform} :
  EmitGraph TestGraph_gh (Some "- ") None = Some TestGraph_got /\
  TestGraph_got <> TestGraph_exp.
Proof.
  split; [vm_compute; reflexivity|].
  intros Heq. vm_compute in Heq. discriminate Heq.
Qed.

(** ** Histograms.AddAll *)

Section HistogramsAddAll.

Context {H : Type} `{RangedHistogram H}.

(** When the first loop stops with an error, it stops at an entry whose
    name is in the destination; all it has done before is to add clones
    under names that were absent. *)
Lemma check_all_error (visit : list (string * H)) :
  forall (hmap hmap' : gmap string H) (e : string),
  Histograms.check_all hmap visit = (hmap', Some e) ->
  exists pre k v post,
    visit = pre ++ (k, v) :: post /\
    is_Some (hmap' !! k) /\
    (forall k0 h, hmap !! k0 = Some h -> hmap' !! k0 = Some h) /\
    (forall k0 h', hmap' !! k0 = Some h' ->
       hmap !! k0 = Some h' \/
       (hmap !! k0 = None /\
        exists v0, (k0, v0) ∈ pre /\ h' = CloneEmpty v0)).
Proof.
  induction visit as [|[k v] rest IH]; intros hmap hmap' e; simpl.
  - discriminate.
  - destruct (hmap !! k) as [h|] eqn:Hk.
    + assert (Hstop : forall e', (hmap, Some e') = (hmap', Some e) ->
                exists pre k1 v1 post,
                  (k, v) :: rest = pre ++ (k1, v1) :: post /\
                  is_Some (hmap' !! k1) /\
                  (forall k0 h0, hmap !! k0 = Some h0 -> hmap' !! k0 = Some h0) /\
                  (forall k0 h', hmap' !! k0 = Some h' ->
                     hmap !! k0 = Some h' \/
                     (hmap !! k0 = None /\
                      exists v0, (k0, v0) ∈ pre /\ h' = CloneEmpty v0))).
      { intros e' [= <- _]. exists [], k, v, rest.
        split; [reflexivity|]. split; [rewrite Hk; eauto|]. auto. }
      destruct (_ || _); [apply Hstop|].
      destruct (Histograms.ranges_differ _ _); [apply Hstop|].
      intros Hc. apply IH in Hc as (pre & k1 & v1 & post & -> & Hin & Hkeep & Hnew).
      exists ((k, v) :: pre), k1, v1, post.
      split; [reflexivity|]. split; [exact Hin|]. split; [exact Hkeep|].
      intros k0 h' Hk0. destruct (Hnew k0 h' Hk0) as [?|(? & v0 & ? & ?)];
        [auto|]. right. split; [assumption|]. exists v0.
      split; [right; assumption | assumption].
    + intros Hc. apply IH in Hc as (pre & k1 & v1 & post & -> & Hin & Hkeep & Hnew).
      exists ((k, v) :: pre), k1, v1, post.
      split; [reflexivity|]. split; [exact Hin|]. split.
      * intros k0 h Hk0. apply Hkeep.
        rewrite lookup_insert_ne; [exact Hk0 | congruence].
      * intros k0 h' Hk0.
        destruct (Hnew k0 h' Hk0) as [Hins|(Hnone & v0 & Hv0 & ->)].
        -- destruct (decide (k = k0)) as [<-|Hne].
           ++ rewrite lookup_insert_eq in Hins. injection Hins as <-.
              right. split; [exact Hk|]. exists v. split; [left | reflexivity].
           ++ rewrite lookup_insert_ne in Hins by exact Hne. auto.
        -- destruct (decide (k = k0)) as [<-|Hne].
           ++ rewrite lookup_insert_eq in Hnone. discriminate.
           ++ rewrite lookup_insert_ne in Hnone by exact Hne.
              right. split; [exact Hnone|]. exists v0.
              split; [right; exact Hv0 | reflexivity].
Qed.

(** C8, amended: whenever [Histograms.AddAll] returns an error, every
    histogram that was in the destination map is still there under its
    name, unchanged, and so are the source histograms; the only new
    entries are empty clones of source histograms, under names that
    were absent and were visited before the mismatching entry. *)
Theorem AddAll_error_keeps_histograms (hmap : gmap string H)
    (visit1 visit2 : list (string * H)) (out : Histograms.Outcome) :
  Histograms.AddAll hmap visit1 visit2 = Some out ->
  is_Some (Histograms.err out) ->
  Histograms.src_after out = visit1 /\
  (forall k h, hmap !! k = Some h ->
               Histograms.dst_after out !! k = Some h) /\
  exists pre k v post,
    visit1 = pre ++ (k, v) :: post /\
    is_Some (Histograms.dst_after out !! k) /\
    (forall k0 h', Histograms.dst_after out !! k0 = Some h' ->
       hmap !! k0 = Some h' \/
       (hmap !! k0 = None /\
        exists v0, (k0, v0) ∈ pre /\ h' = CloneEmpty v0)).
Proof.
  unfold Histograms.AddAll.
  destruct (Histograms.check_all hmap visit1) as [hmap1 [e|]] eqn:Hc.
  - intros [= <-] _. simpl.
    apply check_all_error in Hc
      as (pre & k & v & post & Hv & Hk & Hkeep & Hnew).
    split; [reflexivity|]. split; [exact Hkeep|].
    exists pre, k, v, post. auto.
  - destruct (Histograms.merge_all hmap1 visit2) as [[hmap2 srcs]|];
      [|discriminate].
    intros [= <-] [e He]. discriminate He.
Qed.

End HistogramsAddAll.

(** C8, as stated, fails: with [a] visited before [b], [AddAll] inserts an
    empty clone under [a] and then returns the mismatch error for [b]. *)
Lemma AddAll_error_after_insert :
  Histograms.AddAll mismatch_dst mismatch_src mismatch_src
  = Some mismatch_out /\
  is_Some (Histograms.err mismatch_out) /\
  mismatch_dst !! "a" = None /\
  Histograms.dst_after mismatch_out !! "a"
  = Some (mkRHistogram [0; 10] [0; 0]) /\
  Histograms.dst_after mismatch_out <> mismatch_dst.
Proof.
  split; [vm_compute; reflexivity|].
  split; [eexists; reflexivity|]. split; [reflexivity|].
  split; [reflexivity|].
  intros Heq. apply (f_equal (fun m => m !! "a")) in Heq.
  vm_compute in Heq. discriminate Heq.
Qed.

Lemma AddAll_error_keeps_histograms_witness :
  Histograms.src_after mismatch_out = mismatch_src /\
  (forall k h, mismatch_dst !! k = Some h ->
               Histograms.dst_after mismatch_out !! k = Some h) /\
  exists pre k v post,
    mismatch_src = pre ++ (k, v) :: post /\
    is_Some (Histograms.dst_after mismatch_out !! k) /\
    (forall k0 h', Histograms.dst_after mismatch_out !! k0 = Some h' ->
       mismatch_dst !! k0 = Some h' \/
       (mismatch_dst !! k0 = None /\
        exists v0, (k0, v0) ∈ pre /\ h' = CloneEmpty v0)).
Proof.
  apply (AddAll_error_keeps_histograms mismatch_dst mismatch_src mismatch_src
           mismatch_out).
  - vm_compute. reflexivity.
  - eexists. reflexivity.
Defined.

(** * Further properties of the code *)

(** ** findBin and Add *)

Lemma scan_end_first bins amount : forall k i,
  scan_end bins amount k = Some i ->
  exists hb, bins !! (i - k)%nat = Some hb /\ amount < _end hb /\
             forall j hb', (j < i - k)%nat -> bins !! j = Some hb' ->
                           _end hb' <= amount.
Proof.
  induction bins as [|b bins IH]; intros k i; simpl; [discriminate|].
  destruct (amount <? _end b) eqn:Hlt.
  - intros [= <-]. rewrite Nat.sub_diag. exists b.
    split; [reflexivity|]. split; [apply Z.ltb_lt, Hlt|]. intros j hb' Hj. lia.
  - intros Hs. pose proof (scan_end_bounds _ _ _ _ Hs) as Hb.
    apply IH in Hs as (hb & Hi & Hhb & Hbefore).
    replace (i - k)%nat with (S (i - S k)) by lia.
    exists hb. split; [exact Hi|]. split; [exact Hhb|].
    intros [|j] hb' Hj Hl; simpl in Hl.
    + injection Hl as <-. apply Z.ltb_ge, Hlt.
    + apply (Hbefore j); [lia | exact Hl].
Qed.

Lemma scan_end_None bins amount k :
  scan_end bins amount k = None -> final_end amount bins <= amount.
Proof.
  revert k. induction bins as [|b bins IH]; intros k; simpl; [lia|].
  destruct (amount <? _end b) eqn:Hlt; [discriminate|].
  intros Hs. apply Z.ltb_ge in Hlt.
  destruct bins as [|b' bins]; [simpl; exact Hlt|].
  specialize (IH _ Hs). simpl in *.
  destruct (amount <? _end b'); [discriminate|]. exact IH.
Qed.

Lemma final_end_nonempty p q bins :
  bins <> [] -> final_end p bins = final_end q bins.
Proof. destruct bins; [congruence | reflexivity]. Qed.

Lemma linked_first_below prev bins amount i hb :
  linked prev bins -> prev <= amount ->
  bins !! i = Some hb ->
  (forall j hb', (j < i)%nat -> bins !! j = Some hb' -> _end hb' <= amount) ->
  _start hb <= amount.
Proof.
  revert prev i. induction bins as [|b bins IH]; intros prev i Hl Hp Hi Hbefore.
  - discriminate.
  - destruct Hl as [Hs Hl]. destruct i as [|i]; simpl in Hi.
    + injection Hi as <-. lia.
    + apply (IH (_end b) i); auto.
      * apply (Hbefore 0%nat b); [lia | reflexivity].
      * intros j hb' Hj Hl'. apply (Hbefore (S j)); [lia | exact Hl'].
Qed.

Lemma findBin_below_max gh amount :
  verify gh = true -> 0 <= amount < MaxUint64 ->
  exists i hb,
    findBin gh amount = Some i /\ _bins gh !! i = Some hb /\
    covers hb amount /\
    forall j hb', (j < i)%nat -> _bins gh !! j = Some hb' ->
                  _end hb' <= amount.
Proof.
  intros Hv Ha. unfold verify in Hv.
  apply verify_from_spec in Hv as [Hl He].
  unfold findBin. destruct (_bins gh) as [|b bins] eqn:Hb.
  { simpl in He. unfold MaxUint64 in He. discriminate He. }
  cbv zeta. destruct (amount =? MaxUint64) eqn:Hmax.
  { apply Z.eqb_eq in Hmax. lia. }
  destruct (scan_end (b :: bins) amount 0) as [i|] eqn:Hs.
  2:{ apply scan_end_None in Hs.
      rewrite (final_end_nonempty amount 0) in Hs by discriminate. lia. }
  apply scan_end_first in Hs as (hb & Hi & Hlt & Hbefore).
  rewrite Nat.sub_0_r in Hi, Hbefore. simpl default. rewrite Hi.
  assert (Hge : _start hb <= amount).
  { apply (linked_first_below 0 (b :: bins) amount i hb); auto. lia. }
  assert (Hacc : accepts hb amount = true).
  { unfold accepts. apply andb_true_iff. split; [apply Z.leb_le, Hge|].
    apply orb_true_iff. left. apply Z.ltb_lt, Hlt. }
  rewrite Hacc. simpl. exists i, hb.
  split; [reflexivity|]. split; [exact Hi|].
  split; [split; assumption | exact Hbefore].
Qed.

(** X1: in a histogram that passes [verify], [findBin] sends every value
    below [MaxUint64] to the first bin that ends above it, and that bin
    covers the value; [MaxUint64] goes to the last bin, which ends at
    [MaxUint64]. *)
Theorem findBin_covers (gh : Histogram) (amount : Z) :
  verify gh = true -> 0 <= amount <= MaxUint64 ->
  exists i hb,
    findBin gh amount = Some i /\ _bins gh !! i = Some hb /\
    (amount < MaxUint64 ->
     covers hb amount /\
     forall j hb', (j < i)%nat -> _bins gh !! j = Some hb' ->
                   _end hb' <= amount) /\
    (amount = MaxUint64 ->
     S i = length (_bins gh) /\ _end hb = MaxUint64).
Proof.
  intros Hv Ha. destruct (Z_lt_le_dec amount MaxUint64) as [Hlt|Hge].
  - destruct (findBin_below_max gh amount Hv ltac:(lia))
      as (i & hb & Hf & Hi & Hc & Hfirst).
    exists i, hb. split; [exact Hf|]. split; [exact Hi|].
    split; [auto | lia].
  - assert (amount = MaxUint64) as -> by lia.
    pose proof (verify_contiguous_total gh Hv) as (_ & _ & l & Hlast & Hlend).
    unfold findBin. destruct (_bins gh) as [|b bins] eqn:Hb.
    { discriminate Hlast. }
    cbv zeta. rewrite Z.eqb_refl.
    exists (length (b :: bins) - 1)%nat, l.
    split; [reflexivity|]. rewrite last_lookup in Hlast.
    split; [simpl in *; rewrite Nat.sub_0_r; exact Hlast|].
    split; [lia|]. intros _. split; [simpl; lia | exact Hlend].
Qed.

Lemma findBin_covers_witness :
  exists i hb,
    findBin TestGraph_gh 45 = Some i /\ _bins TestGraph_gh !! i = Some hb /\
    (45 < MaxUint64 ->
     covers hb 45 /\
     forall j hb', (j < i)%nat -> _bins TestGraph_gh !! j = Some hb' ->
                   _end hb' <= 45) /\
    (45 = MaxUint64 ->
     S i = length (_bins TestGraph_gh) /\ _end hb = MaxUint64).
Proof.
  apply findBin_covers; [reflexivity | unfold MaxUint64; lia].
Defined.

Lemma scan_end_boundaries bins bins' amount : forall k,
  map (fun hb => (_start hb, _end hb)) bins
  = map (fun hb => (_start hb, _end hb)) bins' ->
  scan_end bins amount k = scan_end bins' amount k.
Proof.
  revert bins'. induction bins as [|b bins IH]; intros [|b' bins'] k Hb;
    simpl in *; try reflexivity; try discriminate.
  injection Hb as Hs He Hrest. rewrite He.
  destruct (amount <? _end b'); [reflexivity | apply IH, Hrest].
Qed.

(** [findBin] looks at the boundaries only. *)
Lemma findBin_boundaries gh gh' amount :
  boundaries gh = boundaries gh' -> findBin gh amount = findBin gh' amount.
Proof.
  unfold boundaries, findBin. intros Hb.
  assert (Hlen : length (_bins gh) = length (_bins gh')).
  { apply (f_equal length) in Hb. rewrite !length_map in Hb. exact Hb. }
  rewrite (scan_end_boundaries _ _ amount 0 Hb), Hlen.
  destruct (_bins gh) as [|b bins] eqn:E, (_bins gh') as [|b' bins'] eqn:E';
    try discriminate; [reflexivity|].
  cbv zeta. destruct (amount =? MaxUint64); [reflexivity|].
  set (index := default _ _).
  assert (Hlook : forall i,
            (fun hb => (_start hb, _end hb)) <$> (b :: bins) !! i
            = (fun hb => (_start hb, _end hb)) <$> (b' :: bins') !! i).
  { intros i. rewrite <- !list_lookup_fmap. f_equal. exact Hb. }
  specialize (Hlook index).
  destruct ((b :: bins) !! index) as [hb|], ((b' :: bins') !! index) as [hb'|];
    simpl in Hlook; try discriminate; [|reflexivity].
  injection Hlook as Hs He. unfold accepts. rewrite Hs, He. reflexivity.
Qed.

Lemma alter_incr_boundaries c i bins :
  map (fun hb => (_start hb, _end hb)) (alter (incr c) i bins)
  = map (fun hb => (_start hb, _end hb)) bins.
Proof.
  revert i. induction bins as [|b bins IH]; intros [|i]; simpl;
    try reflexivity.
  f_equal. apply IH.
Qed.

Lemma Add_boundaries gh amount count gh' :
  Add gh amount count = Some gh' ->
  boundaries gh' = boundaries gh /\ _name gh' = _name gh.
Proof.
  unfold Add. destruct (findBin gh amount); [|discriminate].
  intros [= <-]. split; [apply alter_incr_boundaries | reflexivity].
Qed.

Lemma verify_boundaries gh gh' :
  boundaries gh = boundaries gh' -> verify gh = verify gh'.
Proof.
  unfold verify, boundaries. generalize 0.
  generalize (_bins gh'). induction (_bins gh) as [|b bins IH];
    intros [|b' bins'] prev Hb; simpl in *; try reflexivity; try discriminate.
  injection Hb as Hs He Hrest. rewrite Hs, He.
  destruct (negb _); [reflexivity | apply IH, Hrest].
Qed.

(** X2: on a histogram that passes [verify], [Add(amount, count)] with
    [amount] below [MaxUint64] returns, adds [count] modulo 2^64 to the
    one bin that covers [amount] and leaves every other bin, the name and
    the boundaries as they were; the result passes [verify] again. *)
Theorem Add_increments_covering_bin (gh : Histogram) (amount count : Z) :
  verify gh = true -> 0 <= amount < MaxUint64 ->
  exists gh' i hb,
    Add gh amount count = Some gh' /\
    _bins gh !! i = Some hb /\ covers hb amount /\
    _bins gh' !! i
    = Some (mkBin ((_count hb + count) mod 2 ^ 64) (_start hb) (_end hb)) /\
    (forall j, j <> i -> _bins gh' !! j = _bins gh !! j) /\
    _name gh' = _name gh /\ verify gh' = true.
Proof.
  intros Hv Ha.
  destruct (findBin_below_max gh amount Hv Ha)
    as (i & hb & Hf & Hi & Hcov & _).
  unfold Add. rewrite Hf. eexists _, i, hb.
  split; [reflexivity|]. split; [exact Hi|]. split; [exact Hcov|].
  cbn [_bins with_bins _name]. split.
  - rewrite list_lookup_alter_eq, Hi. reflexivity.
  - split; [|split; [reflexivity|]].
    + intros j Hj. apply list_lookup_alter_ne. congruence.
    + rewrite <- Hv. apply verify_boundaries. apply alter_incr_boundaries.
Qed.

Lemma Add_increments_covering_bin_witness :
  exists gh' i hb,
    Add TestGraph_gh 45 7 = Some gh' /\
    _bins TestGraph_gh !! i = Some hb /\ covers hb 45 /\
    _bins gh' !! i
    = Some (mkBin ((_count hb + 7) mod 2 ^ 64) (_start hb) (_end hb)) /\
    (forall j, j <> i -> _bins gh' !! j = _bins TestGraph_gh !! j) /\
    _name gh' = _name TestGraph_gh /\ verify gh' = true.
Proof.
  apply Add_increments_covering_bin; [reflexivity | unfold MaxUint64; lia].
Defined.

(** X3: when a histogram passes [verify] and no bin ends below its start,
    the bins partition the values: a value covered by one bin is covered
    by no other bin. *)
Theorem covering_bin_unique (gh : Histogram) (value : Z) (i j : nat)
    (a b : HistogramBin) :
  verify gh = true -> ordered_ranges (_bins gh) ->
  _bins gh !! i = Some a -> _bins gh !! j = Some b -> i <> j ->
  covers a value -> ~ covers b value.
Proof.
  intros Hv Hord Hi Hj Hne Ha Hb. unfold verify in Hv.
  apply verify_from_spec in Hv as [Hl _].
  pose proof (linked_sorted 0 _ Hl Hord) as Hsorted.
  assert (Hlt : forall i j a b, (i < j)%nat ->
            _bins gh !! i = Some a -> _bins gh !! j = Some b ->
            covers a value -> covers b value -> False).
  { clear i j a b Hi Hj Ha Hb Hne. intros i j a b Hij Hi Hj [_ Ha] [Hb _].
    destruct (lookup_lt_is_Some_2 (_bins gh) (S i)) as [c Hc].
    { apply lookup_lt_Some in Hj. lia. }
    pose proof (linked_adjacent _ _ _ _ _ Hl Hi Hc) as Hadj.
    pose proof (Hsorted (S i) j c b ltac:(lia) Hc Hj). lia. }
  destruct (Nat.lt_trichotomy i j) as [Hij|[Hij|Hij]]; [|contradiction|].
  - eapply (Hlt i j); eauto.
  - eapply (Hlt j i); eauto.
Qed.

Lemma covering_bin_unique_witness : ~ covers (mkBin 3 40 80) 25.
Proof.
  apply (covering_bin_unique TestGraph_gh 25 2 3
           (mkBin 10 20 40) (mkBin 3 40 80)).
  - reflexivity.
  - repeat constructor; simpl; unfold MaxUint64; lia.
  - reflexivity.
  - reflexivity.
  - lia.
  - unfold covers. simpl. lia.
Defined.

Lemma incr_incr c1 c2 hb : incr c2 (incr c1 hb) = incr (c1 + c2) hb.
Proof.
  unfold incr. simpl. f_equal. rewrite wrap_add_l. f_equal. lia.
Qed.

(** X4: two [Add] calls on the same value are one [Add] of the two counts
    together: [Add(v, c1)] followed by [Add(v, c2)] leaves the histogram
    [Add(v, c1 + c2)] leaves (and panics when it does). *)
Theorem Add_twice (gh : Histogram) (amount c1 c2 : Z) :
  Add gh amount c1 ≫= (fun gh1 => Add gh1 amount c2)
  = Add gh amount (c1 + c2).
Proof.
  destruct (Add gh amount c1) as [gh1|] eqn:H1; simpl.
  - pose proof (Add_boundaries _ _ _ _ H1) as [Hb _].
    unfold Add in *. rewrite (findBin_boundaries gh1 gh amount Hb).
    destruct (findBin gh amount) as [i|]; [|discriminate].
    injection H1 as <-. cbn [_bins with_bins]. f_equal. unfold with_bins.
    cbn [_name]. f_equal. rewrite list_alter_alter_eq.
    apply list_alter_ext; [|reflexivity]. intros hb _. apply incr_incr.
  - unfold Add in *. destruct (findBin gh amount); [discriminate|reflexivity].
Qed.

(** X5: [Add] calls commute: the histogram after [Add(v1, c1)] and
    [Add(v2, c2)] does not depend on the order of the two calls. *)
Theorem Add_commute (gh : Histogram) (v1 c1 v2 c2 : Z) :
  Add gh v1 c1 ≫= (fun gh1 => Add gh1 v2 c2)
  = Add gh v2 c2 ≫= (fun gh2 => Add gh2 v1 c1).
Proof.
  destruct (Add gh v1 c1) as [gh1|] eqn:H1,
           (Add gh v2 c2) as [gh2|] eqn:H2; simpl.
  - pose proof (Add_boundaries _ _ _ _ H1) as [Hb1 _].
    pose proof (Add_boundaries _ _ _ _ H2) as [Hb2 _].
    unfold Add in *.
    rewrite (findBin_boundaries gh1 gh v2 Hb1),
            (findBin_boundaries gh2 gh v1 Hb2).
    destruct (findBin gh v1) as [i1|]; [|discriminate].
    destruct (findBin gh v2) as [i2|]; [|discriminate].
    injection H1 as <-. injection H2 as <-. cbn [_bins with_bins].
    unfold with_bins. cbn [_name]. do 2 f_equal.
    rewrite list_alter_alter. destruct (decide (i2 = i1)) as [->|Hne].
    + rewrite list_alter_alter_eq. apply list_alter_ext; [|reflexivity].
      intros hb _. simpl. rewrite !incr_incr. f_equal. lia.
    + reflexivity.
  - exfalso. unfold Add in *.
    destruct (findBin gh v1) eqn:F1; [|discriminate].
    destruct (findBin gh v2) eqn:F2; [discriminate|].
    apply findBin_lt in F1. destruct (findBin_total gh v2) as [i2 Hi2];
      [intros Hnil; rewrite Hnil in F1; simpl in F1; lia | congruence].
  - exfalso. unfold Add in *.
    destruct (findBin gh v2) eqn:F2; [|discriminate].
    destruct (findBin gh v1) eqn:F1; [discriminate|].
    apply findBin_lt in F2. destruct (findBin_total gh v1) as [i1 Hi1];
      [intros Hnil; rewrite Hnil in F2; simpl in F2; lia | congruence].
  - reflexivity.
Qed.

(** ** Reset *)

Lemma Reset_counts bins :
  map _count (map (set 0) bins) = replicate (length bins) 0.
Proof. induction bins as [|b bins IH]; simpl; [reflexivity | now rewrite IH]. Qed.

Lemma Reset_boundaries gh : boundaries (Reset gh) = boundaries gh.
Proof.
  unfold boundaries, Reset. simpl. rewrite map_map. reflexivity.
Qed.

(** X6: [Reset] zeroes every count and nothing else: the boundaries, the
    name and the outcome of [verify] stay, [Total()] is 0, and on a
    histogram with at least one bin the [Add] calls that follow count
    from zero again ([Total()] is their sum modulo 2^64). *)
Theorem Reset_restarts (gh : Histogram) (calls : list (Z * Z)) :
  _bins gh <> [] ->
  counts (Reset gh) = replicate (length (_bins gh)) 0 /\
  boundaries (Reset gh) = boundaries gh /\
  _name (Reset gh) = _name gh /\
  verify (Reset gh) = verify gh /\
  Total (Reset gh) = 0 /\
  exists gh', AddMany (Reset gh) calls = Some gh' /\
              Total gh' = sumZ (map snd calls) mod 2 ^ 64.
Proof.
  intros Hne.
  assert (Hz : Forall (fun hb => _count hb = 0) (_bins (Reset gh))).
  { unfold Reset. simpl. apply Forall_map. apply Forall_forall. reflexivity. }
  split; [apply Reset_counts|]. split; [apply Reset_boundaries|].
  split; [reflexivity|].
  split; [apply verify_boundaries, Reset_boundaries|].
  split; [apply Total_zero, Hz|].
  destruct (AddMany_Total calls (Reset gh)) as (gh' & Hm & _ & Ht).
  { unfold Reset. simpl. destruct (_bins gh); [congruence | discriminate]. }
  exists gh'. split; [exact Hm|].
  rewrite Ht, (Total_zero _ Hz). reflexivity.
Qed.

Lemma Reset_restarts_witness :
  counts (Reset TestGraph_gh) = replicate (length (_bins TestGraph_gh)) 0 /\
  boundaries (Reset TestGraph_gh) = boundaries TestGraph_gh /\
  _name (Reset TestGraph_gh) = _name TestGraph_gh /\
  verify (Reset TestGraph_gh) = verify TestGraph_gh /\
  Total (Reset TestGraph_gh) = 0 /\
  exists gh', AddMany (Reset TestGraph_gh) [(5, 2); (10, 20)] = Some gh' /\
              Total gh' = sumZ (map snd [(5, 2); (10, 20)]) mod 2 ^ 64.
Proof. apply Reset_restarts. discriminate. Defined.

(** ** verify *)

Lemma contiguous_linked bins : forall prev,
  (forall first, head bins = Some first -> _start first = prev) ->
  (forall i a b, bins !! i = Some a -> bins !! S i = Some b ->
                 _end a = _start b) ->
  linked prev bins.
Proof.
  induction bins as [|hb bins IH]; intros prev Hh Hadj; simpl; [exact I|].
  split; [apply Hh; reflexivity|]. apply IH.
  - intros first Hf. destruct bins as [|c bins]; [discriminate|].
    injection Hf as <-. symmetry. apply (Hadj 0%nat hb c); reflexivity.
  - intros i a b Ha Hb. apply (Hadj (S i) a b); assumption.
Qed.

(** X7: [verify] returns true exactly when the first bin starts at 0,
    every bin ends where the next one starts and the last bin ends at
    [MaxUint64]; it does not look at the order of the starts. *)
Theorem verify_iff (gh : Histogram) :
  verify gh = true <-> contiguous_total (_bins gh).
Proof.
  split; [apply verify_contiguous_total|].
  intros ((first & Hf & H0) & Hadj & (l & Hl & He)).
  unfold verify. apply verify_from_spec. split.
  - apply contiguous_linked; [|exact Hadj].
    intros f Hf'. congruence.
  - rewrite (last_final_end 0 _ _ Hl). exact He.
Qed.

(** ** Construction *)

Lemma completeBinArray_Some bins :
  bins <> [] -> is_Some (completeBinArray bins).
Proof.
  intros Hne. unfold completeBinArray.
  destruct bins as [|first rest]; [congruence|]. cbv zeta.
  set (bins1 := if 0 <? _start first then _ else _).
  assert (Hne1 : bins1 <> [])
    by (subst bins1; destruct (0 <? _); discriminate).
  apply last_is_Some in Hne1 as [l ->]. eauto.
Qed.

Lemma completeBinArray_length bins bins' :
  completeBinArray bins = Some bins' ->
  (length bins <= length bins' <= length bins + 2)%nat.
Proof.
  unfold completeBinArray. destruct bins as [|first rest]; [discriminate|].
  cbv zeta. set (bins1 := if 0 <? _start first then _ else _).
  assert (Hlen : (length (first :: rest) <= length bins1
                  <= length (first :: rest) + 1)%nat)
    by (subst bins1; destruct (0 <? _); simpl; lia).
  destruct (last bins1); [|discriminate]. intros [= <-].
  simpl length in Hlen |- *.
  destruct (_ <? MaxUint64); [rewrite length_app; simpl length|]; lia.
Qed.

Section ConstructorEdges.

Context `{Platform}.

Lemma make_bins_None numBins :
  make_bins numBins = None <-> numBins < 0 \/ makeslice_max < numBins.
Proof.
  unfold make_bins. destruct (numBins <? 0) eqn:Hn;
    destruct (makeslice_max <? numBins) eqn:Hm;
    rewrite ?Z.ltb_lt, ?Z.ltb_ge in *; simpl; split; intros Hx;
    try reflexivity; try discriminate; lia.
Qed.

Lemma filled_None {G} (getBin : G -> HistogramBin * G) numBins g :
  match make_bins numBins with
  | None => None
  | Some slots => completeBinArray (fill_slots getBin slots g)
  end = None <-> numBins < 1 \/ makeslice_max < numBins.
Proof.
  destruct (make_bins numBins) as [slots|] eqn:Hmk.
  - apply make_bins_inv in Hmk as [Hn ->].
    destruct (Z.to_nat numBins) as [|n] eqn:Hnat.
    + simpl. split; [lia | reflexivity].
    + split; [|lia]. intros Hc.
      destruct (completeBinArray_Some
                  (fill_slots getBin (replicate (S n) (mkBin 0 0 0)) g))
        as [bins' Hs]; [|congruence].
      simpl. destruct (getBin g). discriminate.
  - apply make_bins_None in Hmk. split; [lia | reflexivity].
Qed.

Lemma NewHistogram_None numBins binFirst binGrowthFactor :
  NewHistogram numBins binFirst binGrowthFactor = None
  <-> numBins < 1 \/ makeslice_max < numBins.
Proof.
  rewrite <- (filled_None MultipleGenerator.getBin numBins
                (MultipleGenerator.mk binFirst binGrowthFactor
                   (to_int binFirst))).
  unfold NewHistogram, fillMultiples.
  destruct (make_bins numBins) as [slots|]; [|tauto]. cbn [_bins].
  destruct (completeBinArray _); [split; discriminate | tauto].
Qed.

Lemma NewExpHistogram_None name numBins growthFactor :
  NewExpHistogram name numBins growthFactor = None
  <-> numBins < 1 \/ makeslice_max < numBins.
Proof.
  set (g := if F64.leb growthFactor F64.one then F64.two else growthFactor).
  rewrite <- (filled_None ExponentialGenerator.getBin numBins
                (ExponentialGenerator.mk 0 g)).
  unfold NewExpHistogram, fillExponential. fold g.
  destruct (make_bins numBins) as [slots|]; [|tauto]. cbn [_bins].
  destruct (completeBinArray _); [split; discriminate | tauto].
Qed.



Lemma fill_slots_length' {G} (getBin : G -> HistogramBin * G) slots :
  forall g, length (fill_slots getBin slots g) = length slots.
Proof.
  induction slots as [|s slots IH]; intros g; simpl; [reflexivity|].
  destruct (getBin g). simpl. f_equal. apply IH.
Qed.

(** X9: what a constructor returns is fresh: it carries the name
    (["Histogram"] for [NewHistogram]), every count is zero, [Total()] is
    0, [verify] accepts it, and it has the [numBins] generated bins plus
    at most one synthetic bin at each end. *)
Theorem constructors_fresh :
  (forall numBins binFirst binGrowthFactor gh,
     0 <= binFirst < 2 ^ 64 ->
     NewHistogram numBins binFirst binGrowthFactor = Some gh ->
     _name gh = "Histogram" /\ Total gh = 0 /\ verify gh = true /\
     Forall (fun hb => _count hb = 0) (_bins gh) /\
     numBins <= Z.of_nat (length (_bins gh)) <= numBins + 2) /\
  (forall name numBins growthFactor gh,
     NewExpHistogram name numBins growthFactor = Some gh ->
     _name gh = name /\ Total gh = 0 /\ verify gh = true /\
     Forall (fun hb => _count hb = 0) (_bins gh) /\
     numBins <= Z.of_nat (length (_bins gh)) <= numBins + 2).
Proof.
  split.
  - intros numBins binFirst factor gh Hb Hgh.
    assert (Hn : 1 <= numBins <= makeslice_max).
    { destruct (Z_lt_le_dec numBins 1) as [Hlt|];
        [|destruct (Z_lt_le_dec makeslice_max numBins) as [Hlt|]; [|lia]].
      - assert (Hx : numBins < 1 \/ makeslice_max < numBins) by lia.
        apply (NewHistogram_None numBins binFirst factor) in Hx.
        congruence.
      - assert (Hx : numBins < 1 \/ makeslice_max < numBins) by lia.
        apply (NewHistogram_None numBins binFirst factor) in Hx.
        congruence. }
    destruct (NewHistogram_spec numBins binFirst factor Hn Hb)
      as (gh0 & Hgh0 & _ & Hv & Hall).
    assert (gh0 = gh) by congruence. subst gh0.
    assert (Hz : Forall (fun hb => _count hb = 0) (_bins gh)).
    { eapply Forall_impl; [exact Hall|]. intros hb Hf. apply Hf. }
    unfold NewHistogram, fillMultiples in Hgh.
    rewrite make_bins_Some in Hgh by lia. cbn [_bins] in Hgh.
    destruct (completeBinArray _) as [bins'|] eqn:Hc; [|discriminate].
    injection Hgh as <-. cbn [_bins _name with_bins] in *.
    apply completeBinArray_length in Hc.
    rewrite fill_slots_length', length_replicate in Hc.
    split; [reflexivity|]. split; [apply Total_zero, Hz|].
    split; [exact Hv|]. split; [exact Hz|]. lia.
  - intros name numBins factor gh Hgh.
    assert (Hn : 1 <= numBins <= makeslice_max).
    { destruct (Z_lt_le_dec numBins 1) as [Hlt|];
        [|destruct (Z_lt_le_dec makeslice_max numBins) as [Hlt|]; [|lia]].
      - assert (Hx : numBins < 1 \/ makeslice_max < numBins) by lia.
        apply (NewExpHistogram_None name numBins factor) in Hx.
        congruence.
      - assert (Hx : numBins < 1 \/ makeslice_max < numBins) by lia.
        apply (NewExpHistogram_None name numBins factor) in Hx.
        congruence. }
    destruct (NewExpHistogram_spec name numBins factor Hn)
      as (gh0 & Hgh0 & _ & Hv & Hall).
    assert (gh0 = gh) by congruence. subst gh0.
    assert (Hz : Forall (fun hb => _count hb = 0) (_bins gh)).
    { eapply Forall_impl; [exact Hall|]. intros hb Hf. apply Hf. }
    unfold NewExpHistogram, fillExponential in Hgh.
    rewrite make_bins_Some in Hgh by lia. cbn [_bins] in Hgh.
    destruct (completeBinArray _) as [bins'|] eqn:Hc; [|discriminate].
    injection Hgh as <-. cbn [_bins _name with_bins] in *.
    apply completeBinArray_length in Hc.
    rewrite fill_slots_length', length_replicate in Hc.
    split; [reflexivity|]. split; [apply Total_zero, Hz|].
    split; [exact Hv|]. split; [exact Hz|]. lia.
Qed.

End ConstructorEdges.

Lemma constructors_fresh_witness :
  _name (mkHistogram "Histogram"
           [mkBin 0 0 10; mkBin 0 10 20; mkBin 0 20 MaxUint64])
  = "Histogram" /\
  Total (mkHistogram "Histogram"
           [mkBin 0 0 10; mkBin 0 10 20; mkBin 0 20 MaxUint64]) = 0 /\
  verify (mkHistogram "Histogram"
            [mkBin 0 0 10; mkBin 0 10 20; mkBin 0 20 MaxUint64]) = true /\
  Forall (fun hb => _count hb = 0)
         (_bins (mkHistogram "Histogram"
                   [mkBin 0 0 10; mkBin 0 10 20; mkBin 0 20 MaxUint64])) /\
  1 <= Z.of_nat (length (_bins (mkHistogram "Histogram"
                   [mkBin 0 0 10; mkBin 0 10 20; mkBin 0 20 MaxUint64])))
    <= 1 + 2.
Proof.
  apply (proj1 (constructors_fresh (H := sample_platform)) 1 10 F64.zero).
  - lia.
  - vm_compute. reflexivity.
Defined.

(** ** The boundaries the multiple generator produces *)

Lemma completeBinArray_both bins first l :
  head bins = Some first -> last bins = Some l ->
  0 < _start first -> _end l < MaxUint64 ->
  completeBinArray bins
  = Some (mkBin 0 0 (_start first) :: bins ++ [mkBin 0 (_end l) MaxUint64]).
Proof.
  intros Hh Hl H0 He. destruct bins as [|b bins]; [discriminate|].
  injection Hh as ->. unfold completeBinArray. cbv zeta.
  replace (0 <? _start first) with true by (symmetry; apply Z.ltb_lt, H0).
  rewrite last_cons, Hl. simpl.
  replace (_end l <? MaxUint64) with true by (symmetry; apply Z.ltb_lt, He).
  reflexivity.
Qed.

Section ClosedForms.

Context `{Platform}.

Lemma constant_next_bounds (j n w M : Z) :
  0 <= j -> 0 <= n -> 0 <= w -> (j + (n + 1)) * w < M ->
  0 <= j * w + w < M /\ j * w + w = (j + 1) * w /\ (j + 1 + n) * w < M.
Proof. intros Hj Hn Hw Hb. nia. Qed.

Lemma fill_constant_bins slots : forall mg (j : nat),
  F64.eqb (MultipleGenerator._factor mg) F64.zero = true ->
  MultipleGenerator._start mg
  = Z.of_nat j * of_int (MultipleGenerator._initial mg) ->
  (Z.of_nat j + Z.of_nat (length slots))
  * of_int (MultipleGenerator._initial mg) < modulus ->
  fill_slots MultipleGenerator.getBin slots mg
  = constant_bins (of_int (MultipleGenerator._initial mg)) j (length slots).
Proof.
  induction slots as [|s slots IH]; intros mg j Hz Hs Hb; [reflexivity|].
  pose proof (wrap_range (MultipleGenerator._initial mg)) as [Hw _].
  fold (of_int (MultipleGenerator._initial mg)) in Hw.
  simpl length in Hb. rewrite Nat2Z.inj_succ, <- Z.add_1_r in Hb.
  destruct (constant_next_bounds _ _ _ _ (Nat2Z.is_nonneg j)
              (Nat2Z.is_nonneg (length slots)) Hw Hb) as (Hin & Heq & Hrest).
  simpl. unfold MultipleGenerator.getBin at 1. rewrite Hz. cbv zeta.
  rewrite Hs, (wrap_small _ Hin), Heq. unfold constant_bins. simpl.
  f_equal. apply (IH (MultipleGenerator.mk _ _ _) (S j)); simpl.
  - exact Hz.
  - rewrite Nat2Z.inj_succ, <- Z.add_1_r. reflexivity.
  - rewrite Nat2Z.inj_succ, <- Z.add_1_r. exact Hrest.
Qed.

Lemma last_constant_bins w n :
  last (constant_bins w 0 (S n))
  = Some (mkBin 0 (Z.of_nat n * w) ((Z.of_nat n + 1) * w)).
Proof.
  unfold constant_bins. rewrite seq_S, map_app. simpl. apply last_snoc.
Qed.

(** X10: with a zero growth factor, a first width of at least 1 and
    [(numBins + 1) * binFirst] below [MaxUint64], [NewHistogram] returns
    the [numBins + 1] bins [k*binFirst - (k+1)*binFirst], [k] from 0 to
    [numBins], followed by the bin from [(numBins+1)*binFirst] to
    [MaxUint64]: [numBins + 2] bins, the first one synthetic.  It panics
    instead when [numBins] is more than [make] accepts. *)
Theorem NewHistogram_constant_bins (numBins binFirst : Z)
    (binGrowthFactor : spec_float) :
  1 <= numBins -> 1 <= binFirst ->
  (numBins + 1) * binFirst < MaxUint64 ->
  F64.eqb binGrowthFactor F64.zero = true ->
  NewHistogram numBins binFirst binGrowthFactor
  = if numBins <=? makeslice_max
    then Some (mkHistogram "Histogram"
                 (constant_bins binFirst 0 (S (Z.to_nat numBins))
                  ++ [mkBin 0 ((numBins + 1) * binFirst) MaxUint64]))
    else None.
Proof.
  intros Hn Hb Hbound Hz.
  destruct (numBins <=? makeslice_max) eqn:Hmax;
    [apply Z.leb_le in Hmax
    |apply Z.leb_gt in Hmax; apply NewHistogram_None; right; exact Hmax].
  assert (Hin : in_range binFirst) by (unfold in_range, modulus, MaxUint64 in *; nia).
  unfold NewHistogram, fillMultiples.
  rewrite make_bins_Some by lia.
  cbn [_bins].
  set (mg := MultipleGenerator.mk binFirst binGrowthFactor (to_int binFirst)).
  assert (Hini : of_int (MultipleGenerator._initial mg) = binFirst)
    by (apply of_int_to_int, Hin).
  assert (Hfill : fill_slots MultipleGenerator.getBin
                    (replicate (Z.to_nat numBins) (mkBin 0 0 0)) mg
                  = constant_bins binFirst 1 (Z.to_nat numBins)).
  { rewrite (fill_constant_bins _ mg 1), Hini, length_replicate.
    - reflexivity.
    - exact Hz.
    - rewrite Hini. simpl. lia.
    - rewrite Hini, length_replicate, Z2Nat.id by lia.
      unfold modulus, MaxUint64 in *. lia. }
  rewrite Hfill. clear Hfill Hini mg.
  destruct (Z.to_nat numBins) as [|n] eqn:Hnat; [lia|].
  assert (Hnum : numBins = Z.of_nat n + 1) by lia.
  unfold completeBinArray.
  change (constant_bins binFirst 1 (S n))
    with (mkBin 0 (Z.of_nat 1 * binFirst) ((Z.of_nat 1 + 1) * binFirst)
          :: constant_bins binFirst 2 n).
  cbv zeta. cbn [_start].
  replace (0 <? Z.of_nat 1 * binFirst) with true
    by (symmetry; apply Z.ltb_lt; lia).
  change (mkBin 0 0 (Z.of_nat 1 * binFirst)
          :: mkBin 0 (Z.of_nat 1 * binFirst) ((Z.of_nat 1 + 1) * binFirst)
          :: constant_bins binFirst 2 n)
    with (mkBin 0 0 (Z.of_nat 1 * binFirst) :: constant_bins binFirst 1 (S n)).
  assert (Hbins : mkBin 0 0 (Z.of_nat 1 * binFirst)
                  :: constant_bins binFirst 1 (S n)
                  = constant_bins binFirst 0 (S (S n))).
  { unfold constant_bins. cbn [seq map].
    change (Z.of_nat 0) with 0. change (Z.of_nat 1) with 1.
    rewrite Z.mul_0_l, Z.add_0_l. reflexivity. }
  rewrite Hbins, last_constant_bins. cbn [_end].
  replace ((Z.of_nat (S n) + 1) * binFirst <? MaxUint64) with true
    by (symmetry; apply Z.ltb_lt; lia).
  unfold with_bins. cbn [_name].
  replace (Z.of_nat (S n)) with numBins by lia. reflexivity.
Qed.

Lemma doubling_pow_bounds (b j n : Z) :
  0 < b -> 0 <= j -> 0 <= n -> b * 2 ^ (j + (n + 1)) < 2 ^ 52 ->
  0 < b * 2 ^ j < 2 ^ 52 /\ 0 < 2 * (b * 2 ^ j) < 2 ^ 52 /\
  2 * (b * 2 ^ j) = b * 2 ^ (j + 1) /\
  2 * (2 * (b * 2 ^ j)) = b * 2 ^ (j + 1 + 1) /\
  b * 2 ^ (j + 1 + n) < 2 ^ 52.
Proof.
  intros Hb Hj Hn Hbound.
  replace (j + (n + 1)) with (j + 1 + n) in Hbound by lia.
  rewrite !Z.pow_add_r in * by lia. change (2 ^ 1) with 2 in *.
  assert (Hp : 0 < 2 ^ j) by (apply Z.pow_pos_nonneg; lia).
  assert (Hq : 0 < 2 ^ n) by (apply Z.pow_pos_nonneg; lia).
  set (p := 2 ^ j) in *. set (q := 2 ^ n) in *.
  assert (Hbp : 0 < b * p) by nia.
  assert (H1 : b * p * 2 <= b * p * 2 * q) by nia.
  repeat split; try lia; nia.
Qed.

Lemma fill_doubling_bins slots : forall mg (j : nat) (b : Z),
  MultipleGenerator._factor mg = F64.two ->
  MultipleGenerator._initial mg = -1 ->
  0 < b -> MultipleGenerator._start mg = b * 2 ^ Z.of_nat j ->
  b * 2 ^ (Z.of_nat j + Z.of_nat (length slots)) < 2 ^ 52 ->
  fill_slots MultipleGenerator.getBin slots mg
  = doubling_bins b (S j) (length slots).
Proof.
  induction slots as [|s slots IH]; intros mg j b Hf Hi Hb Hs Hbound;
    [reflexivity|].
  simpl length in Hbound. rewrite Nat2Z.inj_succ, <- Z.add_1_r in Hbound.
  destruct (doubling_pow_bounds b _ _ Hb (Nat2Z.is_nonneg j)
              (Nat2Z.is_nonneg (length slots)) Hbound)
    as (H1 & H2 & E1 & E2 & Hrest).
  simpl. unfold MultipleGenerator.getBin at 1. rewrite Hf, Hi, Hs.
  change (F64.eqb F64.two F64.zero) with false.
  change (negb (-1 =? -1)) with false. cbv iota zeta.
  rewrite (scale_two_exact _ H1), (scale_two_exact _ H2), E2, E1.
  unfold doubling_bins. cbn [seq map]. rewrite Nat2Z.inj_succ, <- Z.add_1_r.
  f_equal. apply (IH (MultipleGenerator.mk _ _ _) (S j) b); simpl; auto.
  - rewrite Nat2Z.inj_succ, <- Z.add_1_r. reflexivity.
  - rewrite Nat2Z.inj_succ, <- Z.add_1_r. exact Hrest.
Qed.

Lemma last_doubling_bins b n :
  last (doubling_bins b 0 (S n))
  = Some (mkBin 0 (b * 2 ^ Z.of_nat n) (b * 2 ^ (Z.of_nat n + 1))).
Proof.
  unfold doubling_bins. rewrite seq_S, map_app. simpl. apply last_snoc.
Qed.

(** X11: with a growth factor of 2.0, a first width of at least 1 and
    [binFirst * 2^(numBins-1)] below 2^52, [NewHistogram] returns the
    synthetic bin [0 - binFirst], the [numBins] bins
    [binFirst*2^k - binFirst*2^(k+1)] and the bin from
    [binFirst*2^numBins] to [MaxUint64]: each generated bin is twice as
    wide as the one before, and there are [numBins + 2] bins.  It
    panics instead when [numBins] is more than [make] accepts. *)
Theorem NewHistogram_doubling_bins (numBins binFirst : Z) :
  1 <= numBins -> 1 <= binFirst -> binFirst * 2 ^ (numBins - 1) < 2 ^ 52 ->
  NewHistogram numBins binFirst F64.two
  = if numBins <=? makeslice_max
    then Some (mkHistogram "Histogram"
                 (mkBin 0 0 binFirst
                  :: doubling_bins binFirst 0 (Z.to_nat numBins)
                  ++ [mkBin 0 (binFirst * 2 ^ numBins) MaxUint64]))
    else None.
Proof.
  intros Hn Hb Hbound.
  destruct (numBins <=? makeslice_max) eqn:Hmax;
    [apply Z.leb_le in Hmax
    |apply Z.leb_gt in Hmax; apply NewHistogram_None; right; exact Hmax].
  assert (Hp : 0 < 2 ^ (numBins - 1)) by (apply Z.pow_pos_nonneg; lia).
  assert (Hsmall : 0 < binFirst < 2 ^ 52) by nia.
  assert (Hin : in_range binFirst) by (unfold in_range, modulus; lia).
  assert (Hpow : binFirst * 2 ^ numBins < 2 ^ 53).
  { replace numBins with (numBins - 1 + 1) by lia.
    rewrite Z.pow_add_r by lia. change (2 ^ 1) with 2. lia. }
  unfold NewHistogram, fillMultiples.
  rewrite make_bins_Some by lia.
  cbn [_bins].
  destruct (Z.to_nat numBins) as [|n] eqn:Hnat; [lia|].
  assert (Hnum : numBins - 1 = Z.of_nat n) by lia.
  assert (Hini : (to_int binFirst =? -1) = false).
  { apply Z.eqb_neq. unfold to_int. rewrite (wrap_small _ Hin).
    destruct (binFirst <? 2 ^ 63) eqn:Hlt; [lia|].
    apply Z.ltb_ge in Hlt. lia. }
  assert (Hgen : mkBin 0 binFirst (2 * binFirst) :: doubling_bins binFirst 1 n
                 = doubling_bins binFirst 0 (S n)).
  { unfold doubling_bins. cbn [seq map]. change (Z.of_nat 0) with 0.
    rewrite Z.add_0_l. change (2 ^ 0) with 1. change (2 ^ 1) with 2.
    rewrite Z.mul_1_r, (Z.mul_comm binFirst 2). reflexivity. }
  assert (Hfill : fill_slots MultipleGenerator.getBin
                    (replicate (S n) (mkBin 0 0 0))
                    (MultipleGenerator.mk binFirst F64.two (to_int binFirst))
                  = doubling_bins binFirst 0 (S n)).
  { cbn [replicate fill_slots]. unfold MultipleGenerator.getBin at 1.
    cbn [MultipleGenerator._factor MultipleGenerator._initial
         MultipleGenerator._start].
    change (F64.eqb F64.two F64.zero) with false. rewrite Hini.
    cbn [negb]. cbv iota zeta.
    rewrite (of_int_to_int _ Hin), (scale_two_exact _ Hsmall).
    rewrite (fill_doubling_bins _ _ 0 binFirst).
    - rewrite length_replicate. exact Hgen.
    - reflexivity.
    - reflexivity.
    - lia.
    - cbn [MultipleGenerator._start]. change (2 ^ Z.of_nat 0) with 1. lia.
    - rewrite length_replicate. change (Z.of_nat 0) with 0.
      rewrite Z.add_0_l, <- Hnum. exact Hbound. }
  rewrite Hfill.
  rewrite (completeBinArray_both _ (mkBin 0 binFirst (2 * binFirst))
             (mkBin 0 (binFirst * 2 ^ Z.of_nat n)
                (binFirst * 2 ^ (Z.of_nat n + 1)))).
  - cbn [_start _end]. replace (Z.of_nat n + 1) with numBins by lia.
    reflexivity.
  - rewrite <- Hgen. reflexivity.
  - apply last_doubling_bins.
  - simpl. lia.
  - cbn [_end]. replace (Z.of_nat n + 1) with numBins by lia.
    unfold MaxUint64. lia.
Qed.

End ClosedForms.

Lemma NewHistogram_constant_bins_witness :
  @NewHistogram sample_platform 5 10 F64.zero
  = Some (mkHistogram "Histogram"
            (constant_bins 10 0 (S (Z.to_nat 5))
             ++ [mkBin 0 ((5 + 1) * 10) MaxUint64])).
Proof.
  refine (NewHistogram_constant_bins (H := sample_platform) 5 10 F64.zero
            _ _ _ _); [lia | lia | unfold MaxUint64; lia | reflexivity].
Defined.

Lemma NewHistogram_doubling_bins_witness :
  @NewHistogram sample_platform 5 10 F64.two
  = Some (mkHistogram "Histogram"
            (mkBin 0 0 10
             :: doubling_bins 10 0 (Z.to_nat 5)
             ++ [mkBin 0 (10 * 2 ^ 5) MaxUint64])).
Proof.
  refine (NewHistogram_doubling_bins (H := sample_platform) 5 10 _ _ _);
    [lia | lia | reflexivity].
Defined.

(** ** The two engines *)

(** X12: the CbHistogram engine is the Histogram engine under another
    name: [NewCbHistogram(name, n)] builds the bins of
    [NewExpHistogram(name, n, g)] for every [g <= 1.0] (which that
    constructor replaces by 2.0), and [findBin], [Add], [Total], [Reset]
    and [verify] of the two engines agree on the same bins. *)
Theorem Cb_engine_agrees `{Platform} :
  (forall name n g,
     F64.leb g F64.one = true ->
     NewExpHistogram name n g
     = Cb_as_Histogram <$> Cb.NewCbHistogram name n) /\
  (forall h amount,
     Cb.findBin h amount = findBin (Cb_as_Histogram h) amount) /\
  (forall h amount count,
     Cb_as_Histogram <$> Cb.Add h amount count
     = Add (Cb_as_Histogram h) amount count) /\
  (forall h, Cb.Total h = Total (Cb_as_Histogram h)) /\
  (forall h, Cb_as_Histogram (Cb_Reset h) = Reset (Cb_as_Histogram h)) /\
  (forall h, Cb.verify h = verify (Cb_as_Histogram h)).
Proof.
  assert (Hfind : forall h amount,
            Cb.findBin h amount = findBin (Cb_as_Histogram h) amount).
  { intros h amount. unfold Cb.findBin, findBin, Cb.accepts, accepts.
    reflexivity. }
  split; [|split; [exact Hfind|split; [|repeat split]]].
  - intros name n g Hg. unfold NewExpHistogram, Cb.NewCbHistogram.
    rewrite Hg. destruct (make_bins n) as [slots|]; [|reflexivity].
    rewrite Cb_fill_completeBinArray. unfold fillExponential.
    cbn [_bins Cb._bins Cb._name].
    destruct (completeBinArray _); reflexivity.
  - intros h amount count. unfold Cb.Add, Add. rewrite Hfind.
    destruct (findBin _ _); reflexivity.
Qed.

Lemma Cb_engine_agrees_witness :
  @NewExpHistogram sample_platform "cb" 5 F64.zero
  = Cb_as_Histogram <$> @Cb.NewCbHistogram sample_platform "cb" 5.
Proof.
  apply (proj1 (Cb_engine_agrees (H := sample_platform))). reflexivity.
Defined.

(** ** AddAll on histograms of one shape *)

Lemma sumZ_zip_wrap (l k : list Z) :
  length l = length k ->
  wrap (sumZ (zip_with (fun a b => wrap (a + b)) l k))
  = wrap (sumZ l + sumZ k).
Proof.
  revert k. induction l as [|a l IH]; intros [|b k] Hlen; simpl in *;
    try reflexivity; try discriminate.
  injection Hlen as Hlen.
  rewrite wrap_add_l, <- wrap_add_r, IH by exact Hlen.
  rewrite wrap_add_r. f_equal. lia.
Qed.

(** X13: on two histograms with the same boundaries, [dst.AddAll(src)]
    adds the counts bin by bin modulo 2^64; [Total()] of [dst] becomes
    [(dst.Total() + src.Total()) mod 2^64], and the boundaries, the name
    and the outcome of [verify] of [dst] stay. *)
Theorem AddAll_adds_counts (gh src : Histogram) :
  boundaries gh = boundaries src ->
  counts (AddAll gh src).1
  = zip_with (fun a b => (a + b) mod 2 ^ 64) (counts gh) (counts src) /\
  Total (AddAll gh src).1 = (Total gh + Total src) mod 2 ^ 64 /\
  boundaries (AddAll gh src).1 = boundaries gh /\
  _name (AddAll gh src).1 = _name gh /\
  verify (AddAll gh src).1 = verify gh.
Proof.
  intros Hb. destruct (AddAll_same_boundaries gh src Hb) as [Hc _].
  split; [exact Hc|]. split.
  - rewrite !Total_sum, Hc.
    rewrite sumZ_zip_wrap.
    + unfold wrap, modulus. apply Z.add_mod. discriminate.
    + unfold counts. rewrite !length_map.
      apply (f_equal length) in Hb. unfold boundaries in Hb.
      rewrite !length_map in Hb. exact Hb.
  - split; [apply AddAll_boundaries_dst|]. split.
    + unfold AddAll. destruct (negb _); reflexivity.
    + apply verify_boundaries, AddAll_boundaries_dst.
Qed.

Lemma AddAll_adds_counts_witness :
  counts (AddAll TestAddAll_gh2 TestAddAll_gh).1
  = zip_with (fun a b => (a + b) mod 2 ^ 64)
      (counts TestAddAll_gh2) (counts TestAddAll_gh) /\
  Total (AddAll TestAddAll_gh2 TestAddAll_gh).1
  = (Total TestAddAll_gh2 + Total TestAddAll_gh) mod 2 ^ 64 /\
  boundaries (AddAll TestAddAll_gh2 TestAddAll_gh).1
  = boundaries TestAddAll_gh2 /\
  _name (AddAll TestAddAll_gh2 TestAddAll_gh).1 = _name TestAddAll_gh2 /\
  verify (AddAll TestAddAll_gh2 TestAddAll_gh).1 = verify TestAddAll_gh2.
Proof. apply AddAll_adds_counts. reflexivity. Defined.

Lemma zip_merge_zero l : forall k,
  map (fun hb => (_start hb, _end hb)) l
  = map (fun hb => (_start hb, _end hb)) k ->
  Forall (fun hb => _count hb = 0) l ->
  Forall (fun hb => in_range (_count hb)) k ->
  zip_with merge_bin l k = k.
Proof.
  induction l as [|g l IH]; intros [|s k] Hb Hz Hr; simpl in *;
    try reflexivity; try discriminate.
  injection Hb as Hs He Hrest.
  apply Forall_cons in Hz as [Hg Hz]. apply Forall_cons in Hr as [Hsr Hr].
  unfold merge_bin at 1. rewrite Hs, He, !Z.eqb_refl, Hg. cbn [andb].
  rewrite Z.add_0_l, (wrap_small _ Hsr). destruct s; cbn [_count _start _end].
  f_equal. apply IH; auto.
Qed.

(** X14: into a destination of the same boundaries whose counts are all
    zero (a fresh histogram, or one after [Reset]), [AddAll] copies the
    bins of the source, and the source comes out as it went in. *)
Theorem AddAll_into_empty (gh src : Histogram) :
  boundaries gh = boundaries src ->
  Forall (fun hb => _count hb = 0) (_bins gh) ->
  Forall (fun hb => 0 <= _count hb < 2 ^ 64) (_bins src) ->
  AddAll gh src = (mkHistogram (_name gh) (_bins src), src).
Proof.
  intros Hb Hz Hr.
  assert (He : length (_bins gh) = length (_bins src)).
  { apply (f_equal length) in Hb. unfold boundaries in Hb.
    rewrite !length_map in Hb. exact Hb. }
  unfold AddAll. apply Nat.eqb_eq in He. rewrite He. cbn [negb].
  cbv zeta. rewrite (zip_merge_zero _ _ Hb Hz Hr).
  unfold with_bins. f_equal. destruct src as [n bins]. cbn [_name _bins].
  f_equal. apply go_copy_same_length. reflexivity.
Qed.

Lemma AddAll_into_empty_witness :
  AddAll (Reset TestAddAll_gh2) TestAddAll_gh
  = (mkHistogram (_name (Reset TestAddAll_gh2)) (_bins TestAddAll_gh),
     TestAddAll_gh).
Proof.
  apply AddAll_into_empty.
  - reflexivity.
  - repeat constructor.
  - repeat constructor; simpl; lia.
Defined.

(** ** EmitGraph: the statistics and the lines *)

Lemma omap_zip_map {A B C : Type} (f : A * B -> option C) (g : A -> B)
    (l : list A) :
  omap f (zip l (map g l)) = omap (fun a => f (a, g a)) l.
Proof.
  induction l as [|a l IH]; [reflexivity|].
  change (omap f (zip (a :: l) (map g (a :: l))))
    with (match f (a, g a) with
          | Some y => y :: omap f (zip l (map g l))
          | None => omap f (zip l (map g l))
          end).
  rewrite IH. reflexivity.
Qed.

Section GraphStats.

Variable label : HistogramBin -> string.

Lemma stats_ranges bins : forall st,
  ranges (fold_left (stats_step label) bins st)
  = ranges st ++ map label bins.
Proof.
  induction bins as [|hb bins IH]; intros st; simpl.
  - symmetry. apply app_nil_r.
  - rewrite IH. simpl. rewrite <- app_assoc. reflexivity.
Qed.

Lemma stats_totalCount bins : forall st,
  totalCount (fold_left (stats_step label) bins st)
  = fold_left (fun count hb => wrap (count + _count hb)) bins (totalCount st).
Proof.
  induction bins as [|hb bins IH]; intros st; simpl; [reflexivity|].
  rewrite IH. reflexivity.
Qed.

Lemma stats_maxCount bins : forall st,
  maxCount st <= maxCount (fold_left (stats_step label) bins st) /\
  Forall (fun hb => _count hb
                    <= maxCount (fold_left (stats_step label) bins st)) bins.
Proof.
  induction bins as [|hb bins IH]; intros st; simpl; [split; [lia|constructor]|].
  destruct (IH (stats_step label st hb)) as [Hge Hall].
  assert (Hstep : maxCount st <= maxCount (stats_step label st hb) /\
                  _count hb <= maxCount (stats_step label st hb)).
  { simpl. destruct (maxCount st <? _count hb) eqn:Hlt.
    - apply Z.ltb_lt in Hlt. lia.
    - apply Z.ltb_ge in Hlt. lia. }
  split; [lia|]. constructor; [lia | exact Hall].
Qed.

Lemma stats_longestRange bins : forall st,
  longestRange st <= longestRange (fold_left (stats_step label) bins st) /\
  Forall (fun hb => 0 < _count hb ->
                    Fmt.len (label hb)
                    <= longestRange (fold_left (stats_step label) bins st))
         bins.
Proof.
  induction bins as [|hb bins IH]; intros st; simpl; [split; [lia|constructor]|].
  destruct (IH (stats_step label st hb)) as [Hge Hall].
  assert (Hstep : longestRange st <= longestRange (stats_step label st hb) /\
                  (0 < _count hb ->
                   Fmt.len (label hb)
                   <= longestRange (stats_step label st hb))).
  { simpl. destruct (0 <? _count hb) eqn:Hpos; simpl.
    - destruct (longestRange st <? Fmt.len (label hb)) eqn:Hlt.
      + apply Z.ltb_lt in Hlt. lia.
      + apply Z.ltb_ge in Hlt. lia.
    - apply Z.ltb_ge in Hpos. lia. }
  split; [lia|]. constructor; [|exact Hall]. intros Hpos. lia.
Qed.

(** The longest label recorded is the one the loop started with or the
    label of a counted bin. *)
Lemma stats_longestRange_attained bins : forall st,
  longestRange (fold_left (stats_step label) bins st) = longestRange st \/
  exists hb, hb ∈ bins /\ 0 < _count hb /\
             Fmt.len (label hb)
             = longestRange (fold_left (stats_step label) bins st).
Proof.
  induction bins as [|b bins IH]; intros st; simpl; [left; reflexivity|].
  destruct (IH (stats_step label st b)) as [Heq|(hb & Hin & Hp & Hl)].
  - rewrite Heq. simpl.
    destruct ((0 <? _count b) && (longestRange st <? Fmt.len (label b)))
      eqn:Hcond; [|left; reflexivity].
    right. apply andb_true_iff in Hcond as [Hp _]. apply Z.ltb_lt in Hp.
    exists b. split; [left|]. split; [exact Hp | reflexivity].
  - right. exists hb. split; [right; exact Hin|]. auto.
Qed.

(** The second loop reads [ranges[i]], the label of bin [i]. *)
Lemma graph_lines_labels st bins :
  ranges st = map label bins ->
  graph_lines st bins
  = omap (fun hb =>
            if _count hb =? 0 then None
            else Some (mkLine (label hb)
                         (Fmt.spaces
                            (Z.to_nat (longestRange st - Fmt.len (label hb))))
                         (_count hb) (totalCount st) (maxCount st)))
         bins.
Proof.
  unfold graph_lines. intros ->. rewrite omap_zip_map. reflexivity.
Qed.

End GraphStats.

Lemma len_spaces n : Fmt.len (Fmt.spaces n) = Z.of_nat n.
Proof.
  unfold Fmt.len. induction n as [|n IH]; simpl; [reflexivity|]. lia.
Qed.

Lemma graph_stats_totalCount gh :
  totalCount (graph_stats range_label (_bins gh)) = Total gh.
Proof. unfold graph_stats. rewrite stats_totalCount. reflexivity. Qed.

Lemma EmitGraph_lines_alt gh :
  EmitGraph_lines gh
  = omap (fun hb =>
            if _count hb =? 0 then None
            else Some (mkLine (range_label hb)
                         (Fmt.spaces
                            (Z.to_nat
                               (longestRange
                                  (graph_stats range_label (_bins gh))
                                - Fmt.len (range_label hb))))
                         (_count hb)
                         (totalCount (graph_stats range_label (_bins gh)))
                         (maxCount (graph_stats range_label (_bins gh)))))
         (_bins gh).
Proof.
  unfold EmitGraph_lines. apply graph_lines_labels.
  unfold graph_stats. rewrite stats_ranges. reflexivity.
Qed.

(** X15: [EmitGraph] writes one line for each bin with a nonzero count,
    in bin order, and none for the others: the labels and counts of the
    lines are those of the bins that are left when the zero counts are
    filtered out. *)
Theorem EmitGraph_line_per_nonzero_bin (gh : Histogram) :
  map (fun gl => (gl_range gl, gl_binCount gl)) (EmitGraph_lines gh)
  = map (fun hb => (range_label hb, _count hb))
        (filter (fun hb => _count hb <> 0) (_bins gh)).
Proof.
  rewrite EmitGraph_lines_alt.
  generalize (longestRange (graph_stats range_label (_bins gh)))
             (totalCount (graph_stats range_label (_bins gh)))
             (maxCount (graph_stats range_label (_bins gh))).
  intros lr tc mc. induction (_bins gh) as [|hb bins IH]; [reflexivity|].
  simpl omap. rewrite filter_cons.
  destruct (_count hb =? 0) eqn:Hc.
  - apply Z.eqb_eq in Hc. destruct (decide (_count hb <> 0)); [lia|].
    exact IH.
  - apply Z.eqb_neq in Hc. destruct (decide (_count hb <> 0)); [|contradiction].
    simpl. f_equal. exact IH.
Qed.

(** X16: the labels are padded to one width: when the counts are
    [uint64] values, the label and the padding of every line [EmitGraph]
    writes have together the length of the longest label among the bins
    with a nonzero count, and a bin with a nonzero count has a label of
    that length. *)
Theorem EmitGraph_labels_aligned (gh : Histogram) (gl : GraphLine) :
  Forall (fun hb => 0 <= _count hb) (_bins gh) ->
  gl ∈ EmitGraph_lines gh ->
  Fmt.len (gl_range gl) + Fmt.len (gl_padding gl)
  = longestRange (graph_stats range_label (_bins gh)) /\
  exists hb, hb ∈ _bins gh /\ _count hb <> 0 /\
             Fmt.len (range_label hb)
             = longestRange (graph_stats range_label (_bins gh)).
Proof.
  intros Hnn Hin. rewrite EmitGraph_lines_alt in Hin.
  apply list_elem_of_omap in Hin as (hb & Hhb & Hgl).
  destruct (_count hb =? 0) eqn:Hc; [discriminate|].
  apply Z.eqb_neq in Hc. injection Hgl as <-. cbn [gl_range gl_padding].
  destruct (stats_longestRange range_label (_bins gh) (mkStats 0 0 [] 0))
    as [_ Hall].
  fold (graph_stats range_label (_bins gh)) in Hall.
  rewrite Forall_forall in Hall, Hnn.
  pose proof (Hnn hb Hhb) as H0.
  assert (Hle : Fmt.len (range_label hb)
                <= longestRange (graph_stats range_label (_bins gh)))
    by (apply (Hall hb Hhb); lia).
  assert (Hlen : 0 <= Fmt.len (range_label hb)) by (unfold Fmt.len; lia).
  split; [rewrite len_spaces; lia|].
  destruct (stats_longestRange_attained range_label (_bins gh)
              (mkStats 0 0 [] 0)) as [Heq|(hb' & Hin' & Hp & Hl)].
  - fold (graph_stats range_label (_bins gh)) in Heq. simpl in Heq.
    exists hb. split; [exact Hhb|]. split; [exact Hc | lia].
  - exists hb'. split; [exact Hin'|]. split; [lia | exact Hl].
Qed.

Lemma EmitGraph_labels_aligned_witness :
  Fmt.len "0 - 10" + Fmt.len "    "
  = longestRange (graph_stats range_label (_bins TestGraph_gh)).
Proof.
  refine (proj1 (EmitGraph_labels_aligned TestGraph_gh
            (mkLine "0 - 10" "    " 2 48 20) _ _)).
  - repeat constructor; simpl; lia.
  - vm_compute. left.
Defined.

(** X17: the divisions of [EmitGraph] are safe when the counts are
    [uint64] values: on every line it writes, the count is positive and
    at most the divisor of the bar, so neither division is by zero where
    the counts add up below [2^64], and the total it prints and divides
    by is [Total()]. *)
Theorem EmitGraph_divisors (gh : Histogram) (gl : GraphLine) :
  Forall (fun hb => 0 <= _count hb) (_bins gh) ->
  gl ∈ EmitGraph_lines gh ->
  0 < gl_binCount gl <= gl_maxCount gl /\
  gl_totalCount gl = Total gh /\
  (sumZ (counts gh) < 2 ^ 64 -> gl_binCount gl <= gl_totalCount gl).
Proof.
  intros Hnn Hin. rewrite EmitGraph_lines_alt in Hin.
  apply list_elem_of_omap in Hin as (hb & Hhb & Hgl).
  destruct (_count hb =? 0) eqn:Hc; [discriminate|].
  apply Z.eqb_neq in Hc. injection Hgl as <-.
  cbn [gl_binCount gl_maxCount gl_totalCount].
  destruct (stats_maxCount range_label (_bins gh) (mkStats 0 0 [] 0))
    as [_ Hall].
  fold (graph_stats range_label (_bins gh)) in Hall.
  rewrite Forall_forall in Hall, Hnn.
  pose proof (Hnn hb Hhb) as H0. pose proof (Hall hb Hhb) as Hmax.
  split; [lia|]. split; [apply graph_stats_totalCount|].
  intros Hsum. rewrite graph_stats_totalCount, Total_sum.
  assert (Hge : forall bins : list HistogramBin,
            Forall (fun b => 0 <= _count b) bins ->
            0 <= sumZ (map _count bins) /\
            forall b, b ∈ bins -> _count b <= sumZ (map _count bins)).
  { clear. induction bins as [|b bins IH]; intros Hall.
    - split; [simpl; lia|]. intros b Hb. inversion Hb.
    - apply Forall_cons in Hall as [Hb Hall]. destruct (IH Hall) as [Hs Hle].
      simpl. split; [lia|]. intros b' Hb'. apply elem_of_cons in Hb'.
      destruct Hb' as [->|Hb']; [lia|]. specialize (Hle b' Hb'). lia. }
  destruct (Hge (_bins gh)) as [Hs Hle]; [apply Forall_forall; exact Hnn|].
  unfold counts in *. rewrite wrap_small by (unfold in_range, modulus; lia).
  apply Hle, Hhb.
Qed.

Lemma EmitGraph_divisors_witness :
  0 < 2 <= 20 /\ 48 = Total TestGraph_gh /\
  (sumZ (counts TestGraph_gh) < 2 ^ 64 -> 2 <= 48).
Proof.
  refine (EmitGraph_divisors TestGraph_gh (mkLine "0 - 10" "    " 2 48 20) _ _).
  - repeat constructor; simpl; lia.
  - vm_compute. left.
Defined.

(** X18: [EmitGraph] appends to the buffer it is given: the text is the
    former contents of the buffer (nothing for a nil buffer), the header
    with the name and the value of [Total()], and the lines of the
    bins; it panics exactly when a line does. *)
Theorem EmitGraph_appends `{Platform} (gh : Histogram)
    (prefix out : option string) :
  EmitGraph gh prefix out
  = (fun body => default "" out +:+ header (_name gh) (Total gh) +:+ body)
    <$> emit_lines bar bar prefix (EmitGraph_lines gh).
Proof.
  unfold EmitGraph. rewrite graph_stats_totalCount.
  destruct (emit_lines bar bar prefix (EmitGraph_lines gh)); reflexivity.
Qed.

(** ** The graph of the CbHistogram engine *)

Section LabelsAgree.

Variables label1 label2 : HistogramBin -> string.

Lemma stats_labels_agree bins : forall st1 st2,
  Forall (fun hb => _count hb <> 0 -> label1 hb = label2 hb) bins ->
  totalCount st1 = totalCount st2 -> maxCount st1 = maxCount st2 ->
  longestRange st1 = longestRange st2 ->
  totalCount (fold_left (stats_step label1) bins st1)
  = totalCount (fold_left (stats_step label2) bins st2) /\
  maxCount (fold_left (stats_step label1) bins st1)
  = maxCount (fold_left (stats_step label2) bins st2) /\
  longestRange (fold_left (stats_step label1) bins st1)
  = longestRange (fold_left (stats_step label2) bins st2).
Proof.
  induction bins as [|hb bins IH]; intros st1 st2 Hl Ht Hm Hr; simpl; [auto|].
  apply Forall_cons in Hl as [Hhb Hl]. apply IH; [exact Hl | simpl ..].
  - rewrite Ht. reflexivity.
  - rewrite Hm. reflexivity.
  - rewrite Hr. destruct (0 <? _count hb) eqn:Hpos; [|reflexivity].
    apply Z.ltb_lt in Hpos. rewrite Hhb by lia. reflexivity.
Qed.

Lemma graph_lines_labels_agree bins :
  Forall (fun hb => _count hb <> 0 -> label1 hb = label2 hb) bins ->
  graph_lines (graph_stats label1 bins) bins
  = graph_lines (graph_stats label2 bins) bins.
Proof.
  intros Hl.
  rewrite (graph_lines_labels label1), (graph_lines_labels label2)
    by (unfold graph_stats; rewrite stats_ranges; reflexivity).
  destruct (stats_labels_agree bins (mkStats 0 0 [] 0) (mkStats 0 0 [] 0) Hl)
    as (Ht & Hm & Hr); [reflexivity ..|].
  fold (graph_stats label1 bins) in Ht, Hm, Hr.
  fold (graph_stats label2 bins) in Ht, Hm, Hr.
  rewrite Ht, Hm, Hr.
  generalize (longestRange (graph_stats label2 bins))
             (totalCount (graph_stats label2 bins))
             (maxCount (graph_stats label2 bins)).
  intros lr tc mc. clear Ht Hm Hr.
  induction bins as [|hb bins IH]; [reflexivity|].
  apply Forall_cons in Hl as [Hhb Hl]. simpl omap.
  destruct (_count hb =? 0) eqn:Hc.
  - apply IH, Hl.
  - apply Z.eqb_neq in Hc. rewrite (Hhb Hc). f_equal. apply IH, Hl.
Qed.

End LabelsAgree.

(** X19: the graph of a [CbHistogram] is the graph [Histogram.EmitGraph]
    writes for the same name and bins with a nil prefix into a nil buffer,
    as long as no bin that ends at [math.MaxUint64] has a count: the two
    differ only in the label of such a bin. *)
Theorem Cb_EmitGraph_agrees `{Platform} (h : Cb.CbHistogram) :
  Forall (fun hb => _end hb = MaxUint64 -> _count hb = 0) (Cb._bins h) ->
  Cb.EmitGraph h = EmitGraph (Cb_as_Histogram h) None None.
Proof.
  intros Hinf.
  assert (Hl : Forall (fun hb => _count hb <> 0 ->
                                 Cb.range_label hb = range_label hb)
                      (Cb._bins h)).
  { eapply Forall_impl; [exact Hinf|]. intros hb Hhb Hc.
    unfold Cb.range_label, range_label.
    destruct (_end hb =? MaxUint64) eqn:He; [|reflexivity].
    apply Z.eqb_eq in He. contradiction (Hc (Hhb He)). }
  unfold Cb.EmitGraph, EmitGraph, EmitGraph_lines, Cb_as_Histogram.
  cbn [_bins _name].
  rewrite (graph_lines_labels_agree _ _ _ Hl).
  destruct (stats_labels_agree _ _ (Cb._bins h) (mkStats 0 0 [] 0)
              (mkStats 0 0 [] 0) Hl) as (Ht & _); [reflexivity ..|].
  fold (graph_stats Cb.range_label (Cb._bins h)) in Ht.
  fold (graph_stats range_label (Cb._bins h)) in Ht.
  rewrite Ht. reflexivity.
Qed.

Lemma Cb_EmitGraph_agrees_witness :
  Cb.EmitGraph (H := sample_platform)
    (Cb.mkCbHistogram "h" [mkBin 3 0 10; mkBin 1 10 20; mkBin 0 20 MaxUint64])
  = EmitGraph (H := sample_platform)
      (mkHistogram "h" [mkBin 3 0 10; mkBin 1 10 20; mkBin 0 20 MaxUint64])
      None None.
Proof.
  apply (Cb_EmitGraph_agrees (H := sample_platform)
           (Cb.mkCbHistogram "h"
              [mkBin 3 0 10; mkBin 1 10 20; mkBin 0 20 MaxUint64])).
  repeat constructor; simpl; unfold MaxUint64; try lia; reflexivity.
Defined.

(** ** Histograms.AddAll: the merge *)

Section HistogramsMerge.

Context {H : Type} `{RangedHistogram H}.






End HistogramsMerge.


(** ** Rounding to float64, in general *)

Lemma Zdigits2_log2 (p : positive) :
  Z.pos (digits2_pos p) = Z.log2 (Z.pos p) + 1.
Proof.
  rewrite digits2_pos_size. destruct p; simpl; lia.
Qed.

Lemma Zdigits2_range (M : Z) :
  0 < M -> 2 ^ (Zdigits2 M - 1) <= M < 2 ^ Zdigits2 M.
Proof.
  intros HM. destruct M as [|p|p]; try lia. unfold Zdigits2.
  rewrite Zdigits2_log2.
  replace (Z.log2 (Z.pos p) + 1 - 1) with (Z.log2 (Z.pos p)) by lia.
  replace (Z.log2 (Z.pos p) + 1) with (Z.succ (Z.log2 (Z.pos p))) by lia.
  apply Z.log2_spec. lia.
Qed.

Lemma Zdigits2_unique (M d : Z) :
  2 ^ (d - 1) <= M < 2 ^ d -> 0 < d -> Zdigits2 M = d.
Proof.
  intros HM Hd.
  assert (0 < M) by (pose proof (Z.pow_pos_nonneg 2 (d - 1)); lia).
  destruct M as [|p|p]; try lia. unfold Zdigits2. rewrite Zdigits2_log2.
  rewrite (Z.log2_unique (Z.pos p) (d - 1)); [lia | lia |].
  replace (Z.succ (d - 1)) with d by lia. exact HM.
Qed.

Lemma shr_1_spec (M : Z) (r s : bool) :
  0 <= M ->
  shr_1 (Build_shr_record M r s)
  = Build_shr_record (M / 2) (Z.odd M) (r || s).
Proof.
  intros HM. rewrite <- Z.div2_div.
  destruct M as [|p|p]; [reflexivity | | lia].
  destruct p; reflexivity.
Qed.

Lemma mod_pow2_split (M k : Z) :
  0 < k ->
  M mod 2 ^ k
  = M mod 2 ^ (k - 1) + 2 ^ (k - 1) * Z.b2z (Z.testbit M (k - 1)).
Proof.
  intros Hk. rewrite Z.testbit_spec' by lia.
  assert (Hp : 2 ^ k = 2 ^ (k - 1) * 2).
  { replace k with (Z.succ (k - 1)) at 1 by lia.
    rewrite Z.pow_succ_r by lia. ring. }
  rewrite Hp. apply Z.rem_mul_r; [|lia]. apply Z.pow_nonzero; lia.
Qed.

(** [k] right shifts: the quotient, the last bit shifted out, and whether
    anything was lost below it. *)
Lemma shr_iter_spec (M : Z) (r0 s0 : bool) (k : positive) :
  0 <= M ->
  exists s,
    SpecFloat.iter_pos shr_1 k (Build_shr_record M r0 s0)
    = Build_shr_record (M / 2 ^ Z.pos k) (Z.testbit M (Z.pos k - 1)) s /\
    (s = true <->
     M mod 2 ^ (Z.pos k - 1) <> 0 \/ r0 = true \/ s0 = true).
Proof.
  intros HM. rewrite iter_pos_iter.
  induction k as [|k IH] using Pos.peano_ind.
  - exists (r0 || s0). split.
    + change (Pos.iter shr_1 (Build_shr_record M r0 s0) 1)
        with (shr_1 (Build_shr_record M r0 s0)).
      rewrite shr_1_spec by exact HM.
      change (Z.pos 1 - 1) with 0. change (2 ^ 1) with 2. reflexivity.
    + change (Z.pos 1 - 1) with 0. change (2 ^ 0) with 1.
      rewrite Z.mod_1_r, orb_true_iff. tauto.
  - destruct IH as (s & Heq & Hs).
    exists (Z.testbit M (Z.pos k - 1) || s). split.
    + rewrite Pos.iter_succ, Heq.
      rewrite shr_1_spec by (apply Z.div_pos; [lia | apply Z.pow_pos_nonneg; lia]).
      rewrite Pos2Z.inj_succ. f_equal.
      * rewrite Z.pow_succ_r by lia. rewrite Z.div_div by
          (try apply Z.pow_pos_nonneg; try apply Z.pow_nonzero; lia).
        f_equal. ring.
      * replace (Z.succ (Z.pos k) - 1) with (Z.pos k) by lia.
        rewrite Z.testbit_odd, Z.shiftr_div_pow2 by lia. reflexivity.
    + rewrite Pos2Z.inj_succ.
      replace (Z.succ (Z.pos k) - 1) with (Z.pos k) by lia.
      rewrite (mod_pow2_split M (Z.pos k)) by lia.
      rewrite orb_true_iff, Hs.
      assert (0 <= M mod 2 ^ (Z.pos k - 1))
        by (apply Z.mod_pos_bound, Z.pow_pos_nonneg; lia).
      assert (0 < 2 ^ (Z.pos k - 1)) by (apply Z.pow_pos_nonneg; lia).
      destruct (Z.testbit M (Z.pos k - 1)); simpl Z.b2z; split; intros Hx.
      * left. nia.
      * left. reflexivity.
      * destruct Hx as [Hx|Hx]; [discriminate|].
        destruct Hx as [Hx|Hx]; [left; lia | right; exact Hx].
      * right. destruct Hx as [Hx|Hx]; [left; lia | right; exact Hx].
Qed.

Lemma round_aux_finish sx (Q e : Z) :
  2 ^ 52 <= Q <= 2 ^ 53 -> -1074 <= e <= 970 ->
  (let '(mrs, e') := shr_fexp F64.prec F64.emax Q e loc_Exact in
   match shr_m mrs with
   | Z0 => S754_zero sx
   | Z.pos m =>
       if e' <=? F64.emax - F64.prec then S754_finite sx m e'
       else S754_infinity sx
   | Z.neg _ => S754_nan
   end) = F64_norm sx Q e.
Proof.
  intros HQ He. unfold F64_norm, shr_fexp.
  destruct (Q <? 2 ^ 53) eqn:Hlt.
  - apply Z.ltb_lt in Hlt.
    rewrite (Zdigits2_unique Q 53) by (change (53 - 1) with 52; lia).
    rewrite fexp_64 by lia. replace (53 + e - 53 - e) with 0 by lia.
    cbn [shr shr_record_of_loc shr_m].
    destruct Q as [|q|q]; try lia. cbn [Z.to_pos].
    destruct (e <=? F64.emax - F64.prec) eqn:Hle; [reflexivity|].
    apply Z.leb_gt in Hle. unfold F64.emax, F64.prec in Hle. lia.
  - apply Z.ltb_ge in Hlt. assert (Q = 2 ^ 53) as -> by lia.
    change (Zdigits2 (2 ^ 53)) with 54.
    rewrite fexp_64 by lia. replace (54 + e - 53 - e) with 1 by lia.
    cbn [shr shr_record_of_loc].
    change (SpecFloat.iter_pos shr_1 1 (Build_shr_record (2 ^ 53) false false))
      with (Build_shr_record (2 ^ 52) false false).
    cbn [shr_m]. change (2 ^ 52) with (Z.pos (Z.to_pos (2 ^ 52))) at 1.
    cbv iota beta.
    destruct (e + 1 <=? F64.emax - F64.prec) eqn:Hle; [reflexivity|].
    apply Z.leb_gt in Hle. unfold F64.emax, F64.prec in Hle. lia.
Qed.

Lemma round_nearest_even_cases (Q : Z) (l : location) :
  round_nearest_even Q l = Q \/
  (round_nearest_even Q l = Q + 1 /\
   (l = loc_Inexact Eq \/ l = loc_Inexact Gt)).
Proof.
  destruct l as [|[]]; simpl; auto.
  destruct (Z.even Q); auto.
Qed.

(** What rounding does to a mantissa of [53 + n] digits: [n] bits are
    shifted out and decide the direction. *)
Lemma round_aux_spec sx (M E : Z) (L : location) (n : Z) :
  0 < M -> Zdigits2 M = 53 + n -> 0 <= n -> -1074 <= E + n <= 970 ->
  exists r s,
    (n = 0 -> Build_shr_record M r s = shr_record_of_loc M L) /\
    (0 < n -> r = Z.testbit M (n - 1) /\
              (s = true <-> M mod 2 ^ (n - 1) <> 0 \/ L <> loc_Exact)) /\
    binary_round_aux F64.prec F64.emax sx M E L
    = F64_norm sx
        (round_nearest_even (M / 2 ^ n)
           (loc_of_shr_record (Build_shr_record (M / 2 ^ n) r s)))
        (E + n).
Proof.
  intros HM Hd Hn He.
  assert (Hrange := Zdigits2_range M HM). rewrite Hd in Hrange.
  assert (HQ : 2 ^ 52 <= M / 2 ^ n < 2 ^ 53).
  { replace (53 + n - 1) with (52 + n) in Hrange by lia.
    rewrite !Z.pow_add_r in Hrange by lia.
    assert (0 < 2 ^ n) by (apply Z.pow_pos_nonneg; lia).
    split.
    - apply Z.div_le_lower_bound; lia.
    - apply Z.div_lt_upper_bound; lia. }
  unfold binary_round_aux, shr_fexp. rewrite Hd.
  rewrite fexp_64 by lia. replace (53 + n + E - 53 - E) with n by lia.
  destruct n as [|p|p]; [| |lia].
  - assert (exists r s, shr_record_of_loc M L = Build_shr_record M r s)
      as (r & s & Hrec) by (destruct L as [|[]]; simpl; eauto).
    exists r, s. split; [auto|]. split; [lia|].
    cbn [shr]. rewrite Hrec. cbn [shr_m].
    change (2 ^ 0) with 1. rewrite Z.div_1_r, Z.add_0_r.
    change (2 ^ 0) with 1 in HQ. rewrite Z.div_1_r in HQ.
    apply round_aux_finish; [|lia].
    destruct (round_nearest_even_cases M
                (loc_of_shr_record (Build_shr_record M r s))) as [->|[-> _]];
      lia.
  - assert (exists r0 s0, shr_record_of_loc M L = Build_shr_record M r0 s0 /\
                          (r0 = true \/ s0 = true <-> L <> loc_Exact))
      as (r0 & s0 & Hrec & Hloc).
    { destruct L as [|[]]; simpl; eexists _, _; (split; [reflexivity|]);
        split; intros Hx; try congruence; try (destruct Hx; discriminate);
        auto. }
    destruct (shr_iter_spec M r0 s0 p) as (s & Hit & Hs); [lia|].
    exists (Z.testbit M (Z.pos p - 1)), s. split; [lia|]. split.
    + intros _. split; [reflexivity|]. rewrite Hs. tauto.
    + cbn [shr]. rewrite Hrec, Hit. cbn [shr_m].
      apply round_aux_finish; [|lia].
      destruct (round_nearest_even_cases (M / 2 ^ Z.pos p)
                  (loc_of_shr_record
                     (Build_shr_record (M / 2 ^ Z.pos p)
                        (Z.testbit M (Z.pos p - 1)) s))) as [->|[-> _]];
        lia.
Qed.

(** Rounding stays below any bound that is a multiple of the unit in the
    last place. *)
Lemma round_aux_le sx (M E : Z) (L : location) (n B : Z) :
  0 < M -> Zdigits2 M = 53 + n -> 0 <= n -> -1074 <= E + n <= 970 ->
  M <= B * 2 ^ n -> (L <> loc_Exact -> M < B * 2 ^ n) ->
  exists m e,
    binary_round_aux F64.prec F64.emax sx M E L = S754_finite sx m e /\
    2 ^ 52 <= Z.pos m < 2 ^ 53 /\
    ((e = E + n /\ Z.pos m <= B) \/ (e = E + n + 1 /\ 2 * Z.pos m <= B)).
Proof.
  intros HM Hd Hn He HB HBs.
  assert (Hrange := Zdigits2_range M HM). rewrite Hd in Hrange.
  assert (Hpow : 0 < 2 ^ n) by (apply Z.pow_pos_nonneg; lia).
  assert (HQ : 2 ^ 52 <= M / 2 ^ n < 2 ^ 53).
  { replace (53 + n - 1) with (52 + n) in Hrange by lia.
    rewrite !Z.pow_add_r in Hrange by lia.
    split.
    - apply Z.div_le_lower_bound; lia.
    - apply Z.div_lt_upper_bound; lia. }
  destruct (round_aux_spec sx M E L n HM Hd Hn He) as (r & s & H0 & Hpos & ->).
  set (Q := M / 2 ^ n) in *.
  assert (HQB : Q <= B).
  { unfold Q. apply Z.div_le_upper_bound; lia. }
  assert (Hup : r = true -> Q + 1 <= B).
  { intros Hr. destruct (Z.eq_dec n 0) as [Hn0|Hn0].
    - specialize (H0 Hn0). subst n. change (2 ^ 0) with 1 in *.
      unfold Q. rewrite Z.div_1_r.
      assert (L <> loc_Exact).
      { intros ->. simpl in H0. congruence. }
      specialize (HBs ltac:(assumption)). lia.
    - destruct Hpos as [Hrbit _]; [lia|].
      assert (Hmod : M mod 2 ^ n <> 0).
      { rewrite (mod_pow2_split M n) by lia. rewrite <- Hrbit, Hr.
        simpl Z.b2z.
        assert (0 <= M mod 2 ^ (n - 1))
          by (apply Z.mod_pos_bound, Z.pow_pos_nonneg; lia).
        assert (0 < 2 ^ (n - 1)) by (apply Z.pow_pos_nonneg; lia). lia. }
      pose proof (Z.div_mod M (2 ^ n) ltac:(lia)) as Hdm. fold Q in Hdm.
      pose proof (Z.mod_pos_bound M (2 ^ n) Hpow) as Hmb.
      assert (Q < B) by nia. lia. }
  assert (Hround : 2 ^ 52 <= round_nearest_even Q
                     (loc_of_shr_record (Build_shr_record Q r s)) <= 2 ^ 53
                   /\ round_nearest_even Q
                     (loc_of_shr_record (Build_shr_record Q r s)) <= B).
  { destruct (round_nearest_even_cases Q
                (loc_of_shr_record (Build_shr_record Q r s)))
      as [->|[-> Hl]]; [lia|].
    assert (r = true) by (destruct r, s, Hl; simpl in *; congruence).
    specialize (Hup ltac:(assumption)). lia. }
  destruct Hround as [Hr1 Hr2]. unfold F64_norm.
  destruct (_ <? 2 ^ 53) eqn:Hlt.
  - apply Z.ltb_lt in Hlt. eexists _, _. split; [reflexivity|].
    rewrite Z2Pos.id by lia. split; [lia|]. left. split; [reflexivity | lia].
  - apply Z.ltb_ge in Hlt. eexists _, _. split; [reflexivity|].
    rewrite Z2Pos.id by lia. split; [lia|]. right.
    split; [reflexivity|]. change (2 * 2 ^ 52) with (2 ^ 53). lia.
Qed.

Lemma new_location_inexact (nb k : Z) :
  new_location nb k <> loc_Exact -> k <> 0.
Proof.
  intros Hl ->. apply Hl. unfold new_location, new_location_even,
    new_location_odd. destruct (Z.even nb); reflexivity.
Qed.

Lemma div_core_spec (mx my : positive) (ex ey : Z) :
  2 ^ 52 <= Z.pos mx < 2 ^ 53 -> 2 ^ 52 <= Z.pos my < 2 ^ 53 ->
  -1000 <= ex - ey ->
  SFdiv_core_binary F64.prec F64.emax (Z.pos mx) ex (Z.pos my) ey
  = ((Z.pos mx * 2 ^ 53) / Z.pos my, ex - ey - 53,
     new_location (Z.pos my) ((Z.pos mx * 2 ^ 53) mod Z.pos my)).
Proof.
  intros Hx Hy He. unfold SFdiv_core_binary.
  rewrite (Zdigits2_unique (Z.pos mx) 53), (Zdigits2_unique (Z.pos my) 53)
    by (change (53 - 1) with 52; lia).
  rewrite fexp_64 by lia.
  replace (Z.min (53 + ex - (53 + ey) - 53) (ex - ey)) with (ex - ey - 53)
    by lia.
  replace (ex - ey - (ex - ey - 53)) with 53 by lia.
  rewrite Z.shiftl_mul_pow2 by lia.
  unfold Z.div, Z.modulo.
  destruct (Z.div_eucl (Z.pos mx * 2 ^ 53) (Z.pos my)). reflexivity.
Qed.

(** A quotient of two normal floats, the dividend not above the divisor,
    is a normal float not above one. *)
Lemma div_le_one (mx my : positive) (ex ey : Z) :
  2 ^ 52 <= Z.pos mx < 2 ^ 53 -> 2 ^ 52 <= Z.pos my < 2 ^ 53 ->
  -100 <= ex <= 100 -> -100 <= ey <= 100 ->
  ex < ey \/ (ex = ey /\ Z.pos mx <= Z.pos my) ->
  exists m e,
    F64.div (S754_finite false mx ex) (S754_finite false my ey)
    = S754_finite false m e /\
    2 ^ 52 <= Z.pos m < 2 ^ 53 /\ -300 <= e <= -52 /\ Z.pos m <= 2 ^ (- e).
Proof.
  intros Hx Hy Hex Hey Hle. unfold F64.div, SFdiv.
  rewrite div_core_spec by (auto; lia). cbn [xorb].
  set (q := Z.pos mx * 2 ^ 53 / Z.pos my).
  set (rm := (Z.pos mx * 2 ^ 53) mod Z.pos my).
  pose proof (Z.div_mod (Z.pos mx * 2 ^ 53) (Z.pos my) ltac:(lia)) as Hdm.
  pose proof (Z.mod_pos_bound (Z.pos mx * 2 ^ 53) (Z.pos my) ltac:(lia)) as Hmb.
  fold q rm in Hdm, Hmb.
  assert (H53 : 2 ^ 53 = 2 * 2 ^ 52) by reflexivity.
  assert (H54 : 2 ^ 54 = 4 * 2 ^ 52) by reflexivity.
  assert (Hq : 2 ^ 52 <= q < 2 ^ 54) by nia.
  assert (Hqe : ex = ey -> q <= 2 ^ 53 /\ (rm <> 0 -> q < 2 ^ 53)).
  { intros He. destruct Hle as [?|[_ Hm]]; [lia|]. split; nia. }
  assert (Hd : exists n, 0 <= n <= 1 /\ Zdigits2 q = 53 + n /\
                         (n = 0 -> q < 2 ^ 53)).
  { destruct (Z.lt_ge_cases q (2 ^ 53)).
    - exists 0. split; [lia|]. split; [|auto].
      apply Zdigits2_unique; [change (53 + 0 - 1) with 52|]; lia.
    - exists 1. split; [lia|]. split; [|lia].
      apply Zdigits2_unique; [change (53 + 1 - 1) with 53|];
        change (53 + 1) with 54; lia. }
  destruct Hd as (n & Hn & Hd & Hn0).
  assert (Hpw : 2 ^ (53 + (ey - ex) - n) * 2 ^ n = 2 ^ (53 + (ey - ex))).
  { rewrite <- Z.pow_add_r by lia. f_equal. lia. }
  assert (Hmono : 2 ^ 53 <= 2 ^ (53 + (ey - ex)))
    by (apply Z.pow_le_mono_r; lia).
  assert (Hstrict : ex < ey -> 2 ^ 54 <= 2 ^ (53 + (ey - ex)))
    by (intros; apply Z.pow_le_mono_r; lia).
  destruct (round_aux_le false q (ex - ey - 53)
              (new_location (Z.pos my) rm) n (2 ^ (53 + (ey - ex) - n))
              ltac:(lia) Hd ltac:(lia) ltac:(lia))
    as (m & e & Heq & Hm & Hcase).
  - rewrite Hpw. destruct (Z.eq_dec ex ey) as [He|He].
    + destruct (Hqe He). lia.
    + specialize (Hstrict ltac:(lia)). lia.
  - intros Hl. apply new_location_inexact in Hl. rewrite Hpw.
    destruct (Z.eq_dec ex ey) as [He|He].
    + destruct (Hqe He) as [_ Hs]. specialize (Hs Hl). lia.
    + specialize (Hstrict ltac:(lia)). lia.
  - exists m, e. split; [exact Heq|]. split; [exact Hm|].
    destruct Hcase as [[-> Hb]|[-> Hb]].
    + split; [lia|].
      replace (- (ex - ey - 53 + n)) with (53 + (ey - ex) - n) by lia.
      exact Hb.
    + assert (Hk : 53 <= 53 + (ey - ex) - n).
      { apply (Z.pow_le_mono_r_iff 2); [lia | lia|].
        change (2 ^ 53) with (2 * 2 ^ 52). lia. }
      split; [lia|].
      replace (53 + (ey - ex) - n) with (Z.succ (- (ex - ey - 53 + n + 1)))
        in Hb by lia.
      rewrite Z.pow_succ_r in Hb by lia. lia.
Qed.

(** [barLen * q] for a quotient [q] not above one is not above 30. *)
Lemma mul_thirty_le (m : positive) (e : Z) :
  2 ^ 52 <= Z.pos m < 2 ^ 53 -> -300 <= e <= -52 -> Z.pos m <= 2 ^ (- e) ->
  exists mp ep,
    F64.mul (F64.of_Z 30) (S754_finite false m e) = S754_finite false mp ep /\
    -400 <= ep <= -46 /\ Z.pos mp <= 30 * 2 ^ (- ep).
Proof.
  intros Hm He Hle.
  assert (H30 : F64.of_Z 30
                = S754_finite false (Z.to_pos (30 * 2 ^ 48)) (-48))
    by (vm_compute; reflexivity).
  rewrite H30. unfold F64.mul, SFmul. cbn [xorb].
  rewrite Pos2Z.inj_mul. rewrite Z2Pos.id by reflexivity.
  set (M := 30 * 2 ^ 48 * Z.pos m).
  assert (H52 : 2 ^ 52 = 4503599627370496) by reflexivity.
  assert (H53 : 2 ^ 53 = 9007199254740992) by reflexivity.
  assert (H48 : 2 ^ 48 = 281474976710656) by reflexivity.
  assert (HM : 2 ^ 104 <= M < 2 ^ 106).
  { unfold M. rewrite H48.
    change (2 ^ 104) with (16 * 281474976710656 * 4503599627370496).
    change (2 ^ 106) with (32 * 281474976710656 * 9007199254740992). lia. }
  assert (Hd : exists n, 52 <= n <= 53 /\ Zdigits2 M = 53 + n).
  { destruct (Z.lt_ge_cases M (2 ^ 105)).
    - exists 52. split; [lia|].
      apply Zdigits2_unique; [change (53 + 52 - 1) with 104|];
        change (53 + 52) with 105; lia.
    - exists 53. split; [lia|].
      apply Zdigits2_unique; [change (53 + 53 - 1) with 105|];
        change (53 + 53) with 106; lia. }
  destruct Hd as (n & Hn & Hd).
  assert (Hpw : 2 ^ (48 - e - n) * 2 ^ n = 2 ^ 48 * 2 ^ (- e)).
  { rewrite <- !Z.pow_add_r by lia. f_equal. lia. }
  assert (Hpos : 0 < 2 ^ (- e)) by (apply Z.pow_pos_nonneg; lia).
  destruct (round_aux_le false M (-48 + e) loc_Exact n (30 * 2 ^ (48 - e - n))
              ltac:(lia) Hd ltac:(lia) ltac:(lia))
    as (mp & ep & Heq & Hmp & Hcase).
  - rewrite <- Z.mul_assoc, Hpw. unfold M. rewrite H48 in *. nia.
  - intros Hx. contradiction.
  - exists mp, ep. split; [exact Heq|].
    destruct Hcase as [[-> Hb]|[-> Hb]].
    + split; [lia|].
      replace (- (-48 + e + n)) with (48 - e - n) by lia. exact Hb.
    + split; [lia|].
      replace (48 - e - n) with (Z.succ (- (-48 + e + n + 1))) in Hb by lia.
      rewrite Z.pow_succ_r in Hb by lia. lia.
Qed.

Lemma small_int_roundtrip `{Platform} (z : Z) :
  0 <= z <= 30 ->
  float_to_int (binary_normalize F64.prec F64.emax z 0 false) = z.
Proof.
  intros Hz. rewrite <- (Z2Nat.id z) by lia.
  assert (Hk : (Z.to_nat z < 31)%nat) by lia.
  remember (Z.to_nat z) as k eqn:Heqk. clear Heqk Hz z.
  do 31 (destruct k as [|k]; [vm_compute; reflexivity|]). lia.
Qed.

Lemma floor_small `{Platform} (mp : positive) (ep : Z) :
  -400 <= ep <= -46 -> Z.pos mp <= 30 * 2 ^ (- ep) ->
  0 <= float_to_int (F64.Floor (S754_finite false mp ep)) <= 30.
Proof.
  intros He Hle. unfold F64.Floor, F64.floorZ.
  destruct (0 <=? ep) eqn:H0; [apply Z.leb_le in H0; lia|].
  change (SFltb (S754_finite false mp ep) F64.zero) with false.
  assert (Hpos : 0 < 2 ^ (- ep)) by (apply Z.pow_pos_nonneg; lia).
  assert (Hz : 0 <= Z.pos mp / 2 ^ (- ep) <= 30).
  { split.
    - apply Z.div_pos; lia.
    - apply Z.div_le_upper_bound; lia. }
  rewrite small_int_roundtrip by exact Hz. exact Hz.
Qed.

(** ** [float64(x)] for a [uint64] *)

Lemma round_rne (x n : Z) (r s : bool) :
  0 < n -> r = Z.testbit x (n - 1) ->
  (s = true <-> x mod 2 ^ (n - 1) <> 0) ->
  round_nearest_even (x / 2 ^ n)
    (loc_of_shr_record (Build_shr_record (x / 2 ^ n) r s))
  = rne x n.
Proof.
  intros Hn Hr Hs. unfold rne. rewrite (mod_pow2_split x n Hn), <- Hr.
  assert (Hh : 0 < 2 ^ (n - 1)) by (apply Z.pow_pos_nonneg; lia).
  pose proof (Z.mod_pos_bound x (2 ^ (n - 1)) Hh) as Hlow.
  destruct r; simpl Z.b2z.
  - destruct (_ <? _) eqn:H1; [apply Z.ltb_lt in H1; lia|].
    destruct s.
    + assert (x mod 2 ^ (n - 1) <> 0) by (apply Hs; reflexivity).
      destruct (2 ^ (n - 1) <? _) eqn:H2; [reflexivity|].
      apply Z.ltb_ge in H2. lia.
    + assert (x mod 2 ^ (n - 1) = 0).
      { destruct (Z.eq_dec (x mod 2 ^ (n - 1)) 0) as [|Hne]; [assumption|].
        apply Hs in Hne. discriminate. }
      destruct (2 ^ (n - 1) <? _) eqn:H2; [apply Z.ltb_lt in H2; lia|].
      reflexivity.
  - destruct (_ <? _) eqn:H1; [|apply Z.ltb_ge in H1; lia].
    destruct s; reflexivity.
Qed.

Lemma rne_bounds (x n : Z) : x / 2 ^ n <= rne x n <= x / 2 ^ n + 1.
Proof.
  unfold rne. destruct (_ <? _); [lia|]. destruct (_ <? _); [lia|].
  destruct (Z.even _); lia.
Qed.

Lemma rne_mono (x y n : Z) :
  0 <= x <= y -> 0 < n -> rne x n <= rne y n.
Proof.
  intros Hxy Hn.
  assert (Hp : 0 < 2 ^ n) by (apply Z.pow_pos_nonneg; lia).
  assert (Hq : x / 2 ^ n <= y / 2 ^ n) by (apply Z.div_le_mono; lia).
  destruct (Z.eq_dec (x / 2 ^ n) (y / 2 ^ n)) as [Heq|Hne].
  - pose proof (Z.div_mod x (2 ^ n) ltac:(lia)) as Hx.
    pose proof (Z.div_mod y (2 ^ n) ltac:(lia)) as Hy.
    assert (Hrm : x mod 2 ^ n <= y mod 2 ^ n) by (rewrite Heq in Hx; lia).
    unfold rne. rewrite Heq.
    destruct (x mod 2 ^ n <? 2 ^ (n - 1)) eqn:H1;
    destruct (y mod 2 ^ n <? 2 ^ (n - 1)) eqn:H2;
    destruct (2 ^ (n - 1) <? x mod 2 ^ n) eqn:H3;
    destruct (2 ^ (n - 1) <? y mod 2 ^ n) eqn:H4;
    destruct (Z.even (y / 2 ^ n));
    rewrite ?Z.ltb_lt, ?Z.ltb_ge in *; lia.
  - pose proof (rne_bounds x n). pose proof (rne_bounds y n). lia.
Qed.

Lemma of_Z_exact (x : Z) :
  0 < x -> Zdigits2 x <= 53 ->
  F64.of_Z x
  = S754_finite false (Z.to_pos (x * 2 ^ (53 - Zdigits2 x)))
      (Zdigits2 x - 53).
Proof.
  intros Hx Hd. destruct x as [|p|p]; try lia. cbn [Zdigits2] in *.
  destruct (Z.eq_dec (Z.pos (digits2_pos p)) 53) as [He|Hne].
  - rewrite He. change (2 ^ (53 - 53)) with 1. rewrite Z.mul_1_r.
    cbn [Z.to_pos]. unfold F64.of_Z, binary_normalize, binary_round, shl_align.
    rewrite fexp_64 by lia. rewrite He. cbn [Z.add Z.sub Z.opp Z.pos_sub].
    apply binary_round_aux_normal; [|lia].
    apply Pos2Z.inj. exact He.
  - rewrite of_Z_small by lia. f_equal.
    apply Pos2Z.inj. rewrite Zpos_shift.
    assert (0 < 2 ^ (53 - Z.pos (digits2_pos p)))
      by (apply Z.pow_pos_nonneg; lia).
    rewrite Z2Pos.id by lia. f_equal. f_equal. lia.
Qed.

Lemma of_Z_rounded (x : Z) :
  0 < x -> 53 < Zdigits2 x <= 1000 ->
  F64.of_Z x
  = F64_norm false (rne x (Zdigits2 x - 53)) (Zdigits2 x - 53).
Proof.
  intros Hx Hd. destruct x as [|p|p]; try lia.
  cbn [Zdigits2] in *.
  unfold F64.of_Z, binary_normalize, binary_round, shl_align.
  rewrite fexp_64 by lia.
  destruct (Z.pos (digits2_pos p) + 0 - 53 - 0) as [|k|k] eqn:Hk; try lia.
  destruct (round_aux_spec false (Z.pos p) 0 loc_Exact
              (Z.pos (digits2_pos p) - 53)) as (r & s & _ & Hrs & ->);
    [lia | cbn [Zdigits2]; lia | lia | lia |].
  destruct Hrs as [Hr Hs]; [lia|].
  rewrite (round_rne (Z.pos p) _ r s); [reflexivity | lia | exact Hr|].
  rewrite Hs. split; [intros [?|?]; [assumption | congruence] | auto].
Qed.

Lemma Zdigits2_mono (x y : Z) :
  0 < x <= y -> Zdigits2 x <= Zdigits2 y.
Proof.
  intros Hxy.
  pose proof (Zdigits2_range x ltac:(lia)) as Hx.
  pose proof (Zdigits2_range y ltac:(lia)) as Hy.
  assert (Hdy : 0 < Zdigits2 y) by (destruct y; cbn; lia).
  assert (Hlt : 2 ^ (Zdigits2 x - 1) < 2 ^ Zdigits2 y) by lia.
  apply Z.pow_lt_mono_r_iff in Hlt; lia.
Qed.

Lemma Zdigits2_uint64 (x : Z) : 0 < x < 2 ^ 64 -> 1 <= Zdigits2 x <= 64.
Proof.
  intros Hx. destruct x as [|p|p]; try lia. cbn [Zdigits2].
  split; [lia|]. apply digits2_pos_bound; lia.
Qed.

Lemma quotient_normal (x n : Z) :
  0 < x -> Zdigits2 x = 53 + n -> 0 <= n ->
  2 ^ 52 <= x / 2 ^ n < 2 ^ 53.
Proof.
  intros Hx Hd Hn. pose proof (Zdigits2_range x Hx) as Hr. rewrite Hd in Hr.
  replace (53 + n - 1) with (52 + n) in Hr by lia.
  rewrite !Z.pow_add_r in Hr by lia.
  assert (0 < 2 ^ n) by (apply Z.pow_pos_nonneg; lia).
  split.
  - apply Z.div_le_lower_bound; lia.
  - apply Z.div_lt_upper_bound; lia.
Qed.

Lemma exact_normal (x : Z) :
  0 < x -> Zdigits2 x <= 53 ->
  2 ^ 52 <= x * 2 ^ (53 - Zdigits2 x) < 2 ^ 53.
Proof.
  intros Hx Hd. pose proof (Zdigits2_range x Hx) as Hr.
  assert (Hd1 : 1 <= Zdigits2 x) by (destruct x; cbn; lia).
  assert (H52 : 2 ^ 52 = 2 ^ (Zdigits2 x - 1) * 2 ^ (53 - Zdigits2 x)).
  { rewrite <- Z.pow_add_r by lia. f_equal. lia. }
  assert (H53 : 2 ^ 53 = 2 ^ Zdigits2 x * 2 ^ (53 - Zdigits2 x)).
  { rewrite <- Z.pow_add_r by lia. f_equal. lia. }
  assert (0 < 2 ^ (53 - Zdigits2 x)) by (apply Z.pow_pos_nonneg; lia).
  rewrite H52, H53. nia.
Qed.

Lemma of_Z_pair (x : Z) :
  0 < x < 2 ^ 64 ->
  F64.of_Z x = S754_finite false (Z.to_pos (f64_pair x).1) (f64_pair x).2 /\
  2 ^ 52 <= (f64_pair x).1 < 2 ^ 53 /\ -52 <= (f64_pair x).2 <= 12.
Proof.
  intros Hx. pose proof (Zdigits2_uint64 x Hx) as Hd. unfold f64_pair.
  destruct (Zdigits2 x <=? 53) eqn:Hle.
  - apply Z.leb_le in Hle. cbn [fst snd].
    split; [apply of_Z_exact; lia|]. split; [apply exact_normal; lia | lia].
  - apply Z.leb_gt in Hle. rewrite of_Z_rounded by lia. unfold F64_norm.
    pose proof (quotient_normal x (Zdigits2 x - 53) ltac:(lia) ltac:(lia)
                  ltac:(lia)) as HQ.
    pose proof (rne_bounds x (Zdigits2 x - 53)) as Hb.
    destruct (rne x (Zdigits2 x - 53) <? 2 ^ 53) eqn:Hlt; cbn [fst snd].
    + apply Z.ltb_lt in Hlt. split; [reflexivity|]. lia.
    + split; [f_equal; lia|]. split; [|lia].
      change (2 ^ 53) with (2 * 2 ^ 52).
      assert (0 < 2 ^ 52) by reflexivity. lia.
Qed.

(** [float64] conversion of [uint64] values is monotone. *)
Lemma f64_pair_mono (x y : Z) :
  0 < x -> x <= y -> y < 2 ^ 64 ->
  (f64_pair x).2 < (f64_pair y).2 \/
  ((f64_pair x).2 = (f64_pair y).2 /\ (f64_pair x).1 <= (f64_pair y).1).
Proof.
  intros Hx Hxy Hy.
  pose proof (Zdigits2_mono x y ltac:(lia)) as Hd.
  pose proof (Zdigits2_uint64 x ltac:(lia)) as Hdx.
  pose proof (Zdigits2_uint64 y ltac:(lia)) as Hdy.
  destruct (of_Z_pair y ltac:(lia)) as (_ & Hny & _).
  destruct (of_Z_pair x ltac:(lia)) as (_ & Hnx & _).
  unfold f64_pair in *.
  destruct (Zdigits2 x <=? 53) eqn:Hlx; destruct (Zdigits2 y <=? 53) eqn:Hly;
    rewrite ?Z.leb_le, ?Z.leb_gt in *; cbn [fst snd] in *.
  - destruct (Z.eq_dec (Zdigits2 x) (Zdigits2 y)) as [He|Hne]; [|lia].
    right. split; [lia|]. rewrite He.
    apply Z.mul_le_mono_nonneg_r; [|lia]. apply Z.pow_nonneg. lia.
  - left. destruct (_ <? _); cbn [snd]; lia.
  - lia.
  - destruct (Z.eq_dec (Zdigits2 x) (Zdigits2 y)) as [He|Hne].
    + rewrite He in *.
      pose proof (rne_mono x y (Zdigits2 y - 53) ltac:(lia) ltac:(lia)) as Hm.
      destruct (rne x (Zdigits2 y - 53) <? 2 ^ 53) eqn:H1;
      destruct (rne y (Zdigits2 y - 53) <? 2 ^ 53) eqn:H2;
        rewrite ?Z.ltb_lt, ?Z.ltb_ge in *; cbn [fst snd] in *; lia.
    + destruct (rne x (Zdigits2 x - 53) <? 2 ^ 53) eqn:H1;
      destruct (rne y (Zdigits2 y - 53) <? 2 ^ 53) eqn:H2;
        rewrite ?Z.ltb_lt, ?Z.ltb_ge in *; cbn [fst snd] in *; lia.
Qed.

(** ** The bar of a line *)

Lemma barWant_range `{Platform} (gl : GraphLine) :
  0 < gl_binCount gl -> gl_binCount gl <= gl_maxCount gl ->
  gl_maxCount gl < 2 ^ 64 ->
  0 <= barWant bar gl <= 30.
Proof.
  intros Hb Hbm Hm. unfold barWant. change (Fmt.len bar) with 30.
  destruct (of_Z_pair (gl_binCount gl) ltac:(lia)) as (-> & Hnb & Heb).
  destruct (of_Z_pair (gl_maxCount gl) ltac:(lia)) as (-> & Hnm & Hem).
  pose proof (f64_pair_mono (gl_binCount gl) (gl_maxCount gl) Hb Hbm Hm)
    as Hmono.
  destruct (div_le_one (Z.to_pos (f64_pair (gl_binCount gl)).1)
              (Z.to_pos (f64_pair (gl_maxCount gl)).1)
              (f64_pair (gl_binCount gl)).2 (f64_pair (gl_maxCount gl)).2)
    as (m & e & -> & Hnq & Heq & Hq);
    rewrite ?Z2Pos.id by lia; try lia.
  destruct (mul_thirty_le m e Hnq Heq Hq) as (mp & ep & -> & Hep & Hp).
  apply floor_small; assumption.
Qed.

Lemma div_self (m : positive) (e : Z) :
  2 ^ 52 <= Z.pos m < 2 ^ 53 ->
  F64.div (S754_finite false m e) (S754_finite false m e) = F64.one.
Proof.
  intros Hm. unfold F64.div, SFdiv. rewrite div_core_spec by (auto; lia).
  rewrite (Z.mul_comm (Z.pos m)), Z.div_mul, Z.mod_mul by lia.
  replace (e - e - 53) with (-53) by lia.
  destruct (Z.even (Z.pos m)) eqn:Hev;
    unfold new_location; rewrite Hev; vm_compute; reflexivity.
Qed.

Lemma barWant_full `{Platform} (gl : GraphLine) :
  0 < gl_binCount gl < 2 ^ 64 -> gl_binCount gl = gl_maxCount gl ->
  barWant bar gl = 30.
Proof.
  intros Hb Heq. unfold barWant. change (Fmt.len bar) with 30.
  rewrite <- Heq.
  destruct (of_Z_pair (gl_binCount gl) ltac:(lia)) as (-> & Hnb & Heb).
  rewrite div_self by (rewrite Z2Pos.id; lia).
  vm_compute. reflexivity.
Qed.

Lemma stats_maxCount_attained (label : HistogramBin -> string) bins :
  forall st,
  maxCount (fold_left (stats_step label) bins st) = maxCount st \/
  exists hb, hb ∈ bins /\
             _count hb = maxCount (fold_left (stats_step label) bins st).
Proof.
  induction bins as [|b bins IH]; intros st; simpl; [left; reflexivity|].
  destruct (IH (stats_step label st b)) as [Heq|(hb & Hin & Hc)].
  - rewrite Heq. simpl. destruct (maxCount st <? _count b);
      [|left; reflexivity].
    right. exists b. split; [left | reflexivity].
  - right. exists hb. split; [right; exact Hin | exact Hc].
Qed.

Lemma slice_bar (n : Z) :
  0 <= n <= 30 ->
  exists bars, slice_to bar n = Some bars /\ Fmt.len bars = n /\
               (n = 30 -> bars = bar).
Proof.
  intros Hn. rewrite <- (Z2Nat.id n) by lia.
  assert (Hk : (Z.to_nat n < 31)%nat) by lia.
  remember (Z.to_nat n) as k eqn:Heqk. clear Heqk Hn n.
  do 31 (destruct k as [|k];
         [eexists; split; [vm_compute; reflexivity|];
          split; [reflexivity | intros Hx; try discriminate Hx; reflexivity]
         |]).
  lia.
Qed.

(** The lines of a histogram whose counts are [uint64] values. *)
Lemma graph_lines_counts (label : HistogramBin -> string)
    (bins : list HistogramBin) (gl : GraphLine) :
  Forall (fun hb => 0 <= _count hb < 2 ^ 64) bins ->
  gl ∈ graph_lines (graph_stats label bins) bins ->
  0 < gl_binCount gl /\ gl_binCount gl <= gl_maxCount gl /\
  gl_maxCount gl < 2 ^ 64.
Proof.
  intros Hnn Hin.
  rewrite (graph_lines_labels label) in Hin
    by (unfold graph_stats; rewrite stats_ranges; reflexivity).
  apply list_elem_of_omap in Hin as (hb & Hhb & Hgl).
  destruct (_count hb =? 0) eqn:Hc; [discriminate|].
  apply Z.eqb_neq in Hc. injection Hgl as <-.
  cbn [gl_binCount gl_maxCount].
  destruct (stats_maxCount label bins (mkStats 0 0 [] 0)) as [_ Hall].
  fold (graph_stats label bins) in Hall.
  rewrite Forall_forall in Hall, Hnn.
  pose proof (Hnn hb Hhb) as H0. pose proof (Hall hb Hhb) as Hmax.
  split; [lia|]. split; [exact Hmax|].
  destruct (stats_maxCount_attained label bins (mkStats 0 0 [] 0))
    as [Heq|(hb' & Hin' & Heq)];
    fold (graph_stats label bins) in Heq.
  - rewrite Heq. simpl. lia.
  - rewrite <- Heq. apply (Hnn hb' Hin').
Qed.

Lemma EmitGraph_lines_counts (gh : Histogram) (gl : GraphLine) :
  Forall (fun hb => 0 <= _count hb < 2 ^ 64) (_bins gh) ->
  gl ∈ EmitGraph_lines gh ->
  0 < gl_binCount gl /\ gl_binCount gl <= gl_maxCount gl /\
  gl_maxCount gl < 2 ^ 64.
Proof. apply graph_lines_counts. Qed.

Lemma emit_lines_returns `{Platform} (prefix : option string)
    (gls : list GraphLine) :
  Forall (fun gl => 0 <= barWant bar gl <= 30) gls ->
  is_Some (emit_lines bar bar prefix gls).
Proof.
  induction 1 as [|gl gls Hgl _ IH]; simpl; [eauto|].
  unfold emit_line. destruct (slice_bar _ Hgl) as (bars & -> & _).
  destruct IH as [more ->]. eauto.
Qed.

(** X21: [EmitGraph] never panics on a histogram whose counts are
    [uint64] values: the length [barWant] of every bar it slices from
    [bar] is between 0 and [len(bar)], whatever the counts are, so the
    call returns a buffer. *)
Theorem EmitGraph_returns `{Platform} (gh : Histogram)
    (prefix out : option string) :
  Forall (fun hb => 0 <= _count hb < 2 ^ 64) (_bins gh) ->
  is_Some (EmitGraph gh prefix out).
Proof.
  intros Hc. unfold EmitGraph.
  destruct (emit_lines_returns prefix (EmitGraph_lines gh)) as [lines ->];
    [|eauto].
  apply Forall_forall. intros gl Hgl.
  destruct (EmitGraph_lines_counts gh gl Hc Hgl) as (Hb & Hbm & Hm).
  apply barWant_range; assumption.
Qed.

Lemma EmitGraph_returns_witness :
  is_Some (EmitGraph (H := sample_platform) TestGraph_gh (Some "- ") None).
Proof.
  apply (EmitGraph_returns (H := sample_platform)).
  repeat constructor; cbn; lia.
Defined.

(** X22: the bars of [EmitGraph] on a histogram whose counts are [uint64]
    values: every line gets a bar of [barWant] characters, between 0 and
    30; a bin whose count is the largest one gets the full bar of 30, and
    there is such a line whenever there is a line at all. *)
Theorem EmitGraph_bars `{Platform} (gh : Histogram) :
  Forall (fun hb => 0 <= _count hb < 2 ^ 64) (_bins gh) ->
  (forall gl, gl ∈ EmitGraph_lines gh ->
     exists bars,
       slice_to bar (barWant bar gl) = Some bars /\
       Fmt.len bars = barWant bar gl /\
       0 <= barWant bar gl <= 30 /\
       (gl_binCount gl = gl_maxCount gl -> bars = bar)) /\
  (EmitGraph_lines gh <> [] ->
   exists gl, gl ∈ EmitGraph_lines gh /\ gl_binCount gl = gl_maxCount gl).
Proof.
  intros Hc. split.
  - intros gl Hgl.
    destruct (EmitGraph_lines_counts gh gl Hc Hgl) as (Hb & Hbm & Hm).
    pose proof (barWant_range gl Hb Hbm Hm) as Hr.
    destruct (slice_bar _ Hr) as (bars & Hs & Hl & Hfull).
    exists bars. split; [exact Hs|]. split; [exact Hl|]. split; [exact Hr|].
    intros Heq. apply Hfull. apply barWant_full; [lia | exact Heq].
  - intros Hne.
    destruct (stats_maxCount_attained range_label (_bins gh)
                (mkStats 0 0 [] 0)) as [Heq|(hb & Hin & Heq)];
      fold (graph_stats range_label (_bins gh)) in Heq.
    + exfalso. apply Hne. rewrite EmitGraph_lines_alt.
      destruct (stats_maxCount range_label (_bins gh) (mkStats 0 0 [] 0))
        as [_ Hall].
      fold (graph_stats range_label (_bins gh)) in Hall.
      rewrite Heq in Hall. simpl in Hall.
      clear Heq Hne. generalize (longestRange (graph_stats range_label (_bins gh)))
        (totalCount (graph_stats range_label (_bins gh)))
        (maxCount (graph_stats range_label (_bins gh))). intros lr tc mc.
      induction (_bins gh) as [|b bins IH]; [reflexivity|].
      apply Forall_cons in Hc as [Hb Hc]. apply Forall_cons in Hall as [Hb0 Hall].
      simpl omap. assert (_count b = 0) as -> by lia. simpl.
      apply IH; assumption.
    + destruct (Z.eq_dec (_count hb) 0) as [Hz|Hnz].
      * exfalso. apply Hne. rewrite EmitGraph_lines_alt.
        destruct (stats_maxCount range_label (_bins gh) (mkStats 0 0 [] 0))
          as [_ Hall].
        fold (graph_stats range_label (_bins gh)) in Hall.
        rewrite <- Heq, Hz in Hall.
        clear Heq Hne Hin. generalize (longestRange (graph_stats range_label (_bins gh)))
          (totalCount (graph_stats range_label (_bins gh)))
          (maxCount (graph_stats range_label (_bins gh))). intros lr tc mc.
        induction (_bins gh) as [|b bins IH]; [reflexivity|].
        apply Forall_cons in Hc as [Hb Hc]. apply Forall_cons in Hall as [Hb0 Hall].
        simpl omap. assert (_count b = 0) as -> by lia. simpl.
        apply IH; assumption.
      * eexists. split.
        -- rewrite EmitGraph_lines_alt. apply list_elem_of_omap.
           exists hb. split; [exact Hin|].
           apply Z.eqb_neq in Hnz. rewrite Hnz. reflexivity.
        -- cbn [gl_binCount gl_maxCount]. exact Heq.
Qed.

Lemma EmitGraph_bars_witness :
  (forall gl, gl ∈ EmitGraph_lines TestGraph_gh ->
     exists bars,
       slice_to bar (barWant (H := sample_platform) bar gl) = Some bars /\
       Fmt.len bars = barWant (H := sample_platform) bar gl /\
       0 <= barWant (H := sample_platform) bar gl <= 30 /\
       (gl_binCount gl = gl_maxCount gl -> bars = bar)) /\
  (EmitGraph_lines TestGraph_gh <> [] ->
   exists gl, gl ∈ EmitGraph_lines TestGraph_gh /\
              gl_binCount gl = gl_maxCount gl).
Proof.
  apply (EmitGraph_bars (H := sample_platform) TestGraph_gh).
  repeat constructor; cbn; lia.
Defined.

(** ** Add and AddAll on any histogram *)

(** X23: on any histogram, verified or not, [Add] panics exactly when
    there is no bin at all; otherwise it returns, keeps the number of
    bins and every boundary, and [Total()] grows by [count] modulo
    2^64. *)
Theorem Add_panics_iff_no_bins (gh : Histogram) (amount count : Z) :
  (Add gh amount count = None <-> _bins gh = []) /\
  (forall gh', Add gh amount count = Some gh' ->
     length (_bins gh') = length (_bins gh) /\
     boundaries gh' = boundaries gh /\
     _name gh' = _name gh /\
     Total gh' = (Total gh + count) mod 2 ^ 64).
Proof.
  split.
  - split.
    + intros HN. destruct (_bins gh) as [|b bins] eqn:Hb; [reflexivity|].
      destruct (Add_total gh amount count) as [gh' Hgh'];
        [rewrite Hb; discriminate | congruence].
    + intros Hb. unfold Add, findBin. rewrite Hb. reflexivity.
  - intros gh' HA. split; [apply (Add_length _ _ _ _ HA)|].
    split; [apply (Add_boundaries _ _ _ _ HA)|]. split.
    + unfold Add in HA. destruct (findBin gh amount); [|discriminate].
      injection HA as <-. reflexivity.
    + apply (Add_Total _ _ _ _ HA).
Qed.

(** X24: [dst.AddAll(src)] on two histograms with the same number of
    bins leaves in [src] a copy of the bins [dst] has after the call:
    the counts [src] held are overwritten by the merged ones (its
    name stays), so both histograms report the same [Total()]. *)
Theorem AddAll_src_copies_dst (gh src : Histogram) :
  length (_bins gh) = length (_bins src) ->
  _bins (AddAll gh src).2 = _bins (AddAll gh src).1 /\
  _bins (AddAll gh src).1 = zip_with merge_bin (_bins gh) (_bins src) /\
  _name (AddAll gh src).2 = _name src /\
  _name (AddAll gh src).1 = _name gh /\
  Total (AddAll gh src).2 = Total (AddAll gh src).1.
Proof.
  intros Hlen. pose proof (AddAll_bins_src gh src Hlen) as Hsrc.
  split; [exact Hsrc|]. split; [apply AddAll_bins_dst, Hlen|].
  split; [|split].
  - unfold AddAll. destruct (negb _); reflexivity.
  - unfold AddAll. destruct (negb _); reflexivity.
  - unfold Total. rewrite Hsrc. reflexivity.
Qed.

Lemma AddAll_src_copies_dst_witness :
  _bins (AddAll TestAddAll_gh2 TestAddAll_gh).2
  = _bins (AddAll TestAddAll_gh2 TestAddAll_gh).1 /\
  _bins (AddAll TestAddAll_gh2 TestAddAll_gh).1
  = zip_with merge_bin (_bins TestAddAll_gh2) (_bins TestAddAll_gh) /\
  _name (AddAll TestAddAll_gh2 TestAddAll_gh).2 = _name TestAddAll_gh /\
  _name (AddAll TestAddAll_gh2 TestAddAll_gh).1 = _name TestAddAll_gh2 /\
  Total (AddAll TestAddAll_gh2 TestAddAll_gh).2
  = Total (AddAll TestAddAll_gh2 TestAddAll_gh).1.
Proof.
  apply AddAll_src_copies_dst. reflexivity.
Defined.

(** X25: [CbHistogram.EmitGraph] never panics either when the counts are
    [uint64] values: the bar length is computed from [len(bar)] and the
    slice is taken from [BAR], which has the same length. *)
Theorem Cb_EmitGraph_returns `{Platform} (h : Cb.CbHistogram) :
  Forall (fun hb => 0 <= _count hb < 2 ^ 64) (Cb._bins h) ->
  is_Some (Cb.EmitGraph h).
Proof.
  intros Hc. unfold Cb.EmitGraph. change Cb.BAR with bar.
  destruct (emit_lines_returns None
              (graph_lines (graph_stats Cb.range_label (Cb._bins h))
                 (Cb._bins h))) as [lines ->]; [|eauto].
  apply Forall_forall. intros gl Hgl.
  destruct (graph_lines_counts Cb.range_label (Cb._bins h) gl Hc Hgl)
    as (Hb & Hbm & Hm).
  apply barWant_range; assumption.
Qed.

Lemma Cb_EmitGraph_returns_witness :
  is_Some (Cb.EmitGraph (H := sample_platform) TestCbHistogramGraph_hist).
Proof.
  apply (Cb_EmitGraph_returns (H := sample_platform)).
  repeat constructor; cbn; lia.
Defined.

(** ** Growth factors above one *)


(** *** Rounding, with overflow *)

Lemma round_aux_finish_inf sx (Q e : Z) :
  2 ^ 52 <= Q <= 2 ^ 53 -> -1074 <= e ->
  (let '(mrs, e') := shr_fexp F64.prec F64.emax Q e loc_Exact in
   match shr_m mrs with
   | Z0 => S754_zero sx
   | Z.pos m =>
       if e' <=? F64.emax - F64.prec then S754_finite sx m e'
       else S754_infinity sx
   | Z.neg _ => S754_nan
   end) = F64_norm_inf sx Q e.
Proof.
  intros HQ He. unfold F64_norm_inf, shr_fexp.
  destruct (Q <? 2 ^ 53) eqn:Hlt.
  - apply Z.ltb_lt in Hlt.
    rewrite (Zdigits2_unique Q 53) by (change (53 - 1) with 52; lia).
    rewrite fexp_64 by lia. replace (53 + e - 53 - e) with 0 by lia.
    cbn [shr shr_record_of_loc shr_m].
    destruct Q as [|q|q]; try lia. cbn [Z.to_pos]. reflexivity.
  - apply Z.ltb_ge in Hlt. assert (Q = 2 ^ 53) as -> by lia.
    change (Zdigits2 (2 ^ 53)) with 54.
    rewrite fexp_64 by lia. replace (54 + e - 53 - e) with 1 by lia.
    cbn [shr shr_record_of_loc].
    change (SpecFloat.iter_pos shr_1 1 (Build_shr_record (2 ^ 53) false false))
      with (Build_shr_record (2 ^ 52) false false).
    cbn [shr_m]. change (2 ^ 52) with (Z.pos (Z.to_pos (2 ^ 52))) at 1.
    cbv iota beta. reflexivity.
Qed.

(** Rounding a mantissa of [53 + n] digits: the result is the quotient by
    [2^n] or the next integer, renormalised. *)
Lemma round_aux_between sx (M E : Z) (L : location) (n : Z) :
  0 < M -> Zdigits2 M = 53 + n -> 0 <= n -> -1074 <= E + n ->
  exists Q, M / 2 ^ n <= Q <= M / 2 ^ n + 1 /\
            2 ^ 52 <= Q <= 2 ^ 53 /\
            binary_round_aux F64.prec F64.emax sx M E L
            = F64_norm_inf sx Q (E + n).
Proof.
  intros HM Hd Hn He.
  pose proof (quotient_normal M n HM Hd Hn) as HQ.
  unfold binary_round_aux, shr_fexp. rewrite Hd.
  rewrite fexp_64 by lia. replace (53 + n + E - 53 - E) with n by lia.
  assert (Hcase : forall r s,
            M / 2 ^ n
            <= round_nearest_even (M / 2 ^ n)
                 (loc_of_shr_record (Build_shr_record (M / 2 ^ n) r s))
            <= M / 2 ^ n + 1).
  { intros r s.
    destruct (round_nearest_even_cases (M / 2 ^ n)
                (loc_of_shr_record (Build_shr_record (M / 2 ^ n) r s)))
      as [->|[-> _]]; lia. }
  destruct n as [|p|p]; [| |lia].
  - assert (exists r s, shr_record_of_loc M L = Build_shr_record M r s)
      as (r & s & Hrec) by (destruct L as [|[]]; simpl; eauto).
    cbn [shr]. rewrite Hrec. cbn [shr_m].
    change (2 ^ 0) with 1 in *. rewrite Z.div_1_r in *. rewrite Z.add_0_r.
    specialize (Hcase r s).
    eexists. split; [exact Hcase|]. split; [lia|].
    apply round_aux_finish_inf; lia.
  - assert (exists r0 s0, shr_record_of_loc M L = Build_shr_record M r0 s0)
      as (r0 & s0 & Hrec) by (destruct L as [|[]]; simpl; eauto).
    destruct (shr_iter_spec M r0 s0 p) as (s & Hit & Hs); [lia|].
    cbn [shr]. rewrite Hrec, Hit. cbn [shr_m].
    specialize (Hcase (Z.testbit M (Z.pos p - 1)) s).
    eexists. split; [exact Hcase|]. split; [lia|].
    apply round_aux_finish_inf; lia.
Qed.

(** *** Normal floats above one *)

Lemma above_one_normal (g : spec_float) :
  above_one g = true ->
  exists mg eg,
    g = S754_finite false mg eg /\
    2 ^ 52 <= Z.pos mg < 2 ^ 53 /\ -52 <= eg <= 971 /\
    (eg = -52 -> 2 ^ 52 < Z.pos mg).
Proof.
  unfold above_one, F64_valid, valid_binary. intros Hg.
  destruct g as [| | |s m e]; try discriminate Hg.
  destruct s; [discriminate Hg|].
  apply andb_true_iff in Hg as [Hv Hlt].
  unfold bounded, canonical_mantissa in Hv.
  apply andb_true_iff in Hv as [Hc Hb].
  apply Z.eqb_eq in Hc. apply Z.leb_le in Hb.
  unfold F64.emax, F64.prec in Hb.
  assert (He : -52 <= e /\ (e = -52 -> 2 ^ 52 < Z.pos m)).
  { unfold SFltb, SFcompare in Hlt.
    change F64.one with (S754_finite false (Z.to_pos (2 ^ 52)) (-52)) in Hlt.
    cbv iota beta in Hlt.
    destruct (-52 ?= e) eqn:Hcmp; try discriminate Hlt.
    - apply Z.compare_eq in Hcmp. split; [lia|]. intros _.
      change (Pos.compare_cont Eq (Z.to_pos (2 ^ 52)) m)
        with (Pos.compare (Z.to_pos (2 ^ 52)) m) in Hlt.
      destruct (Pos.compare (Z.to_pos (2 ^ 52)) m) eqn:Hp;
        try discriminate Hlt.
      apply Pos.compare_lt_iff in Hp.
      change (2 ^ 52) with (Z.pos (Z.to_pos (2 ^ 52))).
      apply Pos2Z.pos_lt_pos. exact Hp.
    - rewrite Z.compare_lt_iff in Hcmp. lia. }
  exists m, e. split; [reflexivity|].
  assert (Hd : Zdigits2 (Z.pos m) = 53).
  { cbn [Zdigits2]. unfold fexp, emin, F64.prec, F64.emax in Hc. lia. }
  pose proof (Zdigits2_range (Z.pos m) ltac:(lia)) as Hr. rewrite Hd in Hr.
  change (53 - 1) with 52 in Hr. split; [exact Hr|]. split; [lia | apply He].
Qed.

Lemma prod_digits (m1 m2 : Z) :
  2 ^ 52 <= m1 < 2 ^ 53 -> 2 ^ 52 <= m2 < 2 ^ 53 ->
  exists n, 52 <= n <= 53 /\ Zdigits2 (m1 * m2) = 53 + n.
Proof.
  intros H1 H2.
  assert (H104 : 2 ^ 104 = 2 ^ 52 * 2 ^ 52) by reflexivity.
  assert (H106 : 2 ^ 106 = 2 ^ 53 * 2 ^ 53) by reflexivity.
  assert (0 < 2 ^ 52) by reflexivity.
  assert (HM : 2 ^ 104 <= m1 * m2 < 2 ^ 106) by nia.
  destruct (Z.lt_ge_cases (m1 * m2) (2 ^ 105)).
  - exists 52. split; [lia|].
    apply Zdigits2_unique; [change (53 + 52 - 1) with 104|];
      change (53 + 52) with 105; lia.
  - exists 53. split; [lia|].
    apply Zdigits2_unique; [change (53 + 53 - 1) with 105|];
      change (53 + 53) with 106; lia.
Qed.

(** How [float64(x)] relates to [x]: exact up to 2^53, within one unit in
    the last place above. *)
Lemma f64_pair_value (x : Z) :
  0 < x < 2 ^ 64 ->
  ((f64_pair x).2 <= 0 -> (f64_pair x).1 = x * 2 ^ (- (f64_pair x).2)) /\
  (0 < (f64_pair x).2 -> x < ((f64_pair x).1 + 1) * 2 ^ (f64_pair x).2) /\
  x < 2 ^ (53 + (f64_pair x).2) /\
  (2 ^ 52 <= x -> 0 <= (f64_pair x).2).
Proof.
  intros Hx. pose proof (Zdigits2_uint64 x Hx) as Hd.
  pose proof (Zdigits2_range x ltac:(lia)) as Hr.
  unfold f64_pair.
  destruct (Zdigits2 x <=? 53) eqn:Hle.
  - apply Z.leb_le in Hle. cbn [fst snd].
    split; [intros _; f_equal; f_equal; lia|]. split; [lia|].
    split; [replace (53 + (Zdigits2 x - 53)) with (Zdigits2 x) by lia; lia|].
    intros H52.
    assert (Hlt : 2 ^ 52 < 2 ^ Zdigits2 x) by lia.
    apply Z.pow_lt_mono_r_iff in Hlt; lia.
  - apply Z.leb_gt in Hle.
    set (n := Zdigits2 x - 53) in *.
    assert (Hp : 0 < 2 ^ n) by (apply Z.pow_pos_nonneg; lia).
    pose proof (rne_bounds x n) as Hb.
    pose proof (Z.div_mod x (2 ^ n) ltac:(lia)) as Hdm.
    pose proof (Z.mod_pos_bound x (2 ^ n) Hp) as Hmb.
    assert (Hxd : x < 2 ^ (53 + n))
      by (replace (53 + n) with (Zdigits2 x) by lia; lia).
    destruct (rne x n <? 2 ^ 53) eqn:Hlt; cbn [fst snd].
    + split; [lia|]. split; [intros _; nia|]. split; [exact Hxd | lia].
    + split; [lia|]. split; [|split; [|lia]].
      * intros _.
        replace (Zdigits2 x - 52) with (Z.succ n) by lia.
        rewrite Z.pow_succ_r by lia. rewrite Z.pow_add_r in Hxd by lia.
        change (2 ^ 53) with (2 * 2 ^ 52) in Hxd. nia.
      * eapply Z.lt_le_trans; [exact Hxd|].
        apply Z.pow_le_mono_r; lia.
Qed.

Lemma trunc_finite (m : positive) (e : Z) :
  F64.trunc (S754_finite false m e)
  = Some (if 0 <=? e then Z.pos m * 2 ^ e else Z.pos m / 2 ^ (- e)).
Proof. reflexivity. Qed.

Lemma fits_uint64_spec `{Platform} (f : spec_float) :
  fits_uint64 f = true ->
  exists z, F64.trunc f = Some z /\ 0 <= z < 2 ^ 64 /\
            float_to_uint64 f = z.
Proof.
  unfold fits_uint64, float_to_uint64. destruct (F64.trunc f) as [z|];
    [|discriminate].
  intros Hz. exists z. split; [reflexivity|].
  change modulus with (2 ^ 64). rewrite Hz.
  apply andb_true_iff in Hz as [H0 H1].
  apply Z.leb_le in H0. apply Z.ltb_lt in H1. auto.
Qed.

(** *** One step of the multiple generator *)

(** [float64(x) * g], rounded. *)
Lemma mul_of_Z (x : Z) (mg : positive) (eg : Z) :
  0 < x < 2 ^ 64 -> 2 ^ 52 <= Z.pos mg < 2 ^ 53 -> -52 <= eg ->
  exists n Q,
    52 <= n <= 53 /\
    Zdigits2 ((f64_pair x).1 * Z.pos mg) = 53 + n /\
    ((f64_pair x).1 * Z.pos mg) / 2 ^ n <= Q
      <= ((f64_pair x).1 * Z.pos mg) / 2 ^ n + 1 /\
    2 ^ 52 <= Q <= 2 ^ 53 /\
    F64.mul (F64.of_Z x) (S754_finite false mg eg)
    = F64_norm_inf false Q ((f64_pair x).2 + eg + n).
Proof.
  intros Hx Hmg Heg.
  destruct (of_Z_pair x Hx) as (-> & Hm & He).
  destruct (prod_digits _ _ Hm Hmg) as (n & Hn & Hd).
  unfold F64.mul, SFmul. cbn [xorb].
  rewrite Pos2Z.inj_mul, Z2Pos.id by lia.
  destruct (round_aux_between false ((f64_pair x).1 * Z.pos mg)
              ((f64_pair x).2 + eg) loc_Exact n)
    as (Q & HQ & HQn & ->); [nia | exact Hd | lia | lia |].
  exists n, Q. auto.
Qed.

Lemma F64_norm_inf_trunc (Q e z : Z) :
  2 ^ 52 <= Q <= 2 ^ 53 ->
  F64.trunc (F64_norm_inf false Q e) = Some z ->
  exists m' e',
    (if 0 <=? e' then z = m' * 2 ^ e' else z = m' / 2 ^ (- e')) /\
    2 ^ 52 <= m' < 2 ^ 53 /\
    ((e' = e /\ m' = Q) \/ (e' = e + 1 /\ Q = 2 ^ 53 /\ m' = 2 ^ 52)).
Proof.
  intros HQ. unfold F64_norm_inf.
  destruct (Q <? 2 ^ 53) eqn:Hlt.
  - apply Z.ltb_lt in Hlt. destruct (e <=? 971); [|discriminate].
    rewrite trunc_finite, Z2Pos.id by lia. intros [= <-].
    exists Q, e. split; [destruct (0 <=? e); reflexivity|].
    split; [lia|]. left. auto.
  - apply Z.ltb_ge in Hlt. destruct (e + 1 <=? 971); [|discriminate].
    rewrite trunc_finite, Z2Pos.id by reflexivity. intros [= <-].
    exists (2 ^ 52), (e + 1). split; [destruct (0 <=? e + 1); reflexivity|].
    split; [split; [lia | reflexivity]|]. right. split; [reflexivity|].
    split; [lia | reflexivity].
Qed.

(** With a factor above one, a start that is not lost on conversion and a
    product within [uint64], the generator does not go back; it goes
    forward when the exact product is at least one above the start, and
    from 2^52 on in any case. *)
Lemma scale_grows `{Platform} (g : spec_float) (x : Z) :
  above_one g = true -> 0 < x < 2 ^ 64 ->
  fits_uint64 (F64.mul (F64.of_Z x) g) = true ->
  x <= MultipleGenerator.scale g x < 2 ^ 64 /\
  (advances g x = true \/ 2 ^ 52 <= x -> x < MultipleGenerator.scale g x).
Proof.
  intros Hg Hx Hfit.
  destruct (above_one_normal g Hg) as (mg & eg & -> & Hmg & Heg & Hstrict).
  destruct (fits_uint64_spec _ Hfit) as (z & Htr & Hz & Hconv).
  unfold MultipleGenerator.scale. rewrite Hconv. clear Hconv Hfit.
  destruct (mul_of_Z x mg eg Hx Hmg ltac:(lia))
    as (n & Q & Hn & Hd & HQ & HQn & Hmul).
  rewrite Hmul in Htr.
  destruct (F64_norm_inf_trunc Q _ z HQn Htr) as (m' & e' & Hzv & Hm' & Hcase).
  destruct (of_Z_pair x Hx) as (_ & Hm & He).
  destruct (f64_pair_value x Hx) as (Hexact & Hup & Hlt & Hbig).
  set (m := (f64_pair x).1) in *. set (e := (f64_pair x).2) in *.
  assert (He' : e <= e') by (destruct Hcase as [[-> _]|[-> _]]; lia).
  assert (H52 : 0 < 2 ^ 52) by reflexivity.
  destruct (Z.eq_dec e' e) as [Hee|Hne].
  - (* the same binade: the factor is below two *)
    assert (eg = -52 /\ n = 52 /\ m' = Q) as (Heg52 & Hn52 & HmQ)
      by (destruct Hcase as [[? ?]|[? ?]]; lia).
    subst eg n e'. specialize (Hstrict eq_refl).
    assert (Hq1 : m + 1 <= Q).
    { assert (m + 1 <= m * Z.pos mg / 2 ^ 52); [|lia].
      apply Z.div_le_lower_bound; [lia|]. nia. }
    destruct (0 <=? e) eqn:H0.
    + apply Z.leb_le in H0. subst z.
      assert (Hpe : 0 < 2 ^ e) by (apply Z.pow_pos_nonneg; lia).
      assert (x < (m + 1) * 2 ^ e).
      { destruct (Z.eq_dec e 0) as [->|]; [|apply Hup; lia].
        rewrite (Hexact ltac:(lia)). change (2 ^ (- 0)) with 1. lia. }
      split; [nia|]. intros _. nia.
    + apply Z.leb_gt in H0. subst z.
      assert (Hpe : 0 < 2 ^ (- e)) by (apply Z.pow_pos_nonneg; lia).
      specialize (Hexact ltac:(lia)).
      split; [split; [|lia]|].
      * apply Z.div_le_lower_bound; [lia|]. nia.
      * intros [Hadv|Hx52]; [|specialize (Hbig Hx52); lia].
        unfold advances in Hadv. change (0 <=? -52) with false in Hadv.
        apply Z.leb_le in Hadv. change (- -52) with 52 in Hadv.
        assert (x + 1 <= m' / 2 ^ (- e)); [|lia].
        apply Z.div_le_lower_bound; [lia|].
        assert ((x + 1) * 2 ^ (- e) <= m * Z.pos mg / 2 ^ 52); [|lia].
        apply Z.div_le_lower_bound; [lia|]. nia.
  - (* a higher binade *)
    assert (Hgt : e + 1 <= e') by lia.
    assert (Hxe : x < 2 ^ (52 + e')).
    { eapply Z.lt_le_trans; [exact Hlt|]. apply Z.pow_le_mono_r; lia. }
    assert (Hzbig : 2 ^ (52 + e') <= z).
    { destruct (0 <=? e') eqn:H0.
      - apply Z.leb_le in H0. subst z. rewrite Z.pow_add_r by lia.
        assert (0 < 2 ^ e') by (apply Z.pow_pos_nonneg; lia). nia.
      - apply Z.leb_gt in H0. subst z.
        apply Z.div_le_lower_bound; [apply Z.pow_pos_nonneg; lia|].
        rewrite <- Z.pow_add_r by lia.
        replace (- e' + (52 + e')) with 52 by lia. lia. }
    split; [lia|]. intros _. lia.
Qed.

Lemma scale_zero `{Platform} (g : spec_float) :
  above_one g = true -> MultipleGenerator.scale g 0 = 0.
Proof.
  intros Hg. destruct (above_one_normal g Hg) as (mg & eg & -> & _).
  reflexivity.
Qed.

Lemma advances_mono (g : spec_float) (x y : Z) :
  above_one g = true -> advances g x = true -> 0 <= x <= y ->
  advances g y = true.
Proof.
  intros Hg Hadv Hxy.
  destruct (above_one_normal g Hg) as (mg & eg & -> & Hmg & Heg & _).
  unfold advances in *. assert (H52 : 0 < 2 ^ 52) by reflexivity.
  destruct (0 <=? eg) eqn:H0.
  - apply Z.leb_le in H0, Hadv. apply Z.leb_le.
    assert (1 <= 2 ^ eg) by (pose proof (Z.pow_pos_nonneg 2 eg); lia).
    assert (2 <= Z.pos mg * 2 ^ eg) by nia.
    rewrite <- Z.mul_assoc in *. nia.
  - apply Z.leb_gt in H0. apply Z.leb_le in Hadv. apply Z.leb_le.
    assert (0 < 2 ^ (- eg)) by (apply Z.pow_pos_nonneg; lia). nia.
Qed.

Lemma at_most_spec (mg : positive) (eg G : Z) :
  at_most (S754_finite false mg eg) G = true ->
  2 ^ 52 <= Z.pos mg -> 0 <= G < 2 ^ 53 ->
  eg <= 0 /\ Z.pos mg <= G * 2 ^ (- eg).
Proof.
  unfold at_most. intros Hat Hmg HG.
  destruct (0 <=? eg) eqn:H0.
  - apply Z.leb_le in H0, Hat.
    destruct (Z.eq_dec eg 0) as [->|Hne].
    + change (2 ^ 0) with 1 in Hat. change (2 ^ (- 0)) with 1. lia.
    + assert (2 <= 2 ^ eg).
      { change 2 with (2 ^ 1) at 1. apply Z.pow_le_mono_r; lia. }
      change (2 ^ 53) with (2 * 2 ^ 52) in HG. nia.
  - apply Z.leb_gt in H0. apply Z.leb_le in Hat. split; [lia | exact Hat].
Qed.

Lemma at_most_ge_one (g : spec_float) (G : Z) :
  above_one g = true -> at_most g G = true -> 1 <= G.
Proof.
  intros Hg Hat.
  destruct (above_one_normal g Hg) as (mg & eg & -> & Hmg & Heg & _).
  unfold at_most in Hat. assert (0 < 2 ^ 52) by reflexivity.
  destruct (Z_lt_le_dec G 1); [|assumption]. exfalso.
  destruct (0 <=? eg) eqn:H0.
  - apply Z.leb_le in Hat, H0.
    pose proof (Z.pow_pos_nonneg 2 eg ltac:(lia) H0). nia.
  - apply Z.leb_le in Hat. apply Z.leb_gt in H0.
    pose proof (Z.pow_pos_nonneg 2 (- eg) ltac:(lia) ltac:(lia)). nia.
Qed.

(** With a factor between one and the integer [G] and a product [x * G]
    that [float64] holds exactly, the product is within [uint64] and the
    generator goes at most to [x * G]. *)
Lemma scale_upper `{Platform} (g : spec_float) (G x : Z) :
  above_one g = true -> at_most g G = true ->
  0 < x -> x * G < 2 ^ 53 ->
  fits_uint64 (F64.mul (F64.of_Z x) g) = true /\
  MultipleGenerator.scale g x <= x * G.
Proof.
  intros Hg Hat Hx HxG.
  destruct (above_one_normal g Hg) as (mg & eg & -> & Hmg & Heg & _).
  assert (H52 : 0 < 2 ^ 52) by reflexivity.
  assert (H53 : 2 ^ 53 = 2 * 2 ^ 52) by reflexivity.
  pose proof (at_most_ge_one _ G Hg Hat) as HG1.
  assert (HG : 0 <= G < 2 ^ 53) by nia.
  destruct (at_most_spec mg eg G Hat ltac:(lia) HG) as [Heg0 HmG].
  assert (Hx64 : 0 < x < 2 ^ 64).
  { split; [lia|]. assert (2 ^ 53 < 2 ^ 64) by reflexivity. nia. }
  destruct (of_Z_pair x Hx64) as (Hof & Hm & He).
  destruct (f64_pair_value x Hx64) as (Hexact & _ & _ & Hbig).
  assert (He0 : (f64_pair x).2 <= 0).
  { destruct (Z_le_gt_dec (f64_pair x).2 0); [assumption|]. exfalso.
    destruct (Z_lt_le_dec x (2 ^ 53)) as [Hlt|Hge]; [|nia].
    unfold f64_pair in *.
    destruct (Zdigits2 x <=? 53) eqn:Hd; cbn [fst snd] in *; [lia|].
    apply Z.leb_gt in Hd.
    pose proof (Zdigits2_range x ltac:(lia)) as Hr.
    assert (2 ^ 53 <= 2 ^ (Zdigits2 x - 1))
      by (apply Z.pow_le_mono_r; lia). lia. }
  specialize (Hexact He0).
  set (m := (f64_pair x).1) in *. set (e := (f64_pair x).2) in *.
  destruct (prod_digits _ _ Hm Hmg) as (n & Hn & Hd).
  assert (Hpe : 0 < 2 ^ (- e)) by (apply Z.pow_pos_nonneg; lia).
  assert (Hpg : 0 < 2 ^ (- eg)) by (apply Z.pow_pos_nonneg; lia).
  assert (HM : m * Z.pos mg <= x * G * 2 ^ (- (e + eg))).
  { replace (- (e + eg)) with (- e + - eg) by lia.
    rewrite Z.pow_add_r by lia. rewrite Hexact. nia. }
  pose proof (Zdigits2_range (m * Z.pos mg) ltac:(nia)) as HMr.
  rewrite Hd in HMr.
  assert (Hen : e + eg + n <= 0).
  { destruct (Z_le_gt_dec (e + eg + n) 0); [assumption|]. exfalso.
    assert (Hp : 0 < 2 ^ (- (e + eg))) by (apply Z.pow_pos_nonneg; lia).
    assert (Hlt : 2 ^ (53 + n - 1) < 2 ^ (53 + - (e + eg))).
    { rewrite (Z.pow_add_r 2 53 (- (e + eg))) by lia. nia. }
    apply Z.pow_lt_mono_r_iff in Hlt; lia. }
  assert (Hsplit : 2 ^ (- (e + eg + n)) * 2 ^ n = 2 ^ (- (e + eg))).
  { rewrite <- Z.pow_add_r by lia. f_equal. lia. }
  destruct (round_aux_le false (m * Z.pos mg) (e + eg) loc_Exact n
              (x * G * 2 ^ (- (e + eg + n))) ltac:(nia) Hd ltac:(lia)
              ltac:(lia))
    as (m' & e' & Hround & Hm' & Hcase).
  { rewrite <- Z.mul_assoc, Hsplit. exact HM. }
  { intros Hne. contradiction. }
  assert (Hmul : F64.mul (F64.of_Z x) (S754_finite false mg eg)
                 = S754_finite false m' e').
  { rewrite Hof. unfold F64.mul, SFmul. cbn [xorb].
    rewrite Pos2Z.inj_mul, Z2Pos.id by lia. exact Hround. }
  assert (Hbound : e' <= 0 /\ Z.pos m' <= x * G * 2 ^ (- e')).
  { destruct Hcase as [[-> Hb]|[-> Hb]]; [split; [lia | exact Hb]|].
    assert (Hk : 1 <= - (e + eg + n)).
    { destruct (Z_lt_le_dec (- (e + eg + n)) 1); [|assumption]. exfalso.
      assert (e + eg + n = 0) by lia.
      replace (- (e + eg + n)) with 0 in Hb by lia.
      change (2 ^ 0) with 1 in Hb. lia. }
    split; [lia|].
    replace (- (e + eg + n)) with (Z.succ (- (e + eg + n + 1))) in Hb by lia.
    rewrite Z.pow_succ_r in Hb by lia. lia. }
  destruct Hbound as [He' Hb].
  assert (Hpe' : 0 < 2 ^ (- e')) by (apply Z.pow_pos_nonneg; lia).
  assert (Hz : 0 <= (if 0 <=? e' then Z.pos m' * 2 ^ e'
                     else Z.pos m' / 2 ^ (- e')) <= x * G).
  { destruct (0 <=? e') eqn:H0.
    - apply Z.leb_le in H0. assert (e' = 0) as -> by lia.
      change (2 ^ (- 0)) with 1 in Hb. change (2 ^ 0) with 1. lia.
    - split; [apply Z.div_pos; lia|].
      apply Z.div_le_upper_bound; [lia|]. lia. }
  assert (Hfit : fits_uint64 (F64.mul (F64.of_Z x) (S754_finite false mg eg))
                 = true).
  { rewrite Hmul. unfold fits_uint64. rewrite trunc_finite.
    apply andb_true_iff. split; [apply Z.leb_le; lia|].
    apply Z.ltb_lt. assert (2 ^ 53 < 2 ^ 64) by reflexivity. lia. }
  split; [exact Hfit|].
  destruct (fits_uint64_spec _ Hfit) as (z & Htr & _ & Hconv).
  unfold MultipleGenerator.scale. rewrite Hconv.
  rewrite Hmul, trunc_finite in Htr. injection Htr as <-. lia.
Qed.

Lemma no_overflow_bound `{Platform} (g : spec_float) (G : Z) (n : nat) :
  above_one g = true -> at_most g G = true ->
  forall x, 0 < x -> x * G ^ Z.of_nat n < 2 ^ 53 ->
            no_overflow g x n = true.
Proof.
  intros Hg Hat. induction n as [|n IH]; intros x Hx Hb; [reflexivity|].
  rewrite Nat2Z.inj_succ, Z.pow_succ_r in Hb by lia.
  pose proof (at_most_ge_one g G Hg Hat) as HG1.
  assert (Hp : 1 <= G ^ Z.of_nat n).
  { pose proof (Z.pow_pos_nonneg G (Z.of_nat n) ltac:(lia) ltac:(lia)). lia. }
  destruct (scale_upper g G x Hg Hat Hx ltac:(nia)) as [Hfit Hle].
  assert (Hx64 : 0 < x < 2 ^ 64).
  { split; [lia|]. assert (2 ^ 53 < 2 ^ 64) by reflexivity. nia. }
  destruct (scale_grows g x Hg Hx64 Hfit) as [[Hge _] _].
  cbn [no_overflow]. rewrite Hfit. cbn [andb].
  apply IH; [lia|]. nia.
Qed.

(** *** Factors above one *)

Section Growing.

Context `{Platform}.

Lemma above_one_nonzero (g : spec_float) :
  above_one g = true -> F64.eqb g F64.zero = false.
Proof.
  intros Hg. destruct (above_one_normal g Hg) as (mg & eg & -> & _).
  reflexivity.
Qed.

Lemma moves_on_mono (g : spec_float) (x y : Z) :
  above_one g = true -> 0 <= x <= y -> moves_on g x -> moves_on g y.
Proof.
  intros Hg Hxy [Ha|Hb]; [left | right; lia].
  apply (advances_mono g x y); assumption.
Qed.

Lemma bounded_no_overflow numBins binFirst g G :
  above_one g = true -> at_most g G = true ->
  0 <= numBins -> 1 <= binFirst -> binFirst * G ^ numBins < 2 ^ 53 ->
  no_overflow g binFirst (Z.to_nat numBins) = true.
Proof.
  intros Hg Hat Hn Hb Hbound.
  apply (no_overflow_bound g G); [assumption | assumption | lia|].
  rewrite Z2Nat.id by lia. exact Hbound.
Qed.

End Growing.

(** *** The exponential generator *)

Lemma positive_finite_spec (f : spec_float) :
  positive_finite f = true ->
  exists m e, f = S754_finite false m e /\
              Z.pos m < 2 ^ 53 /\ -1074 <= e /\
              (-1074 < e -> 2 ^ 52 <= Z.pos m).
Proof.
  unfold positive_finite, F64_valid, valid_binary.
  destruct f as [| | |s m e]; try discriminate. destruct s; [discriminate|].
  unfold bounded, canonical_mantissa, fexp, emin, F64.prec, F64.emax.
  intros Hv. apply andb_true_iff in Hv as [Hc _]. apply Z.eqb_eq in Hc.
  exists m, e. split; [reflexivity|].
  pose proof (Zdigits2_range (Z.pos m) ltac:(lia)) as Hr. cbn [Zdigits2] in Hr.
  assert (Hd : Z.pos (digits2_pos m) <= 53) by lia.
  split.
  - eapply Z.lt_le_trans; [apply Hr|]. apply Z.pow_le_mono_r; lia.
  - split; [lia|]. intros He.
    assert (Z.pos (digits2_pos m) = 53) as Heq by lia.
    rewrite Heq in Hr. apply Hr.
Qed.

(** Truncation to an integer is monotone on positive [float64] values. *)
Lemma trunc_mono (a b : spec_float) (za zb : Z) :
  positive_finite a = true -> positive_finite b = true ->
  SFleb a b = true ->
  F64.trunc a = Some za -> F64.trunc b = Some zb -> za <= zb.
Proof.
  intros Ha Hb Hle.
  destruct (positive_finite_spec a Ha) as (m1 & e1 & -> & Hm1 & He1 & Hn1).
  destruct (positive_finite_spec b Hb) as (m2 & e2 & -> & Hm2 & He2 & Hn2).
  rewrite !trunc_finite. intros [= <-] [= <-].
  assert (H53 : 2 ^ 53 = 2 * 2 ^ 52) by reflexivity.
  assert (H52 : 0 < 2 ^ 52) by reflexivity.
  assert (Hcase : e1 < e2 \/ (e1 = e2 /\ Z.pos m1 <= Z.pos m2)).
  { unfold SFleb, SFcompare in Hle.
    destruct (e1 ?= e2) eqn:Hc.
    - apply Z.compare_eq in Hc. right. split; [exact Hc|].
      change (Pos.compare_cont Eq m1 m2) with (Pos.compare m1 m2) in Hle.
      destruct (Pos.compare m1 m2) eqn:Hp; try discriminate Hle.
      + apply Pos.compare_eq in Hp. subst. lia.
      + apply Pos.compare_lt_iff in Hp.
        apply Pos2Z.pos_le_pos, Pos.lt_le_incl, Hp.
    - rewrite Z.compare_lt_iff in Hc. left. exact Hc.
    - discriminate Hle. }
  destruct Hcase as [Hlt|[-> Hm]].
  - specialize (Hn2 ltac:(lia)).
    destruct (0 <=? e1) eqn:H1; destruct (0 <=? e2) eqn:H2;
      rewrite ?Z.leb_le, ?Z.leb_gt in *; try lia.
    + assert (2 * 2 ^ e1 <= 2 ^ e2).
      { rewrite <- Z.pow_succ_r by lia. apply Z.pow_le_mono_r; lia. }
      assert (0 < 2 ^ e1) by (apply Z.pow_pos_nonneg; lia). nia.
    + assert (Z.pos m1 / 2 ^ (- e1) <= Z.pos m1 / 2).
      { apply Z.div_le_compat_l; [lia|]. split; [lia|].
        change 2 with (2 ^ 1) at 1. apply Z.pow_le_mono_r; lia. }
      assert (Z.pos m1 / 2 < 2 ^ 52)
        by (apply Z.div_lt_upper_bound; lia).
      assert (1 <= 2 ^ e2) by (pose proof (Z.pow_pos_nonneg 2 e2); lia).
      nia.
    + assert (Hsplit : 2 ^ (- e1) = 2 ^ (e2 - e1) * 2 ^ (- e2)).
      { rewrite <- Z.pow_add_r by lia. f_equal. lia. }
      rewrite Hsplit, <- Z.div_div by
        (try apply Z.pow_pos_nonneg; try apply Z.pow_nonzero; lia).
      apply Z.div_le_mono; [apply Z.pow_pos_nonneg; lia|].
      assert (Z.pos m1 / 2 ^ (e2 - e1) <= Z.pos m1 / 2).
      { apply Z.div_le_compat_l; [lia|]. split; [lia|].
        change 2 with (2 ^ 1) at 1. apply Z.pow_le_mono_r; lia. }
      assert (Z.pos m1 / 2 < 2 ^ 52)
        by (apply Z.div_lt_upper_bound; lia).
      lia.
  - destruct (0 <=? e2) eqn:H2.
    + apply Z.leb_le in H2.
      apply Z.mul_le_mono_nonneg_r; [apply Z.pow_nonneg; lia | exact Hm].
    + apply Z.leb_gt in H2.
      apply Z.div_le_mono; [apply Z.pow_pos_nonneg; lia | exact Hm].
Qed.

Section Exponential.

Context `{Platform}.

Lemma pow_grows_boundary (g : spec_float) (n : nat) (k : nat) :
  pow_grows g n = true -> (k < n)%nat ->
  ExponentialGenerator.boundary g (Z.of_nat k)
  <= ExponentialGenerator.boundary g (Z.of_nat k + 1).
Proof.
  unfold pow_grows. rewrite forallb_forall. intros Hall Hk.
  specialize (Hall k). cbv zeta in Hall.
  rewrite !andb_true_iff in Hall.
  destruct Hall as ((((Ha & Hb) & Hfa) & Hfb) & Hle);
    [apply in_seq; lia|].
  destruct (fits_uint64_spec _ Hfa) as (za & Hta & _ & Hca).
  destruct (fits_uint64_spec _ Hfb) as (zb & Htb & _ & Hcb).
  unfold ExponentialGenerator.boundary. rewrite Hca, Hcb.
  apply (trunc_mono _ _ za zb Ha Hb Hle Hta Htb).
Qed.

End Exponential.

(** *** The generated bins among the completed ones *)

Lemma all_nonempty bins :
  Forall (fun hb => _start hb < _end hb) bins -> nonempty_ranges bins.
Proof.
  intros Hall i hb Hi _. rewrite Forall_lookup in Hall. eapply Hall, Hi.
Qed.

Lemma completeBinArray_shape bins bins' :
  completeBinArray bins = Some bins' ->
  exists pre post l,
    bins' = pre ++ bins ++ post /\ last bins = Some l /\
    (pre = [] \/ exists s, 0 < s /\ pre = [mkBin 0 0 s]) /\
    ((post = [] /\ MaxUint64 <= _end l) \/
     (_end l < MaxUint64 /\ post = [mkBin 0 (_end l) MaxUint64])).
Proof.
  unfold completeBinArray. destruct bins as [|first rest]; [discriminate|].
  cbv zeta.
  destruct (last (first :: rest)) as [l|] eqn:Hl;
    [|apply last_None in Hl; discriminate].
  destruct (0 <? _start first) eqn:H0.
  - rewrite last_cons, Hl.
    apply Z.ltb_lt in H0. intros [= <-].
    exists [mkBin 0 0 (_start first)].
    destruct (_end l <? MaxUint64) eqn:He.
    + apply Z.ltb_lt in He. exists [mkBin 0 (_end l) MaxUint64], l.
      split; [reflexivity|]. split; [reflexivity|]. split; [eauto|]. auto.
    + apply Z.ltb_ge in He. exists [], l. rewrite app_nil_r.
      split; [reflexivity|]. split; [reflexivity|]. split; [eauto|]. auto.
  - rewrite Hl. intros [= <-]. exists [].
    destruct (_end l <? MaxUint64) eqn:He.
    + apply Z.ltb_lt in He. exists [mkBin 0 (_end l) MaxUint64], l.
      split; [reflexivity|]. split; [reflexivity|]. auto.
    + apply Z.ltb_ge in He. exists [], l. rewrite app_nil_r.
      split; [reflexivity|]. split; [reflexivity|]. auto.
Qed.

Lemma completeBinArray_filled (P : HistogramBin -> Prop) bins bins' :
  completeBinArray bins = Some bins' -> Forall P bins' -> Forall P bins.
Proof.
  intros Hc Hall.
  destruct (completeBinArray_shape _ _ Hc) as (pre & post & l & -> & _).
  apply Forall_app in Hall as [_ Hall].
  apply Forall_app in Hall as [Hall _]. exact Hall.
Qed.

(** When every bin but the last of the completed array has
    [start < end], so has every generated bin that ends below
    [MaxUint64]: another bin follows it. *)
Lemma nonempty_generated bins bins' :
  completeBinArray bins = Some bins' -> nonempty_ranges bins' ->
  Forall (fun hb => _end hb < MaxUint64 -> _start hb < _end hb) bins.
Proof.
  intros Hc Hne.
  destruct (completeBinArray_shape _ _ Hc)
    as (pre & post & l & -> & Hl & _ & Hpost).
  apply Forall_lookup. intros i hb Hi Hend.
  apply (Hne (length pre + i)%nat).
  - rewrite lookup_app_r by lia.
    replace (length pre + i - length pre)%nat with i by lia.
    rewrite lookup_app_l by (apply lookup_lt_Some in Hi; exact Hi).
    exact Hi.
  - rewrite !length_app. pose proof (lookup_lt_Some _ _ _ Hi) as Hlt.
    destruct Hpost as [[-> Hmax]|[_ ->]]; [|simpl; lia].
    simpl. destruct (decide (S i = length bins)) as [Hlast|Hnot]; [|lia].
    rewrite last_lookup in Hl.
    replace (pred (length bins)) with i in Hl by lia.
    rewrite Hi in Hl. injection Hl as ->. lia.
Qed.

(** *** The generated boundaries, step by step *)

Section Steps.

Context `{Platform}.

Variable R : Z -> Z -> bool.

Lemma fill_steps slots : forall mg,
  F64.eqb (MultipleGenerator._factor mg) F64.zero = false ->
  MultipleGenerator._initial mg = -1 ->
  Forall (fun hb => R (_start hb) (_end hb) = true)
         (fill_slots MultipleGenerator.getBin slots mg)
  <-> each_step R (MultipleGenerator._factor mg)
        (MultipleGenerator.scale (MultipleGenerator._factor mg)
           (MultipleGenerator._start mg))
        (length slots) = true.
Proof.
  induction slots as [|s slots IH]; intros mg Hz Hi.
  - simpl. split; [reflexivity | constructor].
  - cbn [fill_slots length each_step].
    unfold MultipleGenerator.getBin at 1. rewrite Hz, Hi.
    change (negb (-1 =? -1)) with false. cbv iota zeta.
    rewrite Forall_cons, andb_true_iff. cbn [_start _end].
    rewrite (IH (MultipleGenerator.mk _ _ _)) by (simpl; auto).
    reflexivity.
Qed.

Lemma to_int_not_minus_one x :
  0 <= x < MaxUint64 -> (to_int x =? -1) = false.
Proof.
  intros Hx. apply Z.eqb_neq. unfold to_int, MaxUint64 in *.
  rewrite wrap_small by (unfold in_range, modulus; lia).
  cbv zeta. destruct (x <? 2 ^ 63) eqn:Hlt; [lia|].
  apply Z.ltb_ge in Hlt. unfold modulus. lia.
Qed.

(** The bins [NewHistogram] generates with a non-zero growth factor:
    the first one from [binFirst] to the first product, the others
    from each product to the next.  [binFirst = MaxUint64] is left out:
    [int(binFirst)] is then -1, the value [_initial] takes once the
    first bin is out, and the first bin starts at the first product. *)
Lemma fill_from_binFirst (n : nat) binFirst g :
  F64.eqb g F64.zero = false -> 0 <= binFirst < MaxUint64 ->
  Forall (fun hb => R (_start hb) (_end hb) = true)
         (fill_slots MultipleGenerator.getBin (replicate n (mkBin 0 0 0))
            (MultipleGenerator.mk binFirst g (to_int binFirst)))
  <-> each_step R g binFirst n = true.
Proof.
  intros Hz Hb. destruct n as [|n]; simpl replicate.
  - simpl. split; [reflexivity | constructor].
  - cbn [fill_slots each_step]. unfold MultipleGenerator.getBin at 1.
    cbn [MultipleGenerator._factor MultipleGenerator._initial
         MultipleGenerator._start].
    rewrite Hz, (to_int_not_minus_one _ Hb). cbn [negb]. cbv iota zeta.
    rewrite of_int_to_int
      by (unfold in_range, modulus, MaxUint64 in *; lia).
    rewrite Forall_cons, andb_true_iff. cbn [_start _end].
    rewrite (fill_steps _ (MultipleGenerator.mk _ _ _)) by (simpl; auto).
    cbn [MultipleGenerator._factor MultipleGenerator._start].
    rewrite length_replicate. reflexivity.
Qed.

Lemma fill_powers (g : spec_float) slots : forall k : nat,
  Z.of_nat k + Z.of_nat (length slots) < 2 ^ 64 ->
  Forall (fun hb => R (_start hb) (_end hb) = true)
         (fill_slots ExponentialGenerator.getBin slots
            (ExponentialGenerator.mk (Z.of_nat k) g))
  <-> forallb (fun k =>
                 R (ExponentialGenerator.boundary g (Z.of_nat k))
                   (ExponentialGenerator.boundary g (Z.of_nat k + 1)))
              (seq k (length slots)) = true.
Proof.
  induction slots as [|s slots IH]; intros k Hk.
  - simpl. split; [reflexivity | constructor].
  - cbn [length] in Hk. cbn [fill_slots length seq forallb].
    unfold ExponentialGenerator.getBin at 1.
    cbn [ExponentialGenerator._start ExponentialGenerator._power]. cbv zeta.
    rewrite wrap_small by (unfold in_range, modulus; lia).
    rewrite Forall_cons, andb_true_iff. cbn [_start _end].
    replace (Z.of_nat k + 1) with (Z.of_nat (S k)) at 2 by lia.
    rewrite IH by lia. reflexivity.
Qed.

End Steps.

Section ConstantSteps.

Context `{Platform}.

(** With a zero growth factor the generator adds [binFirst] at each
    step; a sum that wraps around is below the boundary before it. *)
Lemma fill_constant_le slots : forall mg,
  F64.eqb (MultipleGenerator._factor mg) F64.zero = true ->
  in_range (MultipleGenerator._start mg) ->
  Forall (fun hb => _start hb <= _end hb)
         (fill_slots MultipleGenerator.getBin slots mg)
  <-> (of_int (MultipleGenerator._initial mg) = 0 \/
       MultipleGenerator._start mg
       + Z.of_nat (length slots) * of_int (MultipleGenerator._initial mg)
       < modulus).
Proof.
  induction slots as [|s slots IH]; intros mg Hz Hs.
  - simpl. split; [intros _; right; unfold in_range in Hs; lia
                  | constructor].
  - pose proof (wrap_range (MultipleGenerator._initial mg)) as Hw.
    fold (of_int (MultipleGenerator._initial mg)) in Hw.
    cbn [fill_slots length]. unfold MultipleGenerator.getBin at 1.
    rewrite Hz. cbv zeta. rewrite Forall_cons. cbn [_start _end].
    rewrite (IH (MultipleGenerator.mk _ _ _))
      by (simpl; auto using wrap_range).
    cbn [MultipleGenerator._factor MultipleGenerator._initial
         MultipleGenerator._start].
    set (x := MultipleGenerator._start mg) in *.
    set (b := of_int (MultipleGenerator._initial mg)) in *.
    unfold in_range in Hs, Hw.
    rewrite Nat2Z.inj_succ, <- Z.add_1_r.
    pose proof (Nat2Z.is_nonneg (length slots)) as Hn.
    destruct (Z_lt_le_dec (x + b) modulus) as [Hfit|Hwrap].
    + rewrite (wrap_small (x + b)) by (unfold in_range; lia). split.
      * intros [_ [Hb0|Hb]]; [left; exact Hb0 | right; lia].
      * intros [Hb0|Hb]; (split; [lia|]); [left; exact Hb0 | right; lia].
    + assert (Hwr : wrap (x + b) = x + b - modulus).
      { unfold wrap. symmetry. apply (Z.mod_unique _ _ 1); lia. }
      rewrite Hwr. split.
      * intros [Hle _]. lia.
      * intros [Hb0|Hb]; [lia | nia].
Qed.

Lemma fill_constant_lt slots : forall mg,
  F64.eqb (MultipleGenerator._factor mg) F64.zero = true ->
  in_range (MultipleGenerator._start mg) ->
  (MultipleGenerator._start mg < MaxUint64 \/
   0 < of_int (MultipleGenerator._initial mg)) ->
  let bins := fill_slots MultipleGenerator.getBin slots mg in
  let fits :=
    slots = [] \/
    (0 < of_int (MultipleGenerator._initial mg) /\
     MultipleGenerator._start mg
     + Z.of_nat (length slots) * of_int (MultipleGenerator._initial mg)
     < modulus) in
  (Forall (fun hb => _end hb < MaxUint64 -> _start hb < _end hb) bins
   -> fits) /\
  (fits -> Forall (fun hb => _start hb < _end hb) bins).
Proof.
  cbv zeta.
  induction slots as [|s slots IH]; intros mg Hz Hs Hx.
  - simpl. split; [auto | constructor].
  - pose proof (wrap_range (MultipleGenerator._initial mg)) as Hw.
    fold (of_int (MultipleGenerator._initial mg)) in Hw.
    cbn [fill_slots length]. unfold MultipleGenerator.getBin at 1 3.
    rewrite Hz. cbv zeta. rewrite !Forall_cons. cbn [_start _end].
    specialize (IH (MultipleGenerator.mk
                      (wrap (MultipleGenerator._start mg
                             + of_int (MultipleGenerator._initial mg)))
                      (MultipleGenerator._factor mg)
                      (MultipleGenerator._initial mg))).
    cbn [MultipleGenerator._factor MultipleGenerator._initial
         MultipleGenerator._start] in IH.
    set (x := MultipleGenerator._start mg) in *.
    set (b := of_int (MultipleGenerator._initial mg)) in *.
    unfold in_range in Hs, Hw.
    rewrite Nat2Z.inj_succ, <- Z.add_1_r.
    pose proof (Nat2Z.is_nonneg (length slots)) as Hn.
    assert (HM : MaxUint64 = modulus - 1) by reflexivity.
    destruct (Z_lt_le_dec (x + b) modulus) as [Hfit|Hwrap].
    + rewrite (wrap_small (x + b)) in * by (unfold in_range; lia).
      destruct (IH Hz ltac:(unfold in_range; lia) ltac:(lia)) as [IH1 IH2].
      split.
      * intros [Hfirst Hrest]. right.
        assert (Hb : 0 < b).
        { destruct (Z.eq_dec b 0) as [Hb0|]; [|lia].
          rewrite Hb0, Z.add_0_r in Hfirst. lia. }
        split; [exact Hb|].
        destruct (IH1 Hrest) as [->|[_ Hr]]; [simpl; lia | lia].
      * intros [Hnil|[Hb Hr]]; [discriminate|].
        split; [lia|]. apply IH2.
        destruct slots as [|s' slots']; [left; reflexivity|].
        right. split; [exact Hb | lia].
    + assert (Hwr : wrap (x + b) = x + b - modulus).
      { unfold wrap. symmetry. apply (Z.mod_unique _ _ 1); lia. }
      rewrite Hwr in *. split.
      * intros [Hfirst _]. lia.
      * intros [Hnil|[Hb Hr]]; [discriminate | nia].
Qed.

End ConstantSteps.

Section Completed.

Context `{Platform}.

Lemma completed_Forall_iff (P : HistogramBin -> Prop) bins bins' :
  (forall s, 0 < s -> P (mkBin 0 0 s)) ->
  (forall e, e < MaxUint64 -> P (mkBin 0 e MaxUint64)) ->
  completeBinArray bins = Some bins' ->
  Forall P bins' <-> Forall P bins.
Proof.
  intros Hfirst Hlast Hc. split.
  - apply completeBinArray_filled, Hc.
  - apply completeBinArray_Forall; assumption.
Qed.

Lemma completed_ordered_iff bins bins' :
  completeBinArray bins = Some bins' ->
  ordered_ranges bins' <-> Forall (fun hb => _start hb <= _end hb) bins.
Proof.
  intros Hc. unfold ordered_ranges.
  apply (completed_Forall_iff _ _ _) with (3 := Hc); intros; cbn; lia.
Qed.

Lemma completed_nonempty_iff bins bins' :
  completeBinArray bins = Some bins' ->
  Forall (fun hb => _start hb < _end hb) bins'
  <-> Forall (fun hb => _start hb < _end hb) bins.
Proof.
  intros Hc.
  apply (completed_Forall_iff _ _ _) with (3 := Hc); intros; cbn; lia.
Qed.

Lemma NewHistogram_bins numBins binFirst g gh :
  NewHistogram numBins binFirst g = Some gh ->
  completeBinArray
    (fill_slots MultipleGenerator.getBin
       (replicate (Z.to_nat numBins) (mkBin 0 0 0))
       (MultipleGenerator.mk binFirst g (to_int binFirst)))
  = Some (_bins gh).
Proof.
  unfold NewHistogram, fillMultiples.
  destruct (make_bins numBins) as [slots|] eqn:Hmk; [|discriminate].
  apply make_bins_inv in Hmk as [_ ->]. cbn [_bins].
  destruct (completeBinArray _) as [bins'|]; [|discriminate].
  intros [= <-]. reflexivity.
Qed.

Lemma NewExpHistogram_bins name numBins g gh :
  NewExpHistogram name numBins g = Some gh ->
  completeBinArray
    (fill_slots ExponentialGenerator.getBin
       (replicate (Z.to_nat numBins) (mkBin 0 0 0))
       (ExponentialGenerator.mk 0
          (if F64.leb g F64.one then F64.two else g)))
  = Some (_bins gh).
Proof.
  unfold NewExpHistogram, fillExponential.
  destruct (make_bins numBins) as [slots|] eqn:Hmk; [|discriminate].
  apply make_bins_inv in Hmk as [_ ->]. cbn [_bins].
  destruct (completeBinArray _) as [bins'|]; [|discriminate].
  intros [= <-]. reflexivity.
Qed.

Lemma NewCbHistogram_bins name n h :
  Cb.NewCbHistogram name n = Some h ->
  completeBinArray
    (fill_slots ExponentialGenerator.getBin
       (replicate (Z.to_nat n) (mkBin 0 0 0))
       (ExponentialGenerator.mk 0 F64.two))
  = Some (Cb._bins h).
Proof.
  unfold Cb.NewCbHistogram.
  destruct (make_bins n) as [slots|] eqn:Hmk; [|discriminate].
  apply make_bins_inv in Hmk as [_ ->].
  rewrite Cb_fill_completeBinArray. cbn [Cb._bins Cb._name].
  destruct (completeBinArray _) as [bins'|]; [|discriminate].
  intros [= <-]. reflexivity.
Qed.

Lemma Forall_leb (bins : list HistogramBin) :
  Forall (fun hb => (_start hb <=? _end hb) = true) bins
  <-> Forall (fun hb => _start hb <= _end hb) bins.
Proof. apply Forall_iff. intros hb. apply Z.leb_le. Qed.

Lemma Forall_ltb (bins : list HistogramBin) :
  Forall (fun hb => (_start hb <? _end hb) = true) bins
  <-> Forall (fun hb => _start hb < _end hb) bins.
Proof. apply Forall_iff. intros hb. apply Z.ltb_lt. Qed.

(** The bins of an exponential histogram are sorted exactly when the
    converted powers do not decrease. *)
Lemma exponential_sorted_iff (g : spec_float) (n : Z) bins' :
  0 <= n < 2 ^ 63 ->
  completeBinArray
    (fill_slots ExponentialGenerator.getBin
       (replicate (Z.to_nat n) (mkBin 0 0 0))
       (ExponentialGenerator.mk 0 g)) = Some bins' ->
  verify_from 0 bins' = true -> Forall fresh_bin bins' ->
  sorted_by_start bins' <-> each_power Z.leb g (Z.to_nat n) = true.
Proof.
  intros Hn Hc Hv Hall.
  destruct (verified_sorted_iff _ Hv Hall) as [_ ->].
  rewrite (completed_ordered_iff _ _ Hc), <- Forall_leb.
  change 0 with (Z.of_nat 0) in Hc |- * at 1.
  rewrite (fill_powers Z.leb g _ 0%nat), length_replicate; [reflexivity|].
  rewrite length_replicate, Z2Nat.id by lia.
  assert (2 ^ 63 < 2 ^ 64) by reflexivity. lia.
Qed.

Lemma pow_grows_each_power (g : spec_float) (n : nat) :
  pow_grows g n = true -> each_power Z.leb g n = true.
Proof.
  intros Hp. unfold each_power. apply forallb_forall. intros k Hk.
  apply in_seq in Hk. apply Z.leb_le.
  apply (pow_grows_boundary g n k Hp). lia.
Qed.

(** No overflow, with a factor above one: no product is below the
    boundary it is computed from. *)
Lemma no_overflow_each_step (g : spec_float) (n : nat) : forall x,
  above_one g = true -> 0 <= x < 2 ^ 64 ->
  no_overflow g x n = true -> each_step Z.leb g x n = true.
Proof.
  induction n as [|n IH]; intros x Hg Hx Hno; [reflexivity|].
  cbn [no_overflow each_step] in *.
  apply andb_true_iff in Hno as [Hfit Hno].
  destruct (Z.eq_dec x 0) as [->|Hne].
  - rewrite (scale_zero _ Hg) in *. apply andb_true_iff. split; [reflexivity|].
    apply IH; auto.
  - destruct (scale_grows g x Hg ltac:(lia) Hfit) as [Hge _].
    apply andb_true_iff. split; [apply Z.leb_le; lia|].
    apply IH; [exact Hg | lia | exact Hno].
Qed.

Lemma no_overflow_each_step_lt (g : spec_float) (n : nat) : forall x,
  above_one g = true -> 0 < x < 2 ^ 64 -> moves_on g x ->
  no_overflow g x n = true -> each_step Z.ltb g x n = true.
Proof.
  induction n as [|n IH]; intros x Hg Hx Hmove Hno; [reflexivity|].
  cbn [no_overflow each_step] in *.
  apply andb_true_iff in Hno as [Hfit Hno].
  destruct (scale_grows g x Hg Hx Hfit) as [Hge Hlt].
  specialize (Hlt Hmove).
  apply andb_true_iff. split; [apply Z.ltb_lt; lia|].
  apply IH; [exact Hg | lia | | exact Hno].
  apply (moves_on_mono g x); [exact Hg | lia | exact Hmove].
Qed.

Lemma no_overflow_not_max (g : spec_float) (x : Z) (n : nat) :
  above_one g = true -> 0 <= x < 2 ^ 64 ->
  no_overflow g x (S n) = true -> x < MaxUint64.
Proof.
  intros Hg Hx Hno. cbn [no_overflow] in Hno.
  apply andb_true_iff in Hno as [Hfit _].
  destruct (Z_lt_le_dec x (2 ^ 52)) as [Hsmall|Hbig].
  - assert (2 ^ 52 < MaxUint64) by reflexivity. lia.
  - destruct (scale_grows g x Hg ltac:(lia) Hfit) as [Hge Hlt].
    specialize (Hlt (or_intror Hbig)). unfold MaxUint64. lia.
Qed.

Lemma advances_positive (g : spec_float) (x : Z) :
  advances g x = true -> 0 <= x -> 1 <= x.
Proof.
  intros Ha Hx. destruct (Z.eq_dec x 0) as [->|]; [|lia].
  unfold advances in Ha. destruct g as [| | |[] m e]; try discriminate.
  destruct (0 <=? e) eqn:He.
  - apply Z.leb_le in Ha. lia.
  - apply Z.leb_le in Ha. apply Z.leb_gt in He.
    assert (0 < 2 ^ (- e)) by (apply Z.pow_pos_nonneg; lia). lia.
Qed.

End Completed.

(** *** Sorted and non-empty bins, by growth factor *)

Section SortedSteps.

Context `{Platform}.

Lemma NewHistogram_sorted_zero numBins binFirst g gh :
  F64.eqb g F64.zero = true ->
  0 <= numBins -> 0 <= binFirst < 2 ^ 64 ->
  NewHistogram numBins binFirst g = Some gh ->
  ordered_ranges (_bins gh) <-> (numBins + 1) * binFirst < 2 ^ 64.
Proof.
  intros Hz Hn Hb Hgh.
  assert (Hin : in_range binFirst) by (unfold in_range, modulus; lia).
  rewrite (completed_ordered_iff _ _ (NewHistogram_bins _ _ _ _ Hgh)).
  rewrite fill_constant_le by (simpl; auto).
  cbn [MultipleGenerator._initial MultipleGenerator._start].
  rewrite length_replicate, Z2Nat.id, of_int_to_int by (auto; lia).
  unfold modulus. split.
  - intros [->|Hlt]; lia.
  - intros Hlt. right. lia.
Qed.

Lemma NewHistogram_steps (R : Z -> Z -> bool) numBins binFirst g gh :
  F64.eqb g F64.zero = false -> 0 <= binFirst < MaxUint64 ->
  (forall s, 0 < s -> R 0 s = true) ->
  (forall e, e < MaxUint64 -> R e MaxUint64 = true) ->
  NewHistogram numBins binFirst g = Some gh ->
  Forall (fun hb => R (_start hb) (_end hb) = true) (_bins gh)
  <-> each_step R g binFirst (Z.to_nat numBins) = true.
Proof.
  intros Hz Hb Hfirst Hlast Hgh.
  rewrite <- (fill_from_binFirst R _ binFirst g Hz Hb).
  apply (completed_Forall_iff _ _ _) with (3 := NewHistogram_bins _ _ _ _ Hgh).
  - intros s Hs. apply Hfirst, Hs.
  - intros e He. apply Hlast, He.
Qed.

Lemma NewHistogram_nonempty_zero numBins binFirst g gh :
  F64.eqb g F64.zero = true ->
  1 <= numBins -> 0 <= binFirst < 2 ^ 64 ->
  NewHistogram numBins binFirst g = Some gh ->
  (nonempty_ranges (_bins gh)
   -> 1 <= binFirst /\ (numBins + 1) * binFirst < 2 ^ 64) /\
  (1 <= binFirst /\ (numBins + 1) * binFirst < 2 ^ 64
   -> Forall (fun hb => _start hb < _end hb) (_bins gh)).
Proof.
  intros Hz Hn Hb Hgh.
  assert (Hin : in_range binFirst) by (unfold in_range, modulus; lia).
  pose proof (NewHistogram_bins _ _ _ _ Hgh) as Hc.
  assert (HM : MaxUint64 = 2 ^ 64 - 1) by reflexivity.
  destruct (fill_constant_lt
              (replicate (Z.to_nat numBins) (mkBin 0 0 0))
              (MultipleGenerator.mk binFirst g (to_int binFirst)) Hz Hin)
    as [Hto Hfrom].
  { cbn [MultipleGenerator._initial MultipleGenerator._start].
    rewrite of_int_to_int by exact Hin. lia. }
  cbn [MultipleGenerator._initial MultipleGenerator._start] in Hto, Hfrom.
  rewrite length_replicate, Z2Nat.id, of_int_to_int in Hto, Hfrom
    by (auto; lia).
  unfold modulus in Hto, Hfrom. split.
  - intros Hne. destruct (Hto (nonempty_generated _ _ Hc Hne))
      as [Hnil|[Hpos Hlt]]; [|lia].
    apply (f_equal length) in Hnil. rewrite length_replicate in Hnil.
    simpl in Hnil. lia.
  - intros [Hpos Hlt]. apply (completed_nonempty_iff _ _ Hc).
    apply Hfrom. right. lia.
Qed.

End SortedSteps.

(** ** Construction: the claims *)

(** The histogram of [BenchmarkEmitGraph], [NewHistogram(100, 10, 2.0)]:
    the product [10 * 2^61] is above the range of [uint64]; where the
    conversion gives [0x8000000000000000], the bin that starts at
    [10 * 2^60] ends at [2^63], below its start, and the one after it
    is empty. *)
Lemma benchmark_bins_not_sorted :
  exists gh,
    @NewHistogram sample_platform 100 10 F64.two = Some gh /\
    _bins gh !! 61%nat = Some (mkBin 0 (10 * 2 ^ 60) (2 ^ 63)) /\
    _bins gh !! 62%nat = Some (mkBin 0 (2 ^ 63) (2 ^ 63)) /\
    ~ sorted_by_start (_bins gh) /\ ~ nonempty_ranges (_bins gh).
Proof.
  destruct (@NewHistogram sample_platform 100 10 F64.two) as [gh|] eqn:Hgh;
    [|vm_compute in Hgh; discriminate].
  exists gh. split; [reflexivity|].
  assert (H61 : _bins gh !! 61%nat = Some (mkBin 0 (10 * 2 ^ 60) (2 ^ 63))).
  { vm_compute in Hgh. injection Hgh as <-. reflexivity. }
  assert (H62 : _bins gh !! 62%nat = Some (mkBin 0 (2 ^ 63) (2 ^ 63))).
  { vm_compute in Hgh. injection Hgh as <-. reflexivity. }
  assert (Hlen : length (_bins gh) = 102%nat).
  { vm_compute in Hgh. injection Hgh as <-. reflexivity. }
  split; [exact H61|]. split; [exact H62|]. split.
  - intros Hs.
    specialize (Hs 61%nat 62%nat _ _ ltac:(lia) H61 H62). cbn in Hs. lia.
  - intros Hne. specialize (Hne 62%nat _ H62 ltac:(lia)). cbn in Hne. lia.
Qed.

(** [NewExpHistogram] with factor 1.5 and 120 bins: the power 1.5^109 is
    above 2^63 and 1.5^110 is above the range of [uint64]; where the
    conversion gives [0x8000000000000000], the bin of index 110 ends
    below its start. *)
Lemma exponential_bins_not_sorted :
  exists gh,
    @NewExpHistogram sample_platform "exp" 120 one_and_a_half = Some gh /\
    (exists hb, _bins gh !! 110%nat = Some hb /\
                2 ^ 63 < _start hb /\ _end hb = 2 ^ 63) /\
    ~ sorted_by_start (_bins gh).
Proof.
  destruct (@NewExpHistogram sample_platform "exp" 120 one_and_a_half)
    as [gh|] eqn:Hgh; [|vm_compute in Hgh; discriminate].
  exists gh. split; [reflexivity|].
  assert (H110 : exists hb, _bins gh !! 110%nat = Some hb /\
                            2 ^ 63 < _start hb /\ _end hb = 2 ^ 63).
  { vm_compute in Hgh. injection Hgh as <-. eexists.
    split; [reflexivity|]. split; reflexivity. }
  assert (H111 : exists hb, _bins gh !! 111%nat = Some hb /\
                            _start hb = 2 ^ 63).
  { vm_compute in Hgh. injection Hgh as <-. eexists.
    split; reflexivity. }
  split; [exact H110|].
  destruct H110 as (a & Ha & Hsa & _). destruct H111 as (b & Hb & Hsb).
  intros Hs. specialize (Hs 110%nat 111%nat a b ltac:(lia) Ha Hb). lia.
Qed.

(** C4, amended: every construction with at least one bin, and no more
    than [make] accepts, returns, and its bin sequence is contiguous and
    total (the first bin starts at 0, each bin ends where the next
    starts, the last ends at [MaxUint64]).  It is sorted ascending by
    start exactly when no generated boundary is below the one before it:
    for [NewHistogram] with a zero growth factor, exactly when
    [(numBins + 1) * binFirst] is below 2^64; with a non-zero one (and
    [binFirst] below [MaxUint64]), exactly when none of the [numBins]
    conversions [uint64(float64(x) * factor)] gives less than [x], which
    is so for any factor above one when none of the products reaches
    2^64, in particular when [binFirst * G^numBins] is below 2^53 for an
    integer [G] not below the factor; for [NewExpHistogram] and
    [NewCbHistogram], exactly when [uint64(math.Pow(factor, k))] does
    not decrease for [k] from 0 to [numBins], which is so when these
    powers are positive values below 2^64 that do not decrease. *)
Theorem constructions_contiguous_total `{Platform} :
  (forall numBins binFirst binGrowthFactor,
     1 <= numBins <= makeslice_max -> 0 <= binFirst < 2 ^ 64 ->
     exists gh, NewHistogram numBins binFirst binGrowthFactor = Some gh /\
                contiguous_total (_bins gh) /\
                (F64.eqb binGrowthFactor F64.zero = true ->
                 (sorted_by_start (_bins gh)
                  <-> (numBins + 1) * binFirst < 2 ^ 64)) /\
                (F64.eqb binGrowthFactor F64.zero = false ->
                 binFirst < MaxUint64 ->
                 (sorted_by_start (_bins gh)
                  <-> each_step Z.leb binGrowthFactor binFirst
                        (Z.to_nat numBins) = true)) /\
                (above_one binGrowthFactor = true ->
                 no_overflow binGrowthFactor binFirst (Z.to_nat numBins)
                 = true ->
                 sorted_by_start (_bins gh)) /\
                (forall G,
                   above_one binGrowthFactor = true ->
                   at_most binGrowthFactor G = true ->
                   1 <= binFirst -> binFirst * G ^ numBins < 2 ^ 53 ->
                   sorted_by_start (_bins gh))) /\
  (forall name numBins growthFactor,
     1 <= numBins <= makeslice_max -> numBins < 2 ^ 63 ->
     exists gh, NewExpHistogram name numBins growthFactor = Some gh /\
                contiguous_total (_bins gh) /\
                (sorted_by_start (_bins gh)
                 <-> each_power Z.leb
                       (if F64.leb growthFactor F64.one then F64.two
                        else growthFactor) (Z.to_nat numBins) = true) /\
                (pow_grows (if F64.leb growthFactor F64.one then F64.two
                            else growthFactor) (Z.to_nat numBins) = true ->
                 sorted_by_start (_bins gh))) /\
  (forall name n,
     1 <= n <= makeslice_max -> n < 2 ^ 63 ->
     exists h, Cb.NewCbHistogram name n = Some h /\
               contiguous_total (Cb._bins h) /\
               (sorted_by_start (Cb._bins h)
                <-> each_power Z.leb F64.two (Z.to_nat n) = true) /\
               (pow_grows F64.two (Z.to_nat n) = true ->
                sorted_by_start (Cb._bins h))).
Proof.
  split; [|split].
  - intros numBins binFirst g Hn Hb.
    assert (Hin : in_range binFirst) by (unfold in_range, modulus; lia).
    destruct (NewHistogram_spec numBins binFirst g Hn Hin)
      as (gh & Hgh & _ & Hv & Hall).
    exists gh. split; [exact Hgh|].
    destruct (verified_sorted_iff _ Hv Hall) as [Hct Hiff].
    split; [exact Hct|].
    assert (Hsteps : F64.eqb g F64.zero = false -> binFirst < MaxUint64 ->
                     (sorted_by_start (_bins gh)
                      <-> each_step Z.leb g binFirst (Z.to_nat numBins)
                          = true)).
    { intros Hz Hmax. rewrite Hiff. unfold ordered_ranges.
      rewrite <- Forall_leb.
      apply (NewHistogram_steps Z.leb numBins binFirst g gh Hz); auto;
        try lia; intros; apply Z.leb_le; lia. }
    assert (Hgrow : above_one g = true ->
                    no_overflow g binFirst (Z.to_nat numBins) = true ->
                    sorted_by_start (_bins gh)).
    { intros Hg Hno.
      assert (Hmax : binFirst < MaxUint64).
      { destruct (Z.to_nat numBins) as [|k] eqn:Hk; [lia|].
        apply (no_overflow_not_max g binFirst k Hg Hb Hno). }
      apply (Hsteps (above_one_nonzero g Hg) Hmax).
      apply no_overflow_each_step; assumption. }
    split; [|split; [exact Hsteps | split; [exact Hgrow|]]].
    + intros Hz. rewrite Hiff.
      apply (NewHistogram_sorted_zero numBins binFirst g gh); auto; lia.
    + intros G Hg Hat Hb1 Hbound. apply (Hgrow Hg).
      apply (bounded_no_overflow numBins binFirst g G); auto; lia.
  - intros name numBins g Hn Hint.
    destruct (NewExpHistogram_spec name numBins g Hn)
      as (gh & Hgh & _ & Hv & Hall).
    exists gh. split; [exact Hgh|].
    split; [apply (verify_contiguous_total gh), Hv|].
    pose proof (exponential_sorted_iff _ numBins _ ltac:(lia)
                  (NewExpHistogram_bins _ _ _ _ Hgh) Hv Hall) as Hiff.
    split; [exact Hiff|].
    intros Hp. apply Hiff, pow_grows_each_power, Hp.
  - intros name n Hn Hint.
    destruct (NewCbHistogram_spec name n Hn) as (h & Hh & _ & Hv & Hall).
    exists h. split; [exact Hh|].
    split; [apply (verify_contiguous_total (Cb_as_Histogram h)), Hv|].
    pose proof (exponential_sorted_iff _ n _ ltac:(lia)
                  (NewCbHistogram_bins _ _ _ Hh) Hv Hall) as Hiff.
    split; [exact Hiff|].
    intros Hp. apply Hiff, pow_grows_each_power, Hp.
Qed.

(** The constructions of the tests and benchmarks: [NewHistogram(5, 10, f)]
    for the factors 0.0, 1.5, 2.0 and 10.0, [NewHistogram(2, 123, 10.0)],
    [NewExpHistogram] with five bins, [NewCbHistogram] with 10 and with
    100 bins. *)
Lemma constructions_contiguous_total_witness :
  (exists gh, @NewHistogram sample_platform 5 10 F64.zero = Some gh /\
              contiguous_total (_bins gh) /\ sorted_by_start (_bins gh)) /\
  (exists gh, @NewHistogram sample_platform 5 10 one_and_a_half = Some gh /\
              contiguous_total (_bins gh) /\ sorted_by_start (_bins gh)) /\
  (exists gh, @NewHistogram sample_platform 5 10 F64.two = Some gh /\
              contiguous_total (_bins gh) /\ sorted_by_start (_bins gh)) /\
  (exists gh, @NewHistogram sample_platform 5 10 ten = Some gh /\
              contiguous_total (_bins gh) /\ sorted_by_start (_bins gh)) /\
  (exists gh, @NewHistogram sample_platform 2 123 ten = Some gh /\
              contiguous_total (_bins gh) /\ sorted_by_start (_bins gh)) /\
  (exists gh, @NewExpHistogram sample_platform "exp" 5 F64.two = Some gh /\
              contiguous_total (_bins gh) /\ sorted_by_start (_bins gh)) /\
  (exists h, @Cb.NewCbHistogram sample_platform "cb" 10 = Some h /\
             contiguous_total (Cb._bins h) /\
             sorted_by_start (Cb._bins h)) /\
  (exists h, @Cb.NewCbHistogram sample_platform "cb" 100 = Some h /\
             contiguous_total (Cb._bins h) /\
             sorted_by_start (Cb._bins h)).
Proof.
  destruct (constructions_contiguous_total (H := sample_platform))
    as (Hm & He & Hc).
  assert (Hlim : forall n, 1 <= n <= 100 ->
                           1 <= n <= @makeslice_max sample_platform).
  { intros n Hn. split; [lia|].
    assert (100 <= @makeslice_max sample_platform)
      by (vm_compute; discriminate). lia. }
  assert (Hgrowing : forall n b f G,
            1 <= n <= 100 -> 1 <= b < 2 ^ 64 ->
            above_one f = true -> at_most f G = true ->
            b * G ^ n < 2 ^ 53 ->
            exists gh, @NewHistogram sample_platform n b f = Some gh /\
                       contiguous_total (_bins gh) /\
                       sorted_by_start (_bins gh)).
  { intros n b f G Hn Hb Hf HG Hbound.
    destruct (Hm n b f (Hlim n Hn) ltac:(lia))
      as (gh & Hgh & Hct & _ & _ & _ & Hgrow).
    exists gh. split; [exact Hgh|]. split; [exact Hct|].
    apply (Hgrow G); [exact Hf | exact HG | lia | exact Hbound]. }
  split; [|repeat split].
  - destruct (Hm 5 10 F64.zero (Hlim 5 ltac:(lia)) ltac:(lia))
      as (gh & Hgh & Hct & Hzero & _).
    exists gh. split; [exact Hgh|]. split; [exact Hct|].
    apply Hzero; [reflexivity | lia].
  - apply (Hgrowing 5 10 one_and_a_half 2);
      [lia | lia | reflexivity | reflexivity | reflexivity].
  - apply (Hgrowing 5 10 F64.two 2);
      [lia | lia | reflexivity | reflexivity | reflexivity].
  - apply (Hgrowing 5 10 ten 10);
      [lia | lia | reflexivity | reflexivity | reflexivity].
  - apply (Hgrowing 2 123 ten 10);
      [lia | lia | reflexivity | reflexivity | reflexivity].
  - destruct (He "exp" 5 F64.two (Hlim 5 ltac:(lia)) ltac:(lia))
      as (gh & Hgh & Hct & _ & Hs).
    exists gh. split; [exact Hgh|]. split; [exact Hct|].
    apply Hs. vm_compute. reflexivity.
  - destruct (Hc "cb" 10 (Hlim 10 ltac:(lia)) ltac:(lia))
      as (h & Hh & Hct & _ & Hs).
    exists h. split; [exact Hh|]. split; [exact Hct|].
    apply Hs. vm_compute. reflexivity.
  - destruct (Hc "cb" 100 (Hlim 100 ltac:(lia)) ltac:(lia))
      as (h & Hh & Hct & Hs & _).
    exists h. split; [exact Hh|]. split; [exact Hct|].
    apply Hs. vm_compute. reflexivity.
Defined.

(** C7, amended: [NewHistogram] with at least one bin, and no more than
    [make] accepts, returns a histogram in which every bin other than
    the last has [start < end] exactly when [binFirst >= 1] and
    [(numBins + 1) * binFirst] is below 2^64, if the growth factor is
    zero; the last bin then has [start < end] as well.  With a non-zero
    growth factor (and [binFirst] below [MaxUint64]) every bin has
    [start < end] exactly when each of the [numBins] conversions
    [uint64(float64(x) * factor)] gives more than [x]; that is so for
    any factor above one when [binFirst * factor] is at least
    [binFirst + 1] in exact arithmetic (or [binFirst] is 2^52 or more)
    and none of the products reaches 2^64, in particular when
    [binFirst * G^numBins] is below 2^53 for an integer [G] not below
    the factor. *)
Theorem NewHistogram_ranges_nonempty `{Platform} :
  forall numBins binFirst binGrowthFactor,
    1 <= numBins <= makeslice_max -> 0 <= binFirst < 2 ^ 64 ->
    exists gh,
      NewHistogram numBins binFirst binGrowthFactor = Some gh /\
      (F64.eqb binGrowthFactor F64.zero = true ->
       (nonempty_ranges (_bins gh)
        <-> 1 <= binFirst /\ (numBins + 1) * binFirst < 2 ^ 64) /\
       (Forall (fun hb => _start hb < _end hb) (_bins gh)
        <-> 1 <= binFirst /\ (numBins + 1) * binFirst < 2 ^ 64)) /\
      (F64.eqb binGrowthFactor F64.zero = false ->
       binFirst < MaxUint64 ->
       (Forall (fun hb => _start hb < _end hb) (_bins gh)
        <-> each_step Z.ltb binGrowthFactor binFirst (Z.to_nat numBins)
            = true) /\
       (each_step Z.ltb binGrowthFactor binFirst (Z.to_nat numBins) = true
        -> nonempty_ranges (_bins gh))) /\
      (above_one binGrowthFactor = true ->
       advances binGrowthFactor binFirst = true \/ 2 ^ 52 <= binFirst ->
       no_overflow binGrowthFactor binFirst (Z.to_nat numBins) = true ->
       nonempty_ranges (_bins gh) /\
       Forall (fun hb => _start hb < _end hb) (_bins gh)) /\
      (forall G,
         above_one binGrowthFactor = true ->
         advances binGrowthFactor binFirst = true ->
         at_most binGrowthFactor G = true ->
         binFirst * G ^ numBins < 2 ^ 53 ->
         nonempty_ranges (_bins gh) /\
         Forall (fun hb => _start hb < _end hb) (_bins gh)).
Proof.
  intros numBins binFirst g Hn Hb.
  assert (Hin : in_range binFirst) by (unfold in_range, modulus; lia).
  destruct (NewHistogram_spec numBins binFirst g Hn Hin)
    as (gh & Hgh & _ & _ & _).
  exists gh. split; [exact Hgh|].
  assert (Hsteps : F64.eqb g F64.zero = false -> binFirst < MaxUint64 ->
                   (Forall (fun hb => _start hb < _end hb) (_bins gh)
                    <-> each_step Z.ltb g binFirst (Z.to_nat numBins)
                        = true)).
  { intros Hz Hmax. rewrite <- Forall_ltb.
    apply (NewHistogram_steps Z.ltb numBins binFirst g gh Hz); auto;
      try lia; intros; apply Z.ltb_lt; lia. }
  assert (Hgrow : above_one g = true ->
                  advances g binFirst = true \/ 2 ^ 52 <= binFirst ->
                  no_overflow g binFirst (Z.to_nat numBins) = true ->
                  nonempty_ranges (_bins gh) /\
                  Forall (fun hb => _start hb < _end hb) (_bins gh)).
  { intros Hg Hmove Hno.
    assert (Hpos : 1 <= binFirst).
    { destruct Hmove as [Ha|Hbig];
        [apply (advances_positive g); [exact Ha | lia]|].
      assert (0 < 2 ^ 52) by reflexivity. lia. }
    assert (Hmax : binFirst < MaxUint64).
    { destruct (Z.to_nat numBins) as [|k] eqn:Hk; [lia|].
      apply (no_overflow_not_max g binFirst k Hg Hb Hno). }
    assert (Hall : Forall (fun hb => _start hb < _end hb) (_bins gh)).
    { apply (Hsteps (above_one_nonzero g Hg) Hmax).
      apply no_overflow_each_step_lt; auto; lia. }
    split; [apply all_nonempty, Hall | exact Hall]. }
  split; [|split; [|split; [exact Hgrow|]]].
  - intros Hz.
    destruct (NewHistogram_nonempty_zero numBins binFirst g gh Hz
                ltac:(lia) Hb Hgh) as [Hto Hfrom].
    split; split; auto.
    + intros Hc. apply all_nonempty, Hfrom, Hc.
    + intros Hall. apply Hto, all_nonempty, Hall.
  - intros Hz Hmax. split; [exact (Hsteps Hz Hmax)|].
    intros Hs. apply all_nonempty, (Hsteps Hz Hmax), Hs.
  - intros G Hg Hadv Hat Hbound.
    apply (Hgrow Hg (or_introl Hadv)).
    apply (bounded_no_overflow numBins binFirst g G); auto; try lia.
    apply (advances_positive g); [exact Hadv | lia].
Qed.

(** The histograms of [TestNewHistogram]. *)
Lemma NewHistogram_ranges_nonempty_witness :
  (exists gh, @NewHistogram sample_platform 5 10 F64.zero = Some gh /\
              nonempty_ranges (_bins gh) /\
              Forall (fun hb => _start hb < _end hb) (_bins gh)) /\
  (exists gh, @NewHistogram sample_platform 5 10 one_and_a_half = Some gh /\
              nonempty_ranges (_bins gh) /\
              Forall (fun hb => _start hb < _end hb) (_bins gh)) /\
  (exists gh, @NewHistogram sample_platform 5 10 F64.two = Some gh /\
              nonempty_ranges (_bins gh) /\
              Forall (fun hb => _start hb < _end hb) (_bins gh)) /\
  (exists gh, @NewHistogram sample_platform 5 10 ten = Some gh /\
              nonempty_ranges (_bins gh) /\
              Forall (fun hb => _start hb < _end hb) (_bins gh)) /\
  (exists gh, @NewHistogram sample_platform 2 123 ten = Some gh /\
              nonempty_ranges (_bins gh) /\
              Forall (fun hb => _start hb < _end hb) (_bins gh)).
Proof.
  assert (Hlim : forall n, 1 <= n <= 10 ->
                           1 <= n <= @makeslice_max sample_platform).
  { intros n Hn. split; [lia|].
    assert (10 <= @makeslice_max sample_platform)
      by (vm_compute; discriminate). lia. }
  assert (Hgrowing : forall n b f G,
            1 <= n <= 10 -> 0 <= b < 2 ^ 64 ->
            above_one f = true -> advances f b = true ->
            at_most f G = true -> b * G ^ n < 2 ^ 53 ->
            exists gh, @NewHistogram sample_platform n b f = Some gh /\
                       nonempty_ranges (_bins gh) /\
                       Forall (fun hb => _start hb < _end hb) (_bins gh)).
  { intros n b f G Hn Hb Hf Ha HG Hbound.
    destruct (NewHistogram_ranges_nonempty (H := sample_platform) n b f
                (Hlim n Hn) Hb)
      as (gh & Hgh & _ & _ & _ & Hgrow).
    exists gh. split; [exact Hgh|].
    apply (Hgrow G); assumption. }
  split; [|repeat split].
  - destruct (NewHistogram_ranges_nonempty (H := sample_platform) 5 10
                F64.zero (Hlim 5 ltac:(lia)) ltac:(lia))
      as (gh & Hgh & Hzero & _).
    exists gh. split; [exact Hgh|].
    destruct (Hzero eq_refl) as [Hne Hall].
    split; [apply Hne | apply Hall]; lia.
  - apply (Hgrowing 5 10 one_and_a_half 2);
      [lia | lia | reflexivity | reflexivity | reflexivity | reflexivity].
  - apply (Hgrowing 5 10 F64.two 2);
      [lia | lia | reflexivity | reflexivity | reflexivity | reflexivity].
  - apply (Hgrowing 5 10 ten 10);
      [lia | lia | reflexivity | reflexivity | reflexivity | reflexivity].
  - apply (Hgrowing 2 123 ten 10);
      [lia | lia | reflexivity | reflexivity | reflexivity | reflexivity].
Defined.

(** * The model against the tests of the repository *)

Section Tests.

#[local] Existing Instance sample_platform.

(** [TestAdd]: the bins of [NewHistogram(5, 10, 2.0)] and the counts
    after adding 0, 0, 0, 2, 3, 4. *)
Example TestAdd_bins :
  boundaries <$> NewHistogram 5 10 F64.two
  = Some [(0, 10); (10, 20); (20, 40); (40, 80); (80, 160); (160, 320);
          (320, MaxUint64)].
Proof. vm_compute. reflexivity. Qed.

Example TestAdd_counts :
  (NewHistogram 5 10 F64.two ≫= fun gh =>
   AddMany gh [(0, 1); (0, 1); (0, 1); (2, 1); (3, 1); (4, 1)] ≫= fun gh' =>
   Some (counts gh', Total gh'))
  = Some ([6; 0; 0; 0; 0; 0; 0], 6).
Proof. vm_compute. reflexivity. Qed.

(** [TestNewHistogram]: [numBins + 2] bins, one sample per [Add]. *)
Example TestNewHistogram_123 :
  (NewHistogram 2 123 (F64.of_Z 10) ≫= fun gh =>
   AddMany gh [(0, 1); (123, 1)] ≫= fun gh' =>
   Some (boundaries gh', counts gh', Total gh'))
  = Some ([(0, 123); (123, 1230); (1230, 12300); (12300, MaxUint64)],
          [1; 1; 0; 0], 2).
Proof. vm_compute. reflexivity. Qed.

Example constant_2_1_built :
  NewHistogram 2 1 F64.zero ≫= (fun gh => Add gh 0 1) = Some constant_2_1.
Proof. vm_compute. reflexivity. Qed.

Example doubling_2_1_built :
  NewHistogram 2 1 F64.two ≫= (fun gh => Add gh 0 5) = Some doubling_2_1.
Proof. vm_compute. reflexivity. Qed.

(** [TestAddAll]: the first [gh2.AddAll(gh)] copies the counts of [gh]
    into the fresh [gh2]; after the second, [gh2] holds what the test
    expects, and [Total()] is 12. *)
Example TestAddAll_first :
  (NewHistogram 5 10 F64.two ≫= fun gh =>
   AddMany gh [(15, 2); (25, 3); (1000, 1)] ≫= fun gh =>
   NewHistogram 5 10 F64.two ≫= fun gh2 => Some (AddAll gh2 gh))
  = Some (TestAddAll_gh2, TestAddAll_gh).
Proof. vm_compute. reflexivity. Qed.

Example TestAddAll_second :
  counts (AddAll TestAddAll_gh2 TestAddAll_gh).1 = [0; 4; 6; 0; 0; 0; 2] /\
  Total (AddAll TestAddAll_gh2 TestAddAll_gh).1 = 12.
Proof. split; reflexivity. Qed.

(** [TestGraph]: the histogram the test renders. *)
Example TestGraph_built :
  (NewHistogram 7 10 F64.two ≫= fun gh =>
   AddMany gh [(5, 2); (10, 20); (20, 10); (40, 3); (160, 2); (320, 1);
               (1280, 10)] ≫= fun gh' =>
   Some (mkHistogram "TestGraph" (_bins gh')))
  = Some TestGraph_gh.
Proof. vm_compute. reflexivity. Qed.

(** [TestNewCbHistogram] and [TestCbHistogramGraph]: the CbHistogram
    engine writes what its test expects. *)
Example TestNewCbHistogram_bins :
  (length ∘ Cb._bins) <$> Cb.NewCbHistogram "TestNewCbHistogram_bins_10" 10
  = Some 12%nat.
Proof. vm_compute. reflexivity. Qed.

Example TestCbHistogramGraph_built :
  (fun h => Cb._bins h) <$> Cb.NewCbHistogram "TestGraph" 5
  = Some (map (set 0) (Cb._bins TestCbHistogramGraph_hist)).
Proof. vm_compute. reflexivity. Qed.

Example TestCbHistogramGraph_text :
  Cb.EmitGraph TestCbHistogramGraph_hist = Some TestCbHistogramGraph_exp.
Proof. vm_compute. reflexivity. Qed.

(** A growth factor of 1.5 on a first width of 1: the generated bins
    are all [1 - 1]. *)
Example growth_truncates :
  boundaries <$> NewHistogram 3 1 (F64.div (F64.of_Z 3) (F64.of_Z 2))
  = Some [(0, 1); (1, 1); (1, 1); (1, 1); (1, MaxUint64)].
Proof. vm_compute. reflexivity. Qed.

(** [Reset] followed by [Total]. *)
Example Reset_Total : Total (Reset TestGraph_gh) = 0.
Proof. reflexivity. Qed.

End Tests.
